(** * chairs-etc: the furniture system's interaction core

    A shallow embedding of [src/chairs-etc/src/furniture.js]
    (class [FurnitureSystem]) and of the marker module it imports: the note
    collection and its persistence in [localStorage], hover tracking, the
    delete-confirmation loop, the floor collider kept in the physics world,
    and the placement finalizer.

    Conventions of the embedding.
    - A JavaScript number is a [jsnum]: a finite value (an exact rational;
      rounding of arithmetic is not modelled, and the sign of zero is not
      tracked, as [===] does not see it), [NaN] or an infinity. The one
      rounding the code asks for, the storage of the marker's vertices in
      single precision, is modelled ([fround]).
    - A JavaScript string is the list of its UTF-16 code units ([jsstring]).
    - A JavaScript object that the code compares by reference (a note, a
      pickable mesh, a collider) carries a [nat] reference allocated from a
      counter of the system state.
    - The scene graph, the ray caster, the game pad and the rigid-body solver
      are outside the repository: what they return in a frame is an input of
      that frame ([frame]), and the solver is a parameter of the development
      ([env]), as are the store's acceptance of a write and what the label
      surface's own [update] makes of its visibility.
    - [JSON.parse (JSON.stringify v)] is modelled on values ([to_json]); the
      text stored under the key is kept as what [JSON.parse] makes of it
      ([raw]).
    - [String(v)] and [Number(v)] throw a TypeError on an object that cannot
      be converted to a primitive: the two conversions return an [option].
    - Meshes, materials and the DOM of the editor are left out; of the
      visuals the embedding keeps what the code reads back or tests:
      positions, label visibility, halo scale, and which objects are children
      of the scene. *)

From Stdlib Require Import List String Ascii Bool Arith NArith ZArith QArith Qabs Lia.
Import ListNotations.
Set Warnings "-register-all".
Set Warnings "-notation-for-abbreviation".
Local Open Scope string_scope.
Local Open Scope list_scope.

(** ** JavaScript values *)

Inductive jsnum : Type :=
| Fin (q : Q)
| NaN
| PosInf
| NegInf.

Definition num_of_Z (z : Z) : jsnum := Fin (inject_Z z).

Definition Qzero (q : Q) : bool := Z.eqb (Qnum q) 0.
Definition Qneg (q : Q) : bool := Z.ltb (Qnum q) 0.

(** ToBoolean on a number: [0] and [NaN] are falsy. *)
Definition num_truthy (n : jsnum) : bool :=
  match n with
  | Fin q => negb (Qzero q)
  | NaN => false
  | PosInf | NegInf => true
  end.

Definition is_finite (n : jsnum) : bool :=
  match n with Fin _ => true | _ => false end.

(** [a + b] and [a * b] of IEEE numbers, exact on finite operands. *)
Definition jadd (a b : jsnum) : jsnum :=
  match a, b with
  | NaN, _ | _, NaN => NaN
  | Fin x, Fin y => Fin (x + y)
  | PosInf, NegInf | NegInf, PosInf => NaN
  | PosInf, _ | _, PosInf => PosInf
  | NegInf, _ | _, NegInf => NegInf
  end.

Definition jneg (a : jsnum) : jsnum :=
  match a with
  | Fin x => Fin (- x)
  | NaN => NaN
  | PosInf => NegInf
  | NegInf => PosInf
  end.

Definition inf_times (q : Q) : jsnum :=
  if Qzero q then NaN else if Qneg q then NegInf else PosInf.

Definition jmul (a b : jsnum) : jsnum :=
  match a, b with
  | NaN, _ | _, NaN => NaN
  | Fin x, Fin y => Fin (x * y)
  | PosInf, Fin y => inf_times y
  | Fin x, PosInf => inf_times x
  | NegInf, Fin y => jneg (inf_times y)
  | Fin x, NegInf => jneg (inf_times x)
  | PosInf, PosInf | NegInf, NegInf => PosInf
  | PosInf, NegInf | NegInf, PosInf => NegInf
  end.

(** [a < b]; every comparison with [NaN] is false. *)
Definition jlt (a b : jsnum) : bool :=
  match a, b with
  | NaN, _ | _, NaN => false
  | Fin x, Fin y => match Qcompare x y with Lt => true | _ => false end
  | NegInf, NegInf => false
  | NegInf, _ => true
  | _, PosInf => match a with PosInf => false | _ => true end
  | _, _ => false
  end.

Local Close Scope Q_scope.

(** A string is the sequence of its UTF-16 code units; [str] is the string
    of an ASCII literal. *)
Definition jsstring : Type := list N.

Definition str (s : string) : jsstring :=
  map N_of_ascii (list_ascii_of_string s).

Fixpoint str_eqb (a b : jsstring) : bool :=
  match a, b with
  | [], [] => true
  | x :: a', y :: b' => (N.eqb x y && str_eqb a' b')%bool
  | _, _ => false
  end.

Record vec3 : Type := Vec3 { vx : jsnum; vy : jsnum; vz : jsnum }.

Definition vzero : vec3 := Vec3 (num_of_Z 0) (num_of_Z 0) (num_of_Z 0).

(** A value as [JSON.parse] can return it, together with [undefined] and the
    numbers JSON cannot write. An object is its list of properties, in which
    a real object has each name once; [lookup] takes the first. *)
Inductive jsval : Type :=
| VUndef
| VNull
| VBool (b : bool)
| VNum (n : jsnum)
| VStr (s : jsstring)
| VArr (l : list jsval)
| VObj (props : list (jsstring * jsval)).

(** ToBoolean. *)
Definition truthy (v : jsval) : bool :=
  match v with
  | VUndef | VNull => false
  | VBool b => b
  | VNum n => num_truthy n
  | VStr s => match s with [] => false | _ :: _ => true end
  | VArr _ | VObj _ => true
  end.

(** [a || b]. *)
Definition js_or (a b : jsval) : jsval := if truthy a then a else b.

Fixpoint lookup (k : jsstring) (props : list (jsstring * jsval)) : jsval :=
  match props with
  | [] => VUndef
  | (k', v) :: rest => if str_eqb k k' then v else lookup k rest
  end.

(** An own property of that name. *)
Definition has_key (k : jsstring) (props : list (jsstring * jsval)) : bool :=
  existsb (fun kv => str_eqb k (fst kv)) props.

(** [v?.name] for the property names the code reads ([position], [content],
    [id]): only an object has them. *)
Definition get_prop (v : jsval) (name : jsstring) : jsval :=
  match v with
  | VObj props => lookup name props
  | _ => VUndef
  end.

Fixpoint nat_to_string_aux (fuel n : nat) (acc : string) : string :=
  let d := String (ascii_of_nat (48 + n mod 10)) acc in
  match fuel with
  | O => d
  | S f => if Nat.ltb n 10 then d else nat_to_string_aux f (n / 10) d
  end.

Definition nat_to_string (n : nat) : string := nat_to_string_aux n n "".

(** [v?.[i]]: an element of an array, a code unit of a string, the property
    named by the index of an object. *)
Definition get_index (v : jsval) (i : nat) : jsval :=
  match v with
  | VArr l => nth i l VUndef
  | VStr s => match nth_error s i with
              | Some c => VStr [c]
              | None => VUndef
              end
  | VObj props => lookup (str (nat_to_string i)) props
  | _ => VUndef
  end.

(** [JSON.parse (JSON.stringify v)] for [v] inside the saved array: a number
    that is not finite and an [undefined] array element are written [null], a
    property whose value is [undefined] is left out. *)
Fixpoint to_json (v : jsval) : jsval :=
  match v with
  | VUndef => VNull
  | VNull => VNull
  | VBool b => VBool b
  | VNum n => if is_finite n then VNum n else VNull
  | VStr s => VStr s
  | VArr l => VArr (map to_json l)
  | VObj props =>
      VObj ((fix props_json (ps : list (jsstring * jsval)) :=
               match ps with
               | [] => []
               | (k, VUndef) :: rest => props_json rest
               | (k, x) :: rest => (k, to_json x) :: props_json rest
               end) props)
  end.

(** [String.prototype.trim] strips the white space and the line terminators
    of the language: U+0009 to U+000D, U+0020, U+00A0, U+1680, U+2000 to
    U+200A, U+2028, U+2029, U+202F, U+205F, U+3000 and U+FEFF. *)
Definition is_space (c : N) : bool :=
  (N.leb 9 c && N.leb c 13 || N.eqb c 32 || N.eqb c 160 || N.eqb c 5760
   || N.leb 8192 c && N.leb c 8202 || N.eqb c 8232 || N.eqb c 8233
   || N.eqb c 8239 || N.eqb c 8287 || N.eqb c 12288 || N.eqb c 65279)%bool.

Fixpoint trim_start (s : jsstring) : jsstring :=
  match s with
  | [] => []
  | c :: rest => if is_space c then trim_start rest else s
  end.

Definition trim (s : jsstring) : jsstring :=
  rev (trim_start (rev (trim_start s))).

(** ** The physics world, as far as the code drives it *)

Record quat : Type := Quat { qx : jsnum; qy : jsnum; qz : jsnum; qw : jsnum }.

Definition quat_id : quat :=
  Quat (num_of_Z 0) (num_of_Z 0) (num_of_Z 0) (num_of_Z 1).

(** Which [createCollider] call made a collider: the ground slab of [init]
    and of the floor branch of [onPlaneAdded], the slab of a vertical plane,
    the box of a rigid body. *)
Inductive collider_kind : Type := FloorSlab | WallSlab | BodyBox.

Definition is_floor (k : collider_kind) : bool :=
  match k with FloorSlab => true | _ => false end.

Record collider : Type := Collider {
  chandle : nat;
  ckind : collider_kind;
  chalf : vec3;                 (* cuboid half extents *)
  ctrans : vec3;                (* setTranslation *)
  crot : quat;                  (* setRotation *)
  cfriction : option jsnum;     (* setFriction, when called *)
  cparent : option nat          (* the rigid body it is attached to *)
}.

Record body : Type := Body {
  bhandle : nat;
  bfixed : bool;                (* RigidBodyDesc.fixed() / dynamic() *)
  btrans : vec3;
  brot : quat;
  blinvel : vec3;
  bangvel : vec3
}.

(** The calls on the world and on the carried body whose effect belongs to
    the solver, in the order they are made (latest first). *)
Inductive call : Type :=
| ApplyImpulse (impulse : vec3)
| ApplyTorqueImpulse (torque : vec3)
| Step (dt : jsnum).

Record world : Type := World {
  colliders : list collider;
  bodies : list body;
  timestep : jsnum;
  next_handle : nat;
  calls : list call
}.

Definition createCollider (w : world) (k : collider_kind) (half trans : vec3)
    (rot : quat) (fr : option jsnum) (parent : option nat) : world * nat :=
  let h := next_handle w in
  (World (colliders w ++ [Collider h k half trans rot fr parent]) (bodies w)
         (timestep w) (S h) (calls w), h).

Definition removeCollider (w : world) (h : nat) : world :=
  World (filter (fun c => negb (Nat.eqb (chandle c) h)) (colliders w))
        (bodies w) (timestep w) (next_handle w) (calls w).

Definition createRigidBody (w : world) (fixed : bool) (trans : vec3)
    (rot : quat) : world * nat :=
  let h := next_handle w in
  (World (colliders w) (bodies w ++ [Body h fixed trans rot vzero vzero])
         (timestep w) (S h) (calls w), h).

Definition find_body (w : world) (h : nat) : option body :=
  find (fun b => Nat.eqb (bhandle b) h) (bodies w).

Definition map_body (w : world) (h : nat) (f : body -> body) : world :=
  World (colliders w)
        (map (fun b => if Nat.eqb (bhandle b) h then f b else b) (bodies w))
        (timestep w) (next_handle w) (calls w).

Definition setTranslation (w : world) (h : nat) (t : vec3) : world :=
  map_body w h (fun b => Body (bhandle b) (bfixed b) t (brot b) (blinvel b) (bangvel b)).

Definition setLinvel (w : world) (h : nat) (v : vec3) : world :=
  map_body w h (fun b => Body (bhandle b) (bfixed b) (btrans b) (brot b) v (bangvel b)).

Definition setAngvel (w : world) (h : nat) (v : vec3) : world :=
  map_body w h (fun b => Body (bhandle b) (bfixed b) (btrans b) (brot b) (blinvel b) v).

Definition log_call (w : world) (c : call) : world :=
  World (colliders w) (bodies w) (timestep w) (next_handle w) (c :: calls w).

Definition set_timestep (w : world) (dt : jsnum) : world :=
  World (colliders w) (bodies w) dt (next_handle w) (calls w).

(** [rigidBody.translation()] and [rigidBody.rotation()]. *)
Definition translation (w : world) (h : nat) : vec3 :=
  match find_body w h with Some b => btrans b | None => vzero end.

Definition rotation (w : world) (h : nat) : quat :=
  match find_body w h with Some b => brot b | None => quat_id end.

Definition floor_colliders (w : world) : list collider :=
  filter (fun c => is_floor (ckind c)) (colliders w).

(** ** Notes and the state of the system *)

(** A note object. [nref] is its identity; the meshes and the label text are
    left out, [nlabel] is [root.visible] and [nscale] is [torus.scale]. *)
Record note : Type := Note {
  nref : nat;
  nid : jsval;
  ncontent : jsstring;
  npos : vec3;                  (* group.position *)
  nlabel : bool;
  nscale : vec3
}.

(** The four meshes of a marker that are pushed on [_notePickables]; each
    holds its note in [userData.note]. *)
Inductive part : Type := Sphere | Torus | Bar | Dot.

Record pickable : Type := Pickable { ppart : part; pnote : nat }.

(** The text stored under the key, by what [JSON.parse] makes of it: the
    empty text, a text it rejects, a text it parses to a value. *)
Inductive raw : Type :=
| RawEmpty
| RawBad
| RawJson (v : jsval).

Inductive scene_obj : Type :=
| NoteGroup (ref : nat)
| ConfirmAnchor (ref : nat)
| PlacedModel (ref : nat).

Definition scene_obj_eqb (a b : scene_obj) : bool :=
  match a, b with
  | NoteGroup x, NoteGroup y
  | ConfirmAnchor x, ConfirmAnchor y
  | PlacedModel x, PlacedModel y => Nat.eqb x y
  | _, _ => false
  end.

(** The closure [onFrame] of [_openDeleteConfirm]: the note and the anchor
    it has captured. *)
Record confirm_loop : Type := ConfirmLoop { cl_note : nat; cl_anchor : nat }.

Record sys : Type := Sys {
  rapier : bool;                          (* this.RAPIER is loaded *)
  cube : bool;                            (* this.cube, this.floor, this.targetMarker exist *)
  _notes : list note;                      (* this._notes *)
  _notePickables : list pickable;          (* this._notePickables *)
  _hoveredNote : option nat;               (* this._hoveredNote *)
  _activeNoteInput : option nat;           (* this._activeNoteInput, and the note it edits *)
  _activeConfirm3D : option nat;           (* this._activeConfirm3D, the dialog's anchor *)
  _confirmLoop : option confirm_loop;      (* this._confirmLoop *)
  _notesLoaded : bool;                     (* this._notesLoaded *)
  storage : option raw;                   (* localStorage, key chairs-etc:notes *)
  next_ref : nat;                         (* the next object reference *)
  scene : list scene_obj;                 (* children of globals.scene made here *)
  pworld : world;                         (* this.rapierWorld *)
  floorCollider : nat;                    (* this.floorCollider *)
  rigidBody : nat;                        (* this.rigidBody *)
  floor_y : jsnum;                        (* this.floor.position.y *)
  cube_pos : vec3;                        (* this.cube.position *)
  cube_quat : quat;                       (* this.cube.quaternion *)
  furnitureModel : option nat;            (* this.cube.userData.furnitureModel *)
  _furnitureLoading : bool;                (* this._furnitureLoading *)
  marker_visible : bool;                  (* this.targetMarker.visible *)
  marker_pos : vec3                       (* this.targetMarker.position *)
}.

Definition set_rapier (s : sys) (x : bool) : sys :=
  Sys x (cube s) (_notes s) (_notePickables s) (_hoveredNote s) (_activeNoteInput
      s) (_activeConfirm3D s) (_confirmLoop s) (_notesLoaded s) (storage s)
      (next_ref s) (scene s) (pworld s) (floorCollider s) (rigidBody s)
      (floor_y s) (cube_pos s) (cube_quat s) (furnitureModel s)
      (_furnitureLoading s) (marker_visible s) (marker_pos s).

Definition set_cube (s : sys) (x : bool) : sys :=
  Sys (rapier s) x (_notes s) (_notePickables s) (_hoveredNote s)
      (_activeNoteInput s) (_activeConfirm3D s) (_confirmLoop s) (_notesLoaded s)
      (storage s) (next_ref s) (scene s) (pworld s) (floorCollider s)
      (rigidBody s) (floor_y s) (cube_pos s) (cube_quat s) (furnitureModel s)
      (_furnitureLoading s) (marker_visible s) (marker_pos s).

Definition set_notes (s : sys) (x : list note) : sys :=
  Sys (rapier s) (cube s) x (_notePickables s) (_hoveredNote s) (_activeNoteInput
      s) (_activeConfirm3D s) (_confirmLoop s) (_notesLoaded s) (storage s)
      (next_ref s) (scene s) (pworld s) (floorCollider s) (rigidBody s)
      (floor_y s) (cube_pos s) (cube_quat s) (furnitureModel s)
      (_furnitureLoading s) (marker_visible s) (marker_pos s).

Definition set_notePickables (s : sys) (x : list pickable) : sys :=
  Sys (rapier s) (cube s) (_notes s) x (_hoveredNote s) (_activeNoteInput s)
      (_activeConfirm3D s) (_confirmLoop s) (_notesLoaded s) (storage s)
      (next_ref s) (scene s) (pworld s) (floorCollider s) (rigidBody s)
      (floor_y s) (cube_pos s) (cube_quat s) (furnitureModel s)
      (_furnitureLoading s) (marker_visible s) (marker_pos s).

Definition set_hoveredNote (s : sys) (x : option nat) : sys :=
  Sys (rapier s) (cube s) (_notes s) (_notePickables s) x (_activeNoteInput s)
      (_activeConfirm3D s) (_confirmLoop s) (_notesLoaded s) (storage s)
      (next_ref s) (scene s) (pworld s) (floorCollider s) (rigidBody s)
      (floor_y s) (cube_pos s) (cube_quat s) (furnitureModel s)
      (_furnitureLoading s) (marker_visible s) (marker_pos s).

Definition set_activeNoteInput (s : sys) (x : option nat) : sys :=
  Sys (rapier s) (cube s) (_notes s) (_notePickables s) (_hoveredNote s) x
      (_activeConfirm3D s) (_confirmLoop s) (_notesLoaded s) (storage s)
      (next_ref s) (scene s) (pworld s) (floorCollider s) (rigidBody s)
      (floor_y s) (cube_pos s) (cube_quat s) (furnitureModel s)
      (_furnitureLoading s) (marker_visible s) (marker_pos s).

Definition set_activeConfirm3D (s : sys) (x : option nat) : sys :=
  Sys (rapier s) (cube s) (_notes s) (_notePickables s) (_hoveredNote s)
      (_activeNoteInput s) x (_confirmLoop s) (_notesLoaded s) (storage s)
      (next_ref s) (scene s) (pworld s) (floorCollider s) (rigidBody s)
      (floor_y s) (cube_pos s) (cube_quat s) (furnitureModel s)
      (_furnitureLoading s) (marker_visible s) (marker_pos s).

Definition set_confirmLoop (s : sys) (x : option confirm_loop) : sys :=
  Sys (rapier s) (cube s) (_notes s) (_notePickables s) (_hoveredNote s)
      (_activeNoteInput s) (_activeConfirm3D s) x (_notesLoaded s) (storage s)
      (next_ref s) (scene s) (pworld s) (floorCollider s) (rigidBody s)
      (floor_y s) (cube_pos s) (cube_quat s) (furnitureModel s)
      (_furnitureLoading s) (marker_visible s) (marker_pos s).

Definition set_notesLoaded (s : sys) (x : bool) : sys :=
  Sys (rapier s) (cube s) (_notes s) (_notePickables s) (_hoveredNote s)
      (_activeNoteInput s) (_activeConfirm3D s) (_confirmLoop s) x (storage s)
      (next_ref s) (scene s) (pworld s) (floorCollider s) (rigidBody s)
      (floor_y s) (cube_pos s) (cube_quat s) (furnitureModel s)
      (_furnitureLoading s) (marker_visible s) (marker_pos s).

Definition set_storage (s : sys) (x : option raw) : sys :=
  Sys (rapier s) (cube s) (_notes s) (_notePickables s) (_hoveredNote s)
      (_activeNoteInput s) (_activeConfirm3D s) (_confirmLoop s) (_notesLoaded s)
      x (next_ref s) (scene s) (pworld s) (floorCollider s) (rigidBody s)
      (floor_y s) (cube_pos s) (cube_quat s) (furnitureModel s)
      (_furnitureLoading s) (marker_visible s) (marker_pos s).

Definition set_next_ref (s : sys) (x : nat) : sys :=
  Sys (rapier s) (cube s) (_notes s) (_notePickables s) (_hoveredNote s)
      (_activeNoteInput s) (_activeConfirm3D s) (_confirmLoop s) (_notesLoaded s)
      (storage s) x (scene s) (pworld s) (floorCollider s) (rigidBody s)
      (floor_y s) (cube_pos s) (cube_quat s) (furnitureModel s)
      (_furnitureLoading s) (marker_visible s) (marker_pos s).

Definition set_scene (s : sys) (x : list scene_obj) : sys :=
  Sys (rapier s) (cube s) (_notes s) (_notePickables s) (_hoveredNote s)
      (_activeNoteInput s) (_activeConfirm3D s) (_confirmLoop s) (_notesLoaded s)
      (storage s) (next_ref s) x (pworld s) (floorCollider s) (rigidBody s)
      (floor_y s) (cube_pos s) (cube_quat s) (furnitureModel s)
      (_furnitureLoading s) (marker_visible s) (marker_pos s).

Definition set_pworld (s : sys) (x : world) : sys :=
  Sys (rapier s) (cube s) (_notes s) (_notePickables s) (_hoveredNote s)
      (_activeNoteInput s) (_activeConfirm3D s) (_confirmLoop s) (_notesLoaded s)
      (storage s) (next_ref s) (scene s) x (floorCollider s) (rigidBody s)
      (floor_y s) (cube_pos s) (cube_quat s) (furnitureModel s)
      (_furnitureLoading s) (marker_visible s) (marker_pos s).

Definition set_floorCollider (s : sys) (x : nat) : sys :=
  Sys (rapier s) (cube s) (_notes s) (_notePickables s) (_hoveredNote s)
      (_activeNoteInput s) (_activeConfirm3D s) (_confirmLoop s) (_notesLoaded s)
      (storage s) (next_ref s) (scene s) (pworld s) x (rigidBody s) (floor_y
      s) (cube_pos s) (cube_quat s) (furnitureModel s) (_furnitureLoading s)
      (marker_visible s) (marker_pos s).

Definition set_rigidBody (s : sys) (x : nat) : sys :=
  Sys (rapier s) (cube s) (_notes s) (_notePickables s) (_hoveredNote s)
      (_activeNoteInput s) (_activeConfirm3D s) (_confirmLoop s) (_notesLoaded s)
      (storage s) (next_ref s) (scene s) (pworld s) (floorCollider s) x
      (floor_y s) (cube_pos s) (cube_quat s) (furnitureModel s)
      (_furnitureLoading s) (marker_visible s) (marker_pos s).

Definition set_floor_y (s : sys) (x : jsnum) : sys :=
  Sys (rapier s) (cube s) (_notes s) (_notePickables s) (_hoveredNote s)
      (_activeNoteInput s) (_activeConfirm3D s) (_confirmLoop s) (_notesLoaded s)
      (storage s) (next_ref s) (scene s) (pworld s) (floorCollider s)
      (rigidBody s) x (cube_pos s) (cube_quat s) (furnitureModel s)
      (_furnitureLoading s) (marker_visible s) (marker_pos s).

Definition set_cube_pos (s : sys) (x : vec3) : sys :=
  Sys (rapier s) (cube s) (_notes s) (_notePickables s) (_hoveredNote s)
      (_activeNoteInput s) (_activeConfirm3D s) (_confirmLoop s) (_notesLoaded s)
      (storage s) (next_ref s) (scene s) (pworld s) (floorCollider s)
      (rigidBody s) (floor_y s) x (cube_quat s) (furnitureModel s)
      (_furnitureLoading s) (marker_visible s) (marker_pos s).

Definition set_cube_quat (s : sys) (x : quat) : sys :=
  Sys (rapier s) (cube s) (_notes s) (_notePickables s) (_hoveredNote s)
      (_activeNoteInput s) (_activeConfirm3D s) (_confirmLoop s) (_notesLoaded s)
      (storage s) (next_ref s) (scene s) (pworld s) (floorCollider s)
      (rigidBody s) (floor_y s) (cube_pos s) x (furnitureModel s)
      (_furnitureLoading s) (marker_visible s) (marker_pos s).

Definition set_furnitureModel (s : sys) (x : option nat) : sys :=
  Sys (rapier s) (cube s) (_notes s) (_notePickables s) (_hoveredNote s)
      (_activeNoteInput s) (_activeConfirm3D s) (_confirmLoop s) (_notesLoaded s)
      (storage s) (next_ref s) (scene s) (pworld s) (floorCollider s)
      (rigidBody s) (floor_y s) (cube_pos s) (cube_quat s) x (_furnitureLoading
      s) (marker_visible s) (marker_pos s).

Definition set_furnitureLoading (s : sys) (x : bool) : sys :=
  Sys (rapier s) (cube s) (_notes s) (_notePickables s) (_hoveredNote s)
      (_activeNoteInput s) (_activeConfirm3D s) (_confirmLoop s) (_notesLoaded s)
      (storage s) (next_ref s) (scene s) (pworld s) (floorCollider s)
      (rigidBody s) (floor_y s) (cube_pos s) (cube_quat s) (furnitureModel s)
      x (marker_visible s) (marker_pos s).

Definition set_marker_visible (s : sys) (x : bool) : sys :=
  Sys (rapier s) (cube s) (_notes s) (_notePickables s) (_hoveredNote s)
      (_activeNoteInput s) (_activeConfirm3D s) (_confirmLoop s) (_notesLoaded s)
      (storage s) (next_ref s) (scene s) (pworld s) (floorCollider s)
      (rigidBody s) (floor_y s) (cube_pos s) (cube_quat s) (furnitureModel s)
      (_furnitureLoading s) x (marker_pos s).

Definition set_marker_pos (s : sys) (x : vec3) : sys :=
  Sys (rapier s) (cube s) (_notes s) (_notePickables s) (_hoveredNote s)
      (_activeNoteInput s) (_activeConfirm3D s) (_confirmLoop s) (_notesLoaded s)
      (storage s) (next_ref s) (scene s) (pworld s) (floorCollider s)
      (rigidBody s) (floor_y s) (cube_pos s) (cube_quat s) (furnitureModel s)
      (_furnitureLoading s) (marker_visible s) x.

(** Two numbers are the same number: the same rational when finite. *)
Definition same_num (a b : jsnum) : bool :=
  match a, b with
  | Fin x, Fin y => Qeq_bool x y
  | NaN, NaN | PosInf, PosInf | NegInf, NegInf => true
  | _, _ => false
  end.

Definition same_vec (a b : vec3) : bool :=
  (same_num (vx a) (vx b) && same_num (vy a) (vy b) && same_num (vz a) (vz b))%bool.

Definition finite_vec (a : vec3) : bool :=
  (is_finite (vx a) && is_finite (vy a) && is_finite (vz a))%bool.

(** What the round trip through the store must keep of a note. *)
Definition same_note (n m : note) : Prop :=
  nid n = nid m /\ ncontent n = ncontent m /\ same_vec (npos n) (npos m) = true.

(** An id that survives the store: truthy, and written by JSON as it is. *)
Definition stable_id (v : jsval) : Prop := truthy v = true /\ to_json v = v.

(** ** What a frame receives from outside *)

(** [gamepadWrapper]: the four buttons the code queries and the thumbstick. *)
Record gamepad : Type := Gamepad {
  trigger_down : bool;          (* getButtonDown(XR_BUTTONS.TRIGGER) *)
  button1_click : bool;         (* getButtonClick(XR_BUTTONS.BUTTON_1) *)
  button2_click : bool;         (* getButtonClick(XR_BUTTONS.BUTTON_2) *)
  squeeze_click : bool;         (* getButtonClick(XR_BUTTONS.SQUEEZE) *)
  thumbstick_x : jsnum          (* getAxis(AXES.XR_STANDARD.THUMBSTICK_X) *)
}.

Record controller : Type := Controller {
  targetRaySpace : bool;
  gamepadWrapper : option gamepad
}.

Record frame : Type := Frame {
  delta : jsnum;
  right : option controller;    (* globals.controllers['right'] *)
  furnitureToSpawn : bool;      (* globals.furnitureToSpawn is set *)
  floor_hit : option vec3;      (* first hit of the ray on this.floor *)
  note_hit : option nat;        (* first hit on _notePickables, by index *)
  over_confirm : bool;          (* the ray is over the confirm button *)
  over_cancel : bool;           (* the ray is over the cancel button *)
  stamp : jsnum * jsnum         (* Date.now(), rounded random draw *)
}.

(** A plane handed to [ratk.onPlaneAdded]; [probe] is the first hit of the
    downward ray on its mesh. *)
Record plane : Type := Plane {
  orientation : string;
  semanticLabel : string;
  boundingRectangleWidth : jsnum;
  boundingRectangleHeight : jsnum;
  plane_position : vec3;
  plane_quaternion : quat;
  probe : option vec3
}.

(** How [update] ends: it returns, or a TypeError leaves it with the state
    reached so far. *)
Inductive outcome : Type :=
| Returned (s : sys)
| Thrown (s : sys).

Definition state_of (o : outcome) : sys :=
  match o with Returned s | Thrown s => s end.

Definition option_nat_eqb (a b : option nat) : bool :=
  match a, b with
  | None, None => true
  | Some x, Some y => Nat.eqb x y
  | _, _ => false
  end.

(** ** The furniture marker (the mesh under the carried object) *)

Inductive blending : Type := NormalBlending | AdditiveBlending.
Inductive side : Type := FrontSide | BackSide | DoubleSide.

Record material : Type := Material {
  vertexColors : bool;
  transparent : bool;
  opacity : jsnum;
  mat_blending : blending;
  mat_side : side
}.

(** A [BufferGeometry] with its index and its two attributes, each of item
    size 3. *)
Record geometry : Type := Geometry {
  g_index : list nat;
  g_position : list jsnum;
  g_color : list jsnum
}.

Record mesh : Type := Mesh { m_geometry : geometry; m_material : material }.

Definition marker_vertices : list jsnum :=
  let a := Fin (1 # 2)%Q in
  let b := Fin (- 1 # 2)%Q in
  let o := num_of_Z 0 in
  let t := Fin (2 # 10)%Q in
  (* Front face *)
  [b; o; a;  a; o; a;  b; t; a;  a; t; a;
  (* Right face *)
   a; o; a;  a; o; b;  a; t; a;  a; t; b;
  (* Back face *)
   a; o; b;  b; o; b;  a; t; b;  b; t; b;
  (* Left face *)
   b; o; b;  b; o; a;  b; t; b;  b; t; a].

Definition marker_indices : list nat :=
  [0; 1; 2; 1; 3; 2;            (* Front face *)
   4; 5; 6; 5; 7; 6;            (* Right face *)
   8; 9; 10; 9; 11; 10;         (* Back face *)
   12; 13; 14; 13; 15; 14].     (* Left face *)

(** Rounding to single precision, to nearest with ties to even, as a
    [Float32Array] stores a number. [floor_log2 n d] is the exponent of
    [n / d]: the largest [e] with [2 ^ e <= n / d]. *)
Definition floor_log2 (n d : positive) : Z :=
  let e := (Z.log2 (Zpos n) - Z.log2 (Zpos d))%Z in
  if (0 <=? e)%Z
  then if (Zpos d * 2 ^ e <=? Zpos n)%Z then e else (e - 1)%Z
  else if (Zpos d <=? Zpos n * 2 ^ (- e))%Z then e else (e - 1)%Z.

(** [a / b] rounded to the nearest integer, a tie to the even one. *)
Definition round_half_even (a b : Z) : Z :=
  let q := (a / b)%Z in
  match (2 * (a mod b) ?= b)%Z with
  | Lt => q
  | Gt => (q + 1)%Z
  | Eq => if Z.even q then q else (q + 1)%Z
  end.

(** 24 bits of significand, the least exponent of a unit in the last place
    -149, and 2 ^ 128 out of range. *)
Definition fround_pos (n d : positive) : jsnum :=
  let k := Z.max (floor_log2 n d - 23) (-149) in
  if (0 <=? k)%Z then
    let m := round_half_even (Zpos n) (Zpos d * 2 ^ k) in
    if (2 ^ 128 <=? m * 2 ^ k)%Z then PosInf else Fin (inject_Z (m * 2 ^ k))
  else
    let m := round_half_even (Zpos n * 2 ^ (- k)) (Zpos d) in
    Fin (Qred (m # Z.to_pos (2 ^ (- k)))%Q).

Definition fround (x : jsnum) : jsnum :=
  match x with
  | Fin q => match Qnum q with
             | Z0 => num_of_Z 0
             | Zpos n => fround_pos n (Qden q)
             | Zneg n => jneg (fround_pos n (Qden q))
             end
  | _ => x
  end.

(** [new Float32BufferAttribute(array, 3)]. *)
Definition Float32BufferAttribute (array : list jsnum) : list jsnum :=
  map fround array.

(** [createFurnitureMarker()]. *)
Definition createFurnitureMarker : mesh :=
  let colors := repeat (num_of_Z 1) (16 * 3) in
  Mesh (Geometry marker_indices (Float32BufferAttribute marker_vertices)
                 (Float32BufferAttribute colors))
       (Material true true (Fin (6 # 10)%Q) AdditiveBlending DoubleSide).

(** The triangles of an index list, three indices at a time. *)
Fixpoint triangles (l : list nat) : list (nat * nat * nat) :=
  match l with
  | a :: b :: c :: rest => (a, b, c) :: triangles rest
  | _ => []
  end.

(** The vertices of a position attribute, three components at a time. *)
Fixpoint vertices (l : list jsnum) : list vec3 :=
  match l with
  | x :: y :: z :: rest => Vec3 x y z :: vertices rest
  | _ => []
  end.

Definition proper_triangle (t : nat * nat * nat) : bool :=
  let '(a, b, c) := t in
  (negb (Nat.eqb a b) && negb (Nat.eqb b c) && negb (Nat.eqb a c))%bool.

(** The marker stands on the unit square around the origin, from height 0
    to the single-precision number nearest 0.2. *)
Definition marker_height : jsnum := Fin (13421773 # 67108864)%Q.

Definition on_marker_wall (v : vec3) : bool :=
  let half x := (same_num x (Fin (1 # 2)%Q) || same_num x (Fin (- 1 # 2)%Q))%bool in
  let low_or_high y := (same_num y (num_of_Z 0) || same_num y marker_height)%bool in
  (half (vx v) && low_or_high (vy v) && half (vz v))%bool.

(** ** What is outside the repository

    The two conversions between numbers and their decimal text, of the
    language: [Number.prototype.toString] and the StringToNumber operation
    applied by [Number(...)]. Whether [localStorage.setItem] throws (quota
    exceeded, storage disabled), given what the key holds and the value to be
    written. What [root.visible] is after the label surface's own
    [update(ms)], given the note and the milliseconds. The solver behind
    [world.step()], which gives the bodies their new state,
    [rigidBody.mass()], and [Vector3.length] and [Vector3.normalize], which
    take a square root. *)
Record env : Type := Env {
  NumberToString : jsnum -> jsstring;
  StringToNumber : jsstring -> jsnum;
  setItem_throws : option raw -> jsval -> bool;
  root_update : note -> jsnum -> bool;
  rapier_step : world -> list body;
  body_mass : world -> nat -> jsnum;
  vec_length : vec3 -> jsnum;
  vec_normalize : vec3 -> vec3
}.

(** ** An instance of the parameters, to run the embedding on examples

    [show_number] and [read_number] agree with the language on the integers
    and on strings of digits, which is all the examples below contain; the
    store takes every write; the label surface is visible after its update;
    the solver instance leaves every body where it is. *)
Definition show_number (n : jsnum) : jsstring :=
  match n with
  | Fin q =>
      if Pos.eqb (Qden q) 1
      then str ((if Z.ltb (Qnum q) 0 then "-" else "")
                ++ nat_to_string (Z.abs_nat (Qnum q)))%string
      else str (nat_to_string (Z.abs_nat (Qnum q)) ++ "/"
                ++ nat_to_string (Pos.to_nat (Qden q)))%string
  | NaN => str "NaN"
  | PosInf => str "Infinity"
  | NegInf => str "-Infinity"
  end.

Fixpoint read_digits (s : jsstring) (acc : Z) : option Z :=
  match s with
  | [] => Some acc
  | c :: rest =>
      if (N.leb 48 c && N.leb c 57)%bool
      then read_digits rest (10 * acc + Z.of_N (c - 48))%Z
      else None
  end.

Definition read_number (s : jsstring) : jsnum :=
  match read_digits s 0%Z with
  | Some z => num_of_Z z
  | None => NaN
  end.

Definition never_throws (old : option raw) (v : jsval) : bool := false.

Definition shows_root (n : note) (ms : jsnum) : bool := true.

Definition rest_step (w : world) : list body := bodies w.

Definition unit_mass (w : world) (h : nat) : jsnum := num_of_Z 1.

(** |x| + |y| + |z|, in place of the Euclidean length. *)
Definition num_abs (a : jsnum) : jsnum :=
  match a with
  | Fin q => Fin (Qabs.Qabs q)
  | NaN => NaN
  | PosInf | NegInf => PosInf
  end.

Definition taxi_length (v : vec3) : jsnum :=
  jadd (num_abs (vx v)) (jadd (num_abs (vy v)) (num_abs (vz v))).

Definition keep_direction (v : vec3) : vec3 := v.

Definition std : env :=
  Env show_number read_number never_throws shows_root rest_step unit_mass
      taxi_length keep_direction.

(** The same, with a store that refuses every write. *)
Definition always_throws (old : option raw) (v : jsval) : bool := true.

Definition full_store : env :=
  Env show_number read_number always_throws shows_root rest_step unit_mass
      taxi_length keep_direction.

(** ** Inputs of the worked examples *)

Definition pad (b1 b2 squeeze : bool) : gamepad :=
  Gamepad false b1 b2 squeeze (num_of_Z 0).

(** A frame of 16 ms at clock [t] with the right controller aiming: [hit]
    is the pickable under the ray, [confirm] tells whether the ray is over
    the confirm button; the ray misses the floor. *)
Definition aim (t : Z) (g : gamepad) (hit : option nat) (confirm : bool) : frame :=
  Frame (Fin (16 # 1000)%Q) (Some (Controller true (Some g))) false None hit
        confirm false (num_of_Z t, num_of_Z 7).

Definition no_controller : frame :=
  Frame (Fin (16 # 1000)%Q) None false None None false false
        (num_of_Z 1000, num_of_Z 7).

Definition clock (i : nat) : jsnum * jsnum :=
  (num_of_Z (1000 + Z.of_nat i), num_of_Z 7).

(** A plane reported as vertical and labelled floor, which the downward
    probe would hit at height 1.2. *)
Definition upright_floor : plane :=
  Plane "vertical" "floor" (num_of_Z 2) (num_of_Z 3) vzero quat_id
        (Some (Vec3 (num_of_Z 0) (Fin (12 # 10)%Q) (num_of_Z 0))).

(** A floor plane at height 1.2. *)
Definition raised_floor : plane :=
  Plane "horizontal" "floor" (num_of_Z 4) (num_of_Z 4) vzero quat_id
        (Some (Vec3 (num_of_Z 0) (Fin (12 # 10)%Q) (num_of_Z 0))).

(** Half a turn about the vertical axis. *)
Definition half_turn : quat :=
  Quat (num_of_Z 0) (num_of_Z 1) (num_of_Z 0) (num_of_Z 0).

(** The store of the spec's round-trip example, and an array with elements
    of every kind. *)
Definition mixed_store : list jsval :=
  [VObj [(str "id", VStr (str "a1")); (str "content", VStr (str "buy lamp"));
         (str "position",
          VArr [VNum (num_of_Z 1); VNum (num_of_Z 0); VNum (num_of_Z 1)])];
   VNull;
   VObj [(str "content", VNum (num_of_Z 5));
         (str "position", VArr [VStr (str "x"); VBool true])];
   VStr (str "stray")].

(** A frame of 16 ms at clock [t] in which the ray hits the floor at [p]
    and no note. *)
Definition aim_at (t : Z) (g : gamepad) (p : vec3) : frame :=
  Frame (Fin (16 # 1000)%Q) (Some (Controller true (Some g))) false (Some p) None
        false false (num_of_Z t, num_of_Z 7).

(** An object that has a property named toString, which [JSON.parse] makes
    of the text [{"toString":1}]. *)
Definition unprintable : jsval := VObj [(str "toString", VNum (num_of_Z 1))].

(** A stored array whose second element has such an object as content. *)
Definition broken_store : list jsval :=
  [VObj [(str "id", VStr (str "a1")); (str "content", VStr (str "one"))];
   VObj [(str "id", VStr (str "a2")); (str "content", unprintable)];
   VObj [(str "id", VStr (str "a3")); (str "content", VStr (str "three"))]].

(** A stored array of one element whose id and first position component
    are infinite, as [JSON.parse] reads the numeral [1e999]. *)
Definition overflow_store : list jsval :=
  [VObj [(str "id", VNum PosInf); (str "content", VStr (str "far"));
         (str "position", VArr [VNum PosInf; VNum (num_of_Z 0); VNum (num_of_Z 0)])]].

Section Furniture.

Variable ext : env.

Local Notation NumberToString := (NumberToString ext).
Local Notation StringToNumber := (StringToNumber ext).
Local Notation setItem_throws := (setItem_throws ext).
Local Notation root_update := (root_update ext).
Local Notation rapier_step := (rapier_step ext).
Local Notation body_mass := (body_mass ext).
Local Notation vec_length := (vec_length ext).
Local Notation vec_normalize := (vec_normalize ext).

(** [String(v)]; [None] is a TypeError. An object is converted by the
    [toString] it has: a value of the store is never callable, so an own
    property of that name leaves no way to a primitive, and without one
    [Object.prototype.toString] answers. An array is joined, [undefined]
    and [null] elements as the empty string. *)
Fixpoint to_string (v : jsval) : option jsstring :=
  match v with
  | VUndef => Some (str "undefined")
  | VNull => Some (str "null")
  | VBool true => Some (str "true")
  | VBool false => Some (str "false")
  | VNum n => Some (NumberToString n)
  | VStr s => Some s
  | VArr l =>
      (fix join (xs : list jsval) : option jsstring :=
         match xs with
         | [] => Some []
         | x :: rest =>
             match (match x with
                    | VUndef | VNull => Some []
                    | _ => to_string x
                    end) with
             | None => None
             | Some here =>
                 match rest with
                 | [] => Some here
                 | _ => match join rest with
                        | None => None
                        | Some there => Some (here ++ str "," ++ there)
                        end
                 end
             end
         end) l
  | VObj props =>
      if has_key (str "toString") props then None
      else Some (str "[object Object]")
  end.

(** [Number(v)]; [None] is a TypeError. An object without a [toString] of
    its own goes through the text [[object Object]], which is no number. *)
Definition to_number (v : jsval) : option jsnum :=
  match v with
  | VUndef => Some NaN
  | VNull => Some (num_of_Z 0)
  | VBool true => Some (num_of_Z 1)
  | VBool false => Some (num_of_Z 0)
  | VNum n => Some n
  | VStr s => Some (StringToNumber s)
  | VArr _ => option_map StringToNumber (to_string v)
  | VObj props => if has_key (str "toString") props then None else Some NaN
  end.

(** [Number(v) || 0]. *)
Definition number_or_zero (v : jsval) : option jsnum :=
  option_map (fun n => if num_truthy n then n else num_of_Z 0) (to_number v).

(** ** The note collection *)

(** One element of the array [_saveNotesToStorage] builds. *)
Definition note_data (n : note) : jsval :=
  VObj [(str "id", nid n);
        (str "content", VStr (ncontent n));
        (str "position",
         VArr [VNum (vx (npos n)); VNum (vy (npos n)); VNum (vz (npos n))])].

Definition notes_data (ns : list note) : jsval := VArr (map note_data ns).

(** [localStorage.setItem(key, JSON.stringify(data))] inside the [try] of
    [_saveNotesToStorage]: the key then holds a text that parses to
    [to_json] of the data, or, when the call throws, what it held. *)
Definition setItem (old : option raw) (data : jsval) : option raw :=
  if setItem_throws old (to_json data) then old
  else Some (RawJson (to_json data)).

(** [_saveNotesToStorage]. *)
Definition _saveNotesToStorage (s : sys) : sys :=
  set_storage s (setItem (storage s) (notes_data (_notes s))).

(** [_openNoteInput]: a previous editor is removed, a new one is shown. *)
Definition _openNoteInput (s : sys) (r : nat) : sys :=
  set_activeNoteInput (set_activeNoteInput s None) (Some r).

(** The template literal of [createNoteMarker], from [Date.now()] and
    [Math.round(Math.random() * 1e6)]. *)
Definition fresh_id (stamp : jsnum * jsnum) : jsval :=
  VStr (NumberToString (fst stamp) ++ str "-" ++ NumberToString (snd stamp)).

(** [content || ''] on a string. *)
Definition str_or (a b : jsstring) : jsstring :=
  match a with [] => b | _ :: _ => a end.

Definition scale_normal : vec3 :=
  Vec3 (num_of_Z 1) (num_of_Z 1) (num_of_Z 1).

Definition scale_hover : vec3 :=
  Vec3 (Fin (115 # 100)%Q) (Fin (115 # 100)%Q) (Fin (115 # 100)%Q).

Definition note_pickables (r : nat) : list pickable :=
  [Pickable Sphere r; Pickable Torus r; Pickable Bar r; Pickable Dot r].

(** [createNoteMarker(position, content, openInput, id)]; [id] is [VUndef]
    when the caller leaves it out. *)
Definition createNoteMarker (s : sys) (position : vec3) (content : jsstring)
    (openInput : bool) (id : jsval) (stamp : jsnum * jsnum) : sys :=
  let r := next_ref s in
  let n := Note r (js_or id (fresh_id stamp)) (str_or content (str "")) position
                false scale_normal in
  let s := set_next_ref s (S r) in
  let s := set_scene s (scene s ++ [NoteGroup r]) in
  let s := set_notePickables s (_notePickables s ++ note_pickables r) in
  let s := set_notes s (_notes s ++ [n]) in
  let s := _saveNotesToStorage s in
  if openInput then _openNoteInput s r else s.

Definition scene_remove (sc : list scene_obj) (o : scene_obj) : list scene_obj :=
  filter (fun x => negb (scene_obj_eqb x o)) sc.

(** [_removeNote(note)]; [None] is a [null] note. *)
Definition _removeNote (s : sys) (note : option nat) : sys :=
  match note with
  | None => s
  | Some r =>
      let s := set_scene s (scene_remove (scene s) (NoteGroup r)) in
      let s := set_notePickables s
                 (filter (fun o => negb (Nat.eqb (pnote o) r)) (_notePickables s)) in
      let s := set_notes s (filter (fun n => negb (Nat.eqb (nref n) r)) (_notes s)) in
      let s := set_hoveredNote s None in
      _saveNotesToStorage s
  end.

(** [_openDeleteConfirm(note)]: an open dialog is detached first; the new
    anchor goes in the scene and [onFrame] becomes the confirm loop. *)
Definition _openDeleteConfirm (s : sys) (r : nat) : sys :=
  let s := match _activeConfirm3D s with
           | Some a =>
               set_activeConfirm3D
                 (set_scene s (scene_remove (scene s) (ConfirmAnchor a))) None
           | None => s
           end in
  let a := next_ref s in
  let s := set_next_ref s (S a) in
  let s := set_scene s (scene s ++ [ConfirmAnchor a]) in
  let s := set_confirmLoop s (Some (ConfirmLoop r a)) in
  set_activeConfirm3D s (Some a).

(** [cleanup] of [_openDeleteConfirm]. *)
Definition cleanup (s : sys) (cl : confirm_loop) : sys :=
  let s := set_scene s (scene_remove (scene s) (ConfirmAnchor (cl_anchor cl))) in
  let s := set_activeConfirm3D s None in
  set_confirmLoop s None.

(** The position and the content [_loadNotesFromStorage] reads from an
    element, lines 605-610; [None] when a conversion throws. *)
Definition item_position (item : jsval) : option vec3 :=
  let p := get_prop item (str "position") in
  match number_or_zero (get_index p 0) with
  | None => None
  | Some x =>
      match number_or_zero (get_index p 1) with
      | None => None
      | Some y =>
          match number_or_zero (get_index p 2) with
          | None => None
          | Some z => Some (Vec3 x y z)
          end
      end
  end.

Definition item_content (item : jsval) : option jsstring :=
  to_string (js_or (get_prop item (str "content")) (VStr (str ""))).

(** The loop of lines 604-611 inside the [try] of line 599: an element
    whose conversion throws ends the loop, the [catch] of line 612 logs, and
    the notes made of the elements before it stay. *)
Fixpoint load_items (s : sys) (arr : list jsval) (i : nat)
    (stamps : nat -> jsnum * jsnum) : sys :=
  match arr with
  | [] => s
  | item :: rest =>
      match item_position item, item_content item with
      | Some pos, Some content =>
          load_items
            (createNoteMarker s pos content false (get_prop item (str "id"))
               (stamps i))
            rest (S i) stamps
      | _, _ => s
      end
  end.

(** [_loadNotesFromStorage]; [stamps i] is the clock and the random draw at
    the [i]-th element. *)
Definition _loadNotesFromStorage (s : sys) (stamps : nat -> jsnum * jsnum) : sys :=
  match storage s with
  | None => s
  | Some RawEmpty => s
  | Some RawBad => s
  | Some (RawJson (VArr arr)) => load_items s arr 0 stamps
  | Some (RawJson _) => s
  end.

(** The three buttons of the editor opened by [_openNoteInput]. *)
Definition set_content (r : nat) (c : jsstring) (ns : list note) : list note :=
  map (fun n => if Nat.eqb (nref n) r
                then Note (nref n) (nid n) c (npos n) (nlabel n) (nscale n)
                else n) ns.

Definition editor_save (s : sys) (input : jsstring) : sys :=
  match _activeNoteInput s with
  | None => s
  | Some r =>
      let s := set_notes s (set_content r (trim input) (_notes s)) in
      let s := _saveNotesToStorage s in
      set_activeNoteInput s None
  end.

Definition editor_cancel (s : sys) : sys := set_activeNoteInput s None.

Definition editor_remove (s : sys) : sys :=
  match _activeNoteInput s with
  | None => s
  | Some r => set_activeNoteInput (_removeNote s (Some r)) None
  end.

(** ** The world and the carried body *)

Definition world_step (w : world) : world :=
  World (colliders w) (rapier_step w) (timestep w) (next_handle w)
        (Step (timestep w) :: calls w).

Definition vec_sub (a b : vec3) : vec3 :=
  Vec3 (jadd (vx a) (jneg (vx b))) (jadd (vy a) (jneg (vy b)))
       (jadd (vz a) (jneg (vz b))).

Definition vec_scale (a : vec3) (k : jsnum) : vec3 :=
  Vec3 (jmul (vx a) k) (jmul (vy a) k) (jmul (vz a) k).

Definition spawn : vec3 := Vec3 (num_of_Z 0) (num_of_Z 3) (num_of_Z 0).

Definition slab : vec3 := Vec3 (num_of_Z 10) (num_of_Z 0) (num_of_Z 10).

Definition box : vec3 := Vec3 (Fin (1 # 2)%Q) (Fin (1 # 2)%Q) (Fin (1 # 2)%Q).

Definition empty_world : world := World [] [] (num_of_Z 0) 0 [].

(** The state [init()] leaves, before the physics module has loaded. *)
Definition init (stored : option raw) : sys :=
  Sys false false [] [] None None None None false stored 0 [] empty_world 0 0
      (num_of_Z 0) vzero quat_id None false false vzero.

(** The continuation of [import('@dimforge/rapier3d')] in [init()]. *)
Definition on_rapier_loaded (s : sys) : sys :=
  let w := World [] [] (num_of_Z 0) 0 [] in
  let '(w, fc) := createCollider w FloorSlab slab vzero quat_id
                    (Some (Fin (1 # 2)%Q)) None in
  let '(w, rb) := createRigidBody w false spawn quat_id in
  let '(w, _) := createCollider w BodyBox box vzero quat_id
                   (Some (num_of_Z 0)) (Some rb) in
  set_rapier (set_rigidBody (set_floorCollider (set_pworld s w) fc) rb) true.

(** The callback [update] stores in [ratk.onPlaneAdded]. *)
Definition onPlaneAdded (s : sys) (pl : plane) : sys :=
  if String.eqb (orientation pl) "vertical" then
    let '(w, _) := createCollider (pworld s) WallSlab
                     (Vec3 (boundingRectangleWidth pl) (num_of_Z 0)
                           (boundingRectangleHeight pl))
                     (plane_position pl) (plane_quaternion pl) None None in
    set_pworld s w
  else if String.eqb (semanticLabel pl) "floor" then
    match probe pl with
    | None => s
    | Some intersect =>
        let w := removeCollider (pworld s) (floorCollider s) in
        let '(w, fc) := createCollider w FloorSlab slab
                          (Vec3 (num_of_Z 0) (vy intersect) (num_of_Z 0))
                          quat_id (Some (Fin (1 # 2)%Q)) None in
        let s := set_floorCollider (set_pworld s w) fc in
        let s := set_floor_y s (vy intersect) in
        set_pworld s
          (setTranslation (pworld s) (rigidBody s)
             (Vec3 (num_of_Z 0) (jadd (vy intersect) (num_of_Z 3)) (num_of_Z 0)))
    end
  else s.

(** The plane collaborator calls the callback once [update] has stored it. *)
Definition plane_added (s : sys) (pl : plane) : sys :=
  if cube s then onPlaneAdded s pl else s.

(** [finalizeFurniturePosition]. *)
Definition finalizeFurniturePosition (s : sys) : sys :=
  match furnitureModel s with
  | None => s
  | Some m =>
      let s := set_scene s (scene s ++ [PlacedModel m]) in
      let s := set_furnitureModel s None in
      let t := translation (pworld s) (rigidBody s) in
      let '(w, fixed) := createRigidBody (pworld s) true t
                           (rotation (pworld s) (rigidBody s)) in
      let '(w, _) := createCollider w BodyBox box vzero quat_id
                       (Some (Fin (1 # 2)%Q)) (Some fixed) in
      let w := setTranslation w (rigidBody s) spawn in
      let w := setLinvel w (rigidBody s) vzero in
      let w := setAngvel w (rigidBody s) vzero in
      set_pworld s w
  end.

(** The callback of [this._gltfLoader.load]. *)
Definition on_gltf_loaded (s : sys) : sys :=
  let m := next_ref s in
  set_furnitureLoading (set_furnitureModel (set_next_ref s (S m)) (Some m)) false.

(** ** The frame *)

(** First frame with the physics module: the carried group, the visual floor
    and the target marker are made, the plane callback is stored, and the
    persisted notes are loaded once. *)
Definition ensure_scene (s : sys) (stamps : nat -> jsnum * jsnum) : sys :=
  if cube s then s
  else
    let s := set_cube s true in
    let s := set_cube_quat (set_cube_pos s vzero) quat_id in
    let s := set_floor_y s (num_of_Z 0) in
    let s := set_marker_pos (set_marker_visible s true) vzero in
    if _notesLoaded s then s
    else set_notesLoaded (_loadNotesFromStorage s stamps) true.

Definition spawn_request (s : sys) (f : frame) : sys :=
  if furnitureToSpawn f then
    match furnitureModel s with
    | None => if _furnitureLoading s then s else set_furnitureLoading s true
    | Some _ => s
    end
  else s.

(** The note under the ray, lines 202-206. *)
Definition hover_target (s : sys) (f : frame) : option nat :=
  if Nat.eqb (List.length (_notePickables s)) 0 then None
  else match note_hit f with
       | Some i => match nth_error (_notePickables s) i with
                   | Some o => Some (pnote o)
                   | None => None
                   end
       | None => None
       end.

Definition set_scale (r : nat) (sc : vec3) (ns : list note) : list note :=
  map (fun n => if Nat.eqb (nref n) r
                then Note (nref n) (nid n) (ncontent n) (npos n) (nlabel n) sc
                else n) ns.

Definition set_label (r : nat) (b : bool) (ns : list note) : list note :=
  map (fun n => if Nat.eqb (nref n) r
                then Note (nref n) (nid n) (ncontent n) (npos n) b (nscale n)
                else n) ns.

Definition hide_labels (ns : list note) : list note :=
  map (fun n => Note (nref n) (nid n) (ncontent n) (npos n) false (nscale n)) ns.

(** Lines 207-217. *)
Definition hover_update (s : sys) (hovered : option nat) : sys :=
  if option_nat_eqb (_hoveredNote s) hovered then s
  else
    let ns := match _hoveredNote s with
              | Some r => set_scale r scale_normal (_notes s)
              | None => _notes s
              end in
    let ns := hide_labels ns in
    let ns := match hovered with
              | Some r => set_label r true (set_scale r scale_hover ns)
              | None => ns
              end in
    set_hoveredNote (set_notes s ns) hovered.

(** Lines 219-229, B (BUTTON_2). *)
Definition primary_button (s : sys) (g : option gamepad) (target : option vec3)
    (stamp : jsnum * jsnum) : sys :=
  match g with
  | Some g =>
      if button2_click g then
        match _hoveredNote s with
        | Some r => _openDeleteConfirm s r
        | None =>
            match _activeConfirm3D s with
            | Some _ => s
            | None =>
                let placement := match target with
                                 | Some t => t
                                 | None => cube_pos s
                                 end in
                createNoteMarker s placement (str "") true VUndef stamp
            end
        end
      else s
  | None => s
  end.

(** Lines 231-234, A (BUTTON_1). *)
Definition edit_button (s : sys) (g : option gamepad) : sys :=
  match _hoveredNote s, g with
  | Some r, Some g => if button1_click g then _openNoteInput s r else s
  | _, _ => s
  end.

(** Lines 236-239, SQUEEZE. *)
Definition squeeze_button (s : sys) (g : option gamepad) : sys :=
  match _hoveredNote s, g with
  | Some r, Some g => if squeeze_click g then _removeNote s (Some r) else s
  | _, _ => s
  end.

Definition arrival_epsilon : jsnum := Fin (1 # 100)%Q.
Definition speed : jsnum := Fin (1 # 10)%Q.
Definition maxRotationSpeed : jsnum := Fin (- 6 # 100)%Q.

(** Lines 241-262. *)
Definition drive_body (s : sys) (target : option vec3) : sys :=
  match target with
  | Some t =>
      let s := set_marker_pos (set_marker_visible s true) t in
      let position := translation (pworld s) (rigidBody s) in
      let dir := vec_sub t position in
      if jlt (vec_length dir) arrival_epsilon then
        set_pworld s (setLinvel (pworld s) (rigidBody s) vzero)
      else
        let velocity := vec_scale (vec_normalize dir) speed in
        let impulse := vec_scale velocity (body_mass (pworld s) (rigidBody s)) in
        set_pworld s (log_call (pworld s) (ApplyImpulse impulse))
  | None => set_marker_visible s false
  end.

(** Lines 264-288. *)
Definition rotate_and_step (s : sys) (g : gamepad) (dt : jsnum) : sys :=
  let torqueImpulse :=
    Vec3 (num_of_Z 0) (jmul (thumbstick_x g) maxRotationSpeed) (num_of_Z 0) in
  let w := log_call (pworld s) (ApplyTorqueImpulse torqueImpulse) in
  let w := world_step (set_timestep w dt) in
  let s := set_pworld s w in
  let s := set_cube_pos s (translation w (rigidBody s)) in
  let s := set_cube_quat s (rotation w (rigidBody s)) in
  if jlt (vy (cube_pos s)) (num_of_Z (-5))
  then set_pworld s (setTranslation (pworld s) (rigidBody s) spawn)
  else s.

(** [onFrame] of [_openDeleteConfirm], lines 546-566. *)
Definition confirm_onFrame (s : sys) (cl : confirm_loop) (f : frame) : sys :=
  match right f with
  | Some c =>
      if targetRaySpace c then
        match gamepadWrapper c with
        | Some g =>
            if button1_click g then
              if over_confirm f then cleanup (_removeNote s (Some (cl_note cl))) cl
              else if over_cancel f then cleanup s cl
              else s
            else s
        | None => s
        end
      else s
  | None => s
  end.

Definition run_confirm_loop (s : sys) (f : frame) : sys :=
  match _confirmLoop s with
  | Some cl => confirm_onFrame s cl f
  | None => s
  end.

(** Lines 290-297: the label surface of every note is updated with the
    milliseconds of the frame. (The billboard is turned to the camera; its
    orientation is not kept.) *)
Definition refresh_labels (s : sys) (dt : jsnum) : sys :=
  set_notes s
    (map (fun n => Note (nref n) (nid n) (ncontent n) (npos n)
                        (root_update n (jmul dt (num_of_Z 1000))) (nscale n))
         (_notes s)).

(** What [update] does once the right controller has a target ray space. *)
Definition with_controller (s : sys) (c : controller) (f : frame) : outcome :=
  let g := gamepadWrapper c in
  let s := match g with
           | Some g' => if trigger_down g' then finalizeFurniturePosition s else s
           | None => s
           end in
  let target := floor_hit f in
  let s := hover_update s (hover_target s f) in
  let s := primary_button s g target (stamp f) in
  let s := edit_button s g in
  let s := squeeze_button s g in
  let s := drive_body s target in
  match g with
  | None => Thrown s            (* controller.gamepadWrapper.getAxis *)
  | Some g' =>
      let s := rotate_and_step s g' (delta f) in
      let s := refresh_labels s (delta f) in
      Returned (run_confirm_loop s f)
  end.

(** [update(delta)]. *)
Definition update (s : sys) (f : frame) (stamps : nat -> jsnum * jsnum) : outcome :=
  if negb (rapier s) then Returned s
  else
    let s := ensure_scene s stamps in
    let s := spawn_request s f in
    match right f with
    | Some c =>
        if targetRaySpace c then with_controller s c f
        else Returned (set_marker_visible s false)
    | None => Returned (set_marker_visible s false)
    end.

(** * Notions used in the statements *)

(** ** Restoring the persisted notes *)

(** The notes [_loadNotesFromStorage] makes of the elements of an array, up
    to the first element whose conversion throws. *)
Fixpoint loaded_notes (r i : nat) (arr : list jsval)
    (stamps : nat -> jsnum * jsnum) : list note :=
  match arr with
  | [] => []
  | item :: rest =>
      match item_position item, item_content item with
      | Some pos, Some content =>
          Note r (js_or (get_prop item (str "id")) (fresh_id (stamps i)))
               (str_or content (str "")) pos false scale_normal
          :: loaded_notes (S r) (S i) rest stamps
      | _, _ => []
      end
  end.

(** *** What the claim on restoring says, in its own terms

    The property an element has under a name, the component of a stored
    position, the values that are no number and the values that count as
    false are spelled out here without the functions of the embedding. *)

(** [item] holds [v] under [name]: the first property of that name when
    [item] is an object that has one, [undefined] otherwise. *)
Inductive holds : jsval -> jsstring -> jsval -> Prop :=
| holds_property before name v after :
    (forall x, ~ In (name, x) before) ->
    holds (VObj (before ++ (name, v) :: after)) name v
| holds_nothing props name :
    (forall x, ~ In (name, x) props) -> holds (VObj props) name VUndef
| holds_no_object item name :
    (forall props, item <> VObj props) -> holds item name VUndef.

(** The component of a stored position at an index: the element of an
    array, [undefined] past its end and when no position is stored. *)
Inductive component : jsval -> nat -> jsval -> Prop :=
| component_at l i : component (VArr l) i (nth i l VUndef)
| component_of_undefined i : component VUndef i VUndef
| component_of_null i : component VNull i VUndef.

(** The values [Number] makes [NaN] of, among those it converts without a
    TypeError. *)
Inductive no_number : jsval -> Prop :=
| no_number_undefined : no_number VUndef
| no_number_nan : no_number (VNum NaN)
| no_number_text s : StringToNumber s = NaN -> no_number (VStr s)
| no_number_object props : no_number (VObj props).

(** The values that count as false. *)
Inductive falsy : jsval -> Prop :=
| falsy_undefined : falsy VUndef
| falsy_null : falsy VNull
| falsy_false : falsy (VBool false)
| falsy_zero q : Qeq q 0 -> falsy (VNum (Fin q))
| falsy_nan : falsy (VNum NaN)
| falsy_empty : falsy (VStr []).

Definition coordinate (i : nat) (p : vec3) : jsnum :=
  match i with 0 => vx p | 1 => vy p | _ => vz p end.

(** The note made of a stored element, as the claim describes it. *)
Record restored (item : jsval) (stamp : jsnum * jsnum) (n : note) : Prop :=
  Restored {
  restored_zero : forall p i c,
    holds item (str "position") p -> component p i c -> i < 3 ->
    no_number c -> coordinate i (npos n) = num_of_Z 0;
  restored_number : forall p i x,
    holds item (str "position") p -> component p i (VNum x) -> i < 3 ->
    ~ falsy (VNum x) -> coordinate i (npos n) = x;
  restored_empty : forall v,
    holds item (str "content") v -> falsy v -> ncontent n = str "";
  restored_text : forall c,
    holds item (str "content") (VStr c) -> ncontent n = c;
  restored_numeral : forall x,
    holds item (str "content") (VNum x) -> ~ falsy (VNum x) ->
    ncontent n = NumberToString x;
  restored_id : forall v,
    holds item (str "id") v -> ~ falsy v -> nid n = v;
  restored_fresh_id : forall v,
    holds item (str "id") v -> falsy v ->
    nid n = VStr (NumberToString (fst stamp) ++ 45%N :: NumberToString (snd stamp))
}.

(** An element whose content, or one of whose three position components,
    is an object with a property named [toString]. *)
Inductive unconvertible : jsval -> Prop :=
| unconvertible_content item props x :
    holds item (str "content") (VObj props) -> In (str "toString", x) props ->
    unconvertible item
| unconvertible_component item p i props x :
    holds item (str "position") p -> component p i (VObj props) -> i < 3 ->
    In (str "toString", x) props -> unconvertible item.

(** No object of the value has a property named [toString]: nothing in it
    makes [String] or [Number] throw. *)
Fixpoint printable (v : jsval) : bool :=
  match v with
  | VArr l => forallb printable l
  | VObj props =>
      (forallb (fun kv => negb (str_eqb (fst kv) (str "toString"))) props
       && forallb (fun kv => printable (snd kv)) props)%bool
  | _ => true
  end.

(** ** The round trip through the store *)

(** In-memory state cleared, the store kept: a new system on the same
    [localStorage], which then loads. *)
Definition reload (s : sys) (stamps : nat -> jsnum * jsnum) : sys :=
  _loadNotesFromStorage (init (storage s)) stamps.

(** What the round trip asks of a note: a position of finite components,
    and an id that JSON writes and reads back as it is. *)
Definition storable (n : note) : Prop :=
  finite_vec (npos n) = true /\ to_json (nid n) = nid n.

(** ** States the system reaches, and what holds in all of them *)

(** One event of the single scheduling domain: the module has loaded (the
    import resolves once), a frame, a plane reported, a model loaded, a
    button of the editor. *)
Inductive event : Type :=
| RapierLoaded
| Tick (f : frame) (stamps : nat -> jsnum * jsnum)
| PlaneAdded (pl : plane)
| GltfLoaded
| EditorSave (input : jsstring)
| EditorCancel
| EditorRemove.

Definition handle (s : sys) (e : event) : sys :=
  match e with
  | RapierLoaded => if rapier s then s else on_rapier_loaded s
  | Tick f stamps => state_of (update s f stamps)
  | PlaneAdded pl => plane_added s pl
  | GltfLoaded => on_gltf_loaded s
  | EditorSave input => editor_save s input
  | EditorCancel => editor_cancel s
  | EditorRemove => editor_remove s
  end.

Definition run (s : sys) (es : list event) : sys := fold_left handle es s.

(** The observable points: the state after any sequence of events, from any
    content of the store. *)
Definition reachable (s : sys) : Prop :=
  exists stored es, s = run (init stored) es.

Definition refs (ns : list note) : list nat := map nref ns.

(** The notes, the pickables and the hover slot fit together. *)
Record notes_inv (ns : list note) (ps : list pickable) (h : option nat)
    (nx : nat) : Prop := NotesInv {
  inv_nodup : NoDup (refs ns);
  inv_fresh : forall r, In r (refs ns) -> r < nx;
  inv_pick : forall o, In o ps -> In (pnote o) (refs ns);
  inv_hover : forall r, h = Some r -> In r (refs ns);
  inv_hover_scale : forall r n, h = Some r -> In n ns -> nref n = r ->
                      nscale n = scale_hover
}.

Definition inv (s : sys) : Prop :=
  notes_inv (_notes s) (_notePickables s) (_hoveredNote s) (next_ref s).

(** The store holds the collection as it is now. *)
Definition synced (s : sys) : Prop :=
  storage s = Some (RawJson (to_json (notes_data (_notes s)))).

Definition rehover (h h' : option nat) (ns : list note) : list note :=
  let ns := match h with
            | Some r => set_scale r scale_normal ns
            | None => ns
            end in
  let ns := hide_labels ns in
  match h' with
  | Some r => set_label r true (set_scale r scale_hover ns)
  | None => ns
  end.

(** ** Placement, and the carrying body after a placement *)

Definition placement_of (s : sys) (target : option vec3) : vec3 :=
  match target with Some t => t | None => cube_pos s end.

(** The carrying body after [finalizeFurniturePosition]: at the spawn
    position, at rest, turned as it was. *)
Definition recycled (b : body) : body :=
  Body (bhandle b) (bfixed b) spawn (brot b) vzero vzero.

(** ** The physics side of the state *)

(** What the note operations and the dialogs leave alone. *)
Definition phys (s : sys) : bool * bool * world * nat * nat * jsnum :=
  (rapier s, cube s, pworld s, floorCollider s, rigidBody s, floor_y s).

Ltac neutral :=
  repeat match goal with
         | |- context [match ?x with _ => _ end] => destruct x
         end;
  reflexivity.

(** The calls the translation control adds in a frame. *)
Definition translation_calls (s : sys) (target : option vec3) : list call :=
  match target with
  | None => []
  | Some t =>
      let dir := vec_sub t (translation (pworld s) (rigidBody s)) in
      if jlt (vec_length dir) arrival_epsilon then []
      else [ApplyImpulse
              (vec_scale (vec_scale (vec_normalize dir) speed)
                 (body_mass (pworld s) (rigidBody s)))]
  end.

Definition torque_of (g : gamepad) : vec3 :=
  Vec3 (num_of_Z 0) (jmul (thumbstick_x g) maxRotationSpeed) (num_of_Z 0).

(** ** Exactly one floor collider *)

(** The world holds one floor collider, the one [this.floorCollider] names,
    and the visual floor is at its height. *)
Definition floor_ok (s : sys) : Prop :=
  exists c, floor_colliders (pworld s) = [c] /\
            chandle c = floorCollider s /\ vy (ctrans c) = floor_y s.

Definition handles_ok (s : sys) : Prop :=
  forall c, In c (colliders (pworld s)) -> chandle c < next_handle (pworld s).

Definition world_inv (s : sys) : Prop :=
  (cube s = false -> floor_y s = num_of_Z 0) /\
  (rapier s = true -> floor_ok s /\ handles_ok s) /\
  (rapier s = false -> cube s = false).

Definition fview (s : sys) : bool * bool * list collider * nat * nat * jsnum :=
  (rapier s, cube s, colliders (pworld s), next_handle (pworld s),
   floorCollider s, floor_y s).

Definition new_floor (h : nat) (y : jsnum) : collider :=
  Collider h FloorSlab slab (Vec3 (num_of_Z 0) y (num_of_Z 0)) quat_id
           (Some (Fin (1 # 2)%Q)) None.

(** ** Worked examples *)

(** Two notes A and B are created with the primary button; the editor is
    opened on A; A is removed with the grip while hovered, the editor still
    open on it; the ray then rests on B. *)
Definition hovering_events : list event :=
  [RapierLoaded;
   Tick (aim 1000 (pad false true false) None false) clock;
   Tick (aim 1016 (pad false true false) None false) clock;
   Tick (aim 1032 (pad true false false) (Some 0) false) clock;
   Tick (aim 1048 (pad false false true) (Some 0) false) clock;
   Tick (aim 1064 (pad false false false) (Some 0) false) clock].

Definition hovering_state : sys := run (init None) hovering_events.

(** Two notes A and B are created; the editor is opened on A while it is
    hovered; the ray moves to B; the editor's delete button removes A; the
    ray then leaves B. *)
Definition stale_label_events : list event :=
  [RapierLoaded;
   Tick (aim 1000 (pad false true false) None false) clock;
   Tick (aim 1016 (pad false true false) None false) clock;
   Tick (aim 1032 (pad true false false) (Some 0) false) clock;
   Tick (aim 1048 (pad false false false) (Some 4) false) clock;
   EditorRemove;
   Tick (aim 1064 (pad false false false) None false) clock].

Definition stale_label_state : sys := run (init None) stale_label_events.

(** One note is created, hovered, and the primary button opens the
    delete-confirmation dialog on it. *)
Definition confirming_state : sys :=
  run (init None)
      [RapierLoaded;
       Tick (aim 1000 (pad false true false) None false) clock;
       Tick (aim 1016 (pad false true false) (Some 0) false) clock].

(** The first frame after the physics module has loaded, no controller. *)
Definition first_frame_state : sys :=
  run (init None) [RapierLoaded; Tick no_controller clock].

(** A model is attached and the carried body has been turned half a turn. *)
Definition turned_state : sys :=
  let s := on_gltf_loaded first_frame_state in
  set_pworld s
    (map_body (pworld s) (rigidBody s)
       (fun b => Body (bhandle b) (bfixed b) (btrans b) half_turn
                      (blinvel b) (bangvel b))).

(** The three notes of the spec's round-trip example: each is made with the
    primary button where the ray hits the floor, and its text is typed in
    the editor that opens (the second is left empty). *)
Definition lamp_events : list event :=
  [RapierLoaded;
   Tick (aim_at 1000 (pad false true false)
           (Vec3 (num_of_Z 1) (num_of_Z 0) (num_of_Z 1))) clock;
   EditorSave (str "buy lamp");
   Tick (aim_at 1016 (pad false true false) vzero) clock;
   EditorCancel;
   Tick (aim_at 1032 (pad false true false)
           (Vec3 (num_of_Z (-2)) (num_of_Z 0) (num_of_Z 3))) clock;
   EditorSave (str "  move rug ")].

Definition lamp_state : sys := run (init None) lamp_events.

(** The store holds one element with an infinite id and an infinite first
    position component; the first frame loads it. *)
Definition overflow_events : list event := [RapierLoaded; Tick no_controller clock].

Definition overflow_state : sys :=
  run (init (Some (RawJson (VArr overflow_store)))) overflow_events.

(** * Steps of the system *)

(** The fields the invariants below speak of. *)
Record View : Type := MkView {
  v_notes : list note;
  v_pick : list pickable;
  v_hover : option nat;
  v_scene : list scene_obj;
  v_storage : option raw;
  v_input : option nat;
  v_confirm : option nat;
  v_loop : option confirm_loop;
  v_next : nat;
  v_rapier : bool;
  v_cube : bool;
  v_colliders : list collider;
  v_handle : nat;
  v_floor : nat;
  v_floor_y : jsnum;
  v_model : option nat
}.

Definition view (s : sys) : View :=
  MkView (_notes s) (_notePickables s) (_hoveredNote s) (scene s) (storage s)
         (_activeNoteInput s) (_activeConfirm3D s) (_confirmLoop s) (next_ref s)
         (rapier s) (cube s) (colliders (pworld s)) (next_handle (pworld s))
         (floorCollider s) (floor_y s) (furnitureModel s).

(** The objects [update] makes on its first frame with the physics module,
    before it loads the notes. *)
Definition make_scene (s : sys) : sys :=
  let s := set_cube s true in
  let s := set_cube_quat (set_cube_pos s vzero) quat_id in
  let s := set_floor_y s (num_of_Z 0) in
  set_marker_pos (set_marker_visible s true) vzero.

(** One step: an operation of the class as the events run it, or a change
    of the fields [view] leaves out (the bodies, the call log, the visuals of
    the carried object, the loading flags). *)
Inductive step : sys -> sys -> Prop :=
| st_same s s' : view s' = view s -> step s s'
| st_loaded s : rapier s = false -> step s (on_rapier_loaded s)
| st_scene s : rapier s = true -> cube s = false -> step s (make_scene s)
| st_finalize s m :
    furnitureModel s = Some m -> rapier s = true ->
    step s (finalizeFurniturePosition s)
| st_plane s pl : cube s = true -> step s (onPlaneAdded s pl)
| st_gltf s : step s (on_gltf_loaded s)
| st_create s pos c o id st : step s (createNoteMarker s pos c o id st)
| st_remove s r : step s (_removeNote s (Some r))
| st_open_input s r : step s (_openNoteInput s r)
| st_open_confirm s r : _hoveredNote s = Some r -> step s (_openDeleteConfirm s r)
| st_cleanup s cl : _confirmLoop s = Some cl -> step s (cleanup s cl)
| st_hover s f : step s (hover_update s (hover_target s f))
| st_save s input : step s (editor_save s input)
| st_close s : step s (set_activeNoteInput s None)
| st_refresh s dt : step s (refresh_labels s dt).

Inductive steps : sys -> sys -> Prop :=
| steps_refl s : steps s s
| steps_cons s1 s2 s3 : step s1 s2 -> steps s2 s3 -> steps s1 s3.

(** The note side of the state: what the physics operations never touch. *)
Definition nfields (s : sys) :
    list note * list pickable * option nat * option raw * option nat
    * option nat * option confirm_loop :=
  (_notes s, _notePickables s, _hoveredNote s, storage s, _activeNoteInput s,
   _activeConfirm3D s, _confirmLoop s).

(** The references of the note groups, of the dialog anchors and of the
    placed models among the children of the scene. *)
Definition note_groups (sc : list scene_obj) : list nat :=
  flat_map (fun o => match o with NoteGroup r => [r] | _ => [] end) sc.

Definition anchors (sc : list scene_obj) : list nat :=
  flat_map (fun o => match o with ConfirmAnchor r => [r] | _ => [] end) sc.

Definition placed (sc : list scene_obj) : list nat :=
  flat_map (fun o => match o with PlacedModel r => [r] | _ => [] end) sc.

(** What a note is made of once created: its identity, id, content and
    position; the label and the halo are how it is shown. *)
Definition core (n : note) : nat * jsval * jsstring * vec3 :=
  (nref n, nid n, ncontent n, npos n).

(** The pickables are the four meshes of each note, note after note. *)
Definition pickables_of (ns : list note) : list pickable :=
  flat_map note_pickables (refs ns).

(** The scene holds the group of each note and the anchor of the open
    dialog, and the confirm loop runs for the open dialog. *)
Definition dialog_anchor (s : sys) : list nat :=
  match _activeConfirm3D s with Some a => [a] | None => [] end.

Definition loop_agrees (s : sys) : Prop :=
  match _confirmLoop s with
  | Some cl => _activeConfirm3D s = Some (cl_anchor cl)
  | None => _activeConfirm3D s = None
  end.

Definition scene_tidy (s : sys) : Prop :=
  note_groups (scene s) = refs (_notes s) /\
  anchors (scene s) = dialog_anchor s /\
  loop_agrees s.

(** From [s] to [s'] no note changes id or position: a note of [s'] is a
    note of [s] with the same identity, id and position, or was made since. *)
Definition keeps (s s' : sys) : Prop :=
  next_ref s <= next_ref s' /\
  forall n', In n' (_notes s') ->
    (exists n, In n (_notes s) /\ nref n = nref n' /\ nid n = nid n' /\ npos n = npos n')
    \/ next_ref s <= nref n'.

(** A note as it is right after [createNoteMarker]: label hidden, halo at
    rest, and no position component that is not a number. *)
Definition at_rest (n : note) : Prop :=
  nlabel n = false /\ nscale n = scale_normal /\
  vx (npos n) <> NaN /\ vy (npos n) <> NaN /\ vz (npos n) <> NaN.

Definition is_box (k : collider_kind) : bool :=
  match k with BodyBox => true | _ => false end.

Definition boxes (w : world) : list collider :=
  filter (fun c => is_box (ckind c)) (colliders w).

Definition handles (w : world) : list nat := map chandle (colliders w).

(** The colliders of the world: handles are not reused, the handle the
    system tracks is that of a floor slab, and there is one box for the
    carried body and one for each model placed. *)
Record colliders_tidy (s : sys) : Prop := CollidersTidy {
  ct_nodup : NoDup (handles (pworld s));
  ct_bound : forall h, In h (handles (pworld s)) -> h < next_handle (pworld s);
  ct_floor : forall c, In c (colliders (pworld s)) ->
               chandle c = floorCollider s -> ckind c = FloorSlab;
  ct_tracked : rapier s = true -> floorCollider s < next_handle (pworld s);
  ct_boxes : rapier s = true ->
               List.length (boxes (pworld s)) = S (List.length (placed (scene s)));
  ct_before : rapier s = false ->
                colliders (pworld s) = [] /\ placed (scene s) = [] /\ cube s = false
}.

(** An element of the stored array as [_saveNotesToStorage] writes it: the
    three properties in this order, the content a string, the position an
    array of three entries, each a finite number or [null]. *)
Definition stored_number (v : jsval) : Prop :=
  v = VNull \/ exists q, v = VNum (Fin q).

Definition stored_item (item : jsval) : Prop :=
  exists id c x y z,
    item = VObj [(str "id", id); (str "content", VStr c);
                 (str "position", VArr [x; y; z])] /\
    id <> VUndef /\ stored_number x /\ stored_number y /\ stored_number z.

(** The store holds what it held at startup, or what a write of the system
    has put there. *)
Definition written (stored : option raw) (s : sys) : Prop :=
  storage s = stored \/
  exists ns, storage s = Some (RawJson (to_json (notes_data ns))).

(** The note side of the state without the looks of the notes: what a
    frame leaves when it only shows and hides labels and halos. *)
Definition note_side (s : sys) :
    list (nat * jsval * jsstring * vec3) * list pickable * list scene_obj
    * option raw * option nat * option nat * option nat * option confirm_loop
    * nat :=
  (map core (_notes s), _notePickables s, scene s, storage s, _hoveredNote s,
   _activeNoteInput s, _activeConfirm3D s, _confirmLoop s, next_ref s).

(** * Properties of the embedding *)

(** ** Strings and values *)

Lemma str_eqb_eq a : forall b, str_eqb a b = true <-> a = b.
Proof.
  induction a as [|x a IH]; intros [|y b]; cbn [str_eqb]; split; intros H;
    try discriminate; auto.
  - apply andb_prop in H as [H1 H2]. apply N.eqb_eq in H1. apply IH in H2.
    now subst.
  - injection H as -> ->. rewrite N.eqb_refl. now apply IH.
Qed.

Lemma str_eqb_refl a : str_eqb a a = true.
Proof. now apply str_eqb_eq. Qed.

Lemma str_eqb_neq a b : a <> b -> str_eqb a b = false.
Proof.
  intros H. destruct (str_eqb a b) eqn:E; auto. apply str_eqb_eq in E. contradiction.
Qed.

Lemma str_or_empty c : str_or c (str "") = c.
Proof. now destruct c. Qed.

Lemma jsval_induction (P : jsval -> Prop) :
  P VUndef -> P VNull -> (forall b, P (VBool b)) -> (forall n, P (VNum n)) ->
  (forall s, P (VStr s)) ->
  (forall l, Forall P l -> P (VArr l)) ->
  (forall props, Forall (fun kv => P (snd kv)) props -> P (VObj props)) ->
  forall v, P v.
Proof.
  intros Hu Hn Hb Hm Hs Ha Ho. fix IH 1.
  intros [| |b|n|s|l|props];
    [exact Hu|exact Hn|apply Hb|apply Hm|apply Hs| |].
  - apply Ha. revert l. fix IHl 1. intros [|x l]; constructor; [apply IH|apply IHl].
  - apply Ho. revert props. fix IHp 1. intros [|[k x] ps]; constructor;
      [apply IH|apply IHp].
Qed.

Lemma falsy_truthy v : falsy v -> truthy v = false.
Proof.
  intros H. destruct H as [| | |q Hq| |]; try reflexivity.
  cbn. unfold Qzero. unfold Qeq in Hq. cbn in Hq.
  rewrite Z.mul_1_r in Hq. rewrite Hq. reflexivity.
Qed.

Lemma truthy_falsy v : truthy v = false -> falsy v.
Proof.
  destruct v as [| |[|]|[q| | |]|[|c s]|l|props]; cbn; intros H;
    try discriminate; try (constructor; fail).
  apply negb_false_iff in H. unfold Qzero in H. apply Z.eqb_eq in H.
  constructor. unfold Qeq. cbn. now rewrite H.
Qed.

Lemma not_falsy_truthy v : ~ falsy v -> truthy v = true.
Proof.
  intros H. destruct (truthy v) eqn:E; auto. elim H. now apply truthy_falsy.
Qed.

(** ** Reading a stored element *)

Lemma lookup_first before name v after :
  (forall x, ~ In (name, x) before) ->
  lookup name (before ++ (name, v) :: after) = v.
Proof.
  induction before as [|[k x] rest IH]; intros H; cbn [app lookup].
  - now rewrite str_eqb_refl.
  - rewrite str_eqb_neq.
    + apply IH. intros y Hy. apply (H y). now right.
    + intros ->. apply (H x). now left.
Qed.

Lemma lookup_absent props name :
  (forall x, ~ In (name, x) props) -> lookup name props = VUndef.
Proof.
  induction props as [|[k x] rest IH]; intros H; cbn [lookup]; auto.
  rewrite str_eqb_neq.
  - apply IH. intros y Hy. apply (H y). now right.
  - intros ->. apply (H x). now left.
Qed.

Lemma holds_get_prop item name v : holds item name v -> get_prop item name = v.
Proof.
  intros H. destruct H as [before name v after H|props name H|item name H].
  - now apply lookup_first.
  - now apply lookup_absent.
  - destruct item; auto. now elim (H props).
Qed.

Lemma component_get_index p i c : component p i c -> get_index p i = c.
Proof. intros H. now destruct H. Qed.

Lemma has_key_printable props :
  forallb (fun kv => negb (str_eqb (fst kv) (str "toString"))) props = true ->
  has_key (str "toString") props = false.
Proof.
  unfold has_key. induction props as [|[k x] rest IH]; cbn [forallb existsb fst];
    auto.
  intros H. apply andb_prop in H as [H1 H2]. rewrite (IH H2), orb_false_r.
  apply negb_true_iff in H1. destruct (str_eqb (str "toString") k) eqn:Ek; auto.
  apply str_eqb_eq in Ek. subst k. now rewrite str_eqb_refl in H1.
Qed.

Lemma printable_lookup props name :
  forallb (fun kv => printable (snd kv)) props = true ->
  printable (lookup name props) = true.
Proof.
  induction props as [|[k x] rest IH]; cbn [forallb lookup snd]; auto.
  intros H. apply andb_prop in H as [H1 H2].
  destruct (str_eqb name k); auto.
Qed.

Lemma printable_get_prop item name :
  printable item = true -> printable (get_prop item name) = true.
Proof.
  destruct item; cbn [get_prop]; auto. cbn [printable]. intros H.
  apply andb_prop in H as [_ H]. now apply printable_lookup.
Qed.

Lemma printable_get_index p i :
  printable p = true -> printable (get_index p i) = true.
Proof.
  destruct p as [| |b|n|s|l|props]; cbn [get_index]; auto.
  - now destruct (nth_error s i).
  - cbn [printable]. revert i. induction l as [|x l IH]; intros [|i] H; auto;
      cbn [forallb] in H; apply andb_prop in H as [H1 H2]; cbn [nth]; auto.
  - cbn [printable]. intros H. apply andb_prop in H as [_ H].
    now apply printable_lookup.
Qed.

Lemma printable_js_or a b :
  printable a = true -> printable b = true -> printable (js_or a b) = true.
Proof. intros Ha Hb. unfold js_or. now destruct (truthy a). Qed.

(** The conversions of a printable value do not throw. *)
Lemma printable_to_string v : printable v = true -> exists t, to_string v = Some t.
Proof.
  induction v as [| |b|n|s|l IH|props IH] using jsval_induction; intros Hp;
    try (eexists; reflexivity).
  - destruct b; eexists; reflexivity.
  - cbn [printable] in Hp. cbn [to_string].
    induction l as [|x l IHl]; [eexists; reflexivity|].
    inversion IH as [|? ? Hx Hl]; subst. cbn [forallb] in Hp.
    apply andb_prop in Hp as [Hpx Hpl].
    destruct (IHl Hl Hpl) as (there & Ht).
    assert (exists here, match x with
                         | VUndef | VNull => Some []
                         | _ => to_string x
                         end = Some here) as (here & Hh).
    { destruct (Hx Hpx) as (t & Et). destruct x; eauto. }
    rewrite Hh. destruct l as [|y l]; [eauto|]. rewrite Ht. eauto.
  - cbn [printable] in Hp. apply andb_prop in Hp as [Hk _]. cbn [to_string].
    rewrite (has_key_printable props Hk). eauto.
Qed.

Lemma printable_to_number v : printable v = true -> exists n, to_number v = Some n.
Proof.
  intros Hp. destruct v as [| |b|n|s|l|props]; try (eexists; reflexivity).
  - destruct b; eexists; reflexivity.
  - destruct (printable_to_string (VArr l) Hp) as (t & Ht).
    unfold to_number. rewrite Ht. cbn. eauto.
  - cbn [printable] in Hp. apply andb_prop in Hp as [Hk _]. cbn [to_number].
    rewrite (has_key_printable props Hk). eauto.
Qed.

Lemma printable_number_or_zero v :
  printable v = true -> exists n, number_or_zero v = Some n.
Proof.
  intros Hp. destruct (printable_to_number v Hp) as (n & Hn).
  unfold number_or_zero. rewrite Hn. cbn. eauto.
Qed.

Lemma printable_item item :
  printable item = true ->
  exists pos content, item_position item = Some pos /\ item_content item = Some content.
Proof.
  intros Hp. unfold item_position, item_content. cbn zeta.
  pose proof (printable_get_prop item (str "position") Hp) as Hpos.
  destruct (printable_number_or_zero _ (printable_get_index _ 0 Hpos)) as (x & ->).
  destruct (printable_number_or_zero _ (printable_get_index _ 1 Hpos)) as (y & ->).
  destruct (printable_number_or_zero _ (printable_get_index _ 2 Hpos)) as (z & ->).
  destruct (printable_to_string
              (js_or (get_prop item (str "content")) (VStr (str ""))))
    as (c & ->); [|eauto].
  apply printable_js_or; [now apply printable_get_prop|reflexivity].
Qed.

(** ** Restoring the persisted notes *)

Lemma createNoteMarker_closed_notes s pos c id st :
  _notes (createNoteMarker s pos c false id st)
  = _notes s ++ [Note (next_ref s) (js_or id (fresh_id st)) (str_or c (str "")) pos
                      false scale_normal].
Proof. reflexivity. Qed.

Lemma createNoteMarker_closed_next_ref s pos c id st :
  next_ref (createNoteMarker s pos c false id st) = S (next_ref s).
Proof. reflexivity. Qed.

Lemma load_items_notes arr : forall s i stamps,
  _notes (load_items s arr i stamps)
  = _notes s ++ loaded_notes (next_ref s) i arr stamps.
Proof.
  induction arr as [|item rest IH]; intros s i stamps; cbn [load_items loaded_notes].
  - now rewrite app_nil_r.
  - destruct (item_position item) as [pos|]; [|now rewrite app_nil_r].
    destruct (item_content item) as [c|]; [|now rewrite app_nil_r].
    rewrite IH, createNoteMarker_closed_notes, createNoteMarker_closed_next_ref.
    now rewrite <- app_assoc.
Qed.

Lemma item_position_coordinates item pos i :
  item_position item = Some pos -> i < 3 ->
  number_or_zero (get_index (get_prop item (str "position")) i)
  = Some (coordinate i pos).
Proof.
  unfold item_position. cbn zeta.
  destruct (number_or_zero (get_index _ 0)) as [x|] eqn:Ex; [|discriminate].
  destruct (number_or_zero (get_index _ 1)) as [y|] eqn:Ey; [|discriminate].
  destruct (number_or_zero (get_index _ 2)) as [z|] eqn:Ez; [|discriminate].
  intros [= <-] Hi. destruct i as [|[|[|i]]]; cbn [coordinate vx vy vz]; auto. lia.
Qed.

Lemma no_number_zero c n :
  no_number c -> number_or_zero c = Some n -> n = num_of_Z 0.
Proof.
  intros H Hn. unfold number_or_zero in Hn.
  destruct H as [| |s Hs|props]; cbn [to_number] in Hn.
  - cbn in Hn. congruence.
  - cbn in Hn. congruence.
  - rewrite Hs in Hn. cbn in Hn. congruence.
  - destruct (has_key (str "toString") props); cbn in Hn; congruence.
Qed.

(** The note made of an element whose conversions succeed is the one the
    claim describes. *)
Lemma loaded_note_restored item stamp r pos content :
  item_position item = Some pos -> item_content item = Some content ->
  restored item stamp
    (Note r (js_or (get_prop item (str "id")) (fresh_id stamp))
          (str_or content (str "")) pos false scale_normal).
Proof.
  intros Hpos Hc. constructor; cbn [npos ncontent nid].
  - intros p i c Hp Hci Hi Hno.
    pose proof (item_position_coordinates item pos i Hpos Hi) as H.
    rewrite (holds_get_prop _ _ _ Hp), (component_get_index _ _ _ Hci) in H.
    exact (no_number_zero c _ Hno H).
  - intros p i x Hp Hci Hi Hx.
    pose proof (item_position_coordinates item pos i Hpos Hi) as H.
    rewrite (holds_get_prop _ _ _ Hp), (component_get_index _ _ _ Hci) in H.
    unfold number_or_zero in H. cbn in H.
    apply not_falsy_truthy in Hx. cbn in Hx. rewrite Hx in H. now injection H.
  - intros v Hv Hf. unfold item_content in Hc.
    rewrite (holds_get_prop _ _ _ Hv) in Hc. unfold js_or in Hc.
    rewrite (falsy_truthy v Hf) in Hc. cbn in Hc. now injection Hc as <-.
  - intros c Hv. unfold item_content in Hc.
    rewrite (holds_get_prop _ _ _ Hv) in Hc. unfold js_or in Hc.
    destruct c as [|x c]; cbn in Hc; now injection Hc as <-.
  - intros x Hv Hx. unfold item_content in Hc.
    rewrite (holds_get_prop _ _ _ Hv) in Hc. unfold js_or in Hc.
    rewrite (not_falsy_truthy _ Hx) in Hc. cbn in Hc. injection Hc as <-.
    apply str_or_empty.
  - intros v Hv Hx. rewrite (holds_get_prop _ _ _ Hv). unfold js_or.
    now rewrite (not_falsy_truthy _ Hx).
  - intros v Hv Hf. rewrite (holds_get_prop _ _ _ Hv). unfold js_or.
    now rewrite (falsy_truthy v Hf).
Qed.

Lemma loaded_notes_printable arr : forall r i stamps,
  forallb printable arr = true ->
  List.length (loaded_notes r i arr stamps) = List.length arr /\
  forall k item, nth_error arr k = Some item ->
    exists n, nth_error (loaded_notes r i arr stamps) k = Some n /\
              restored item (stamps (i + k)) n.
Proof.
  induction arr as [|a rest IH]; intros r i stamps Hp; cbn [loaded_notes].
  - split; [reflexivity|]. intros [|k] item H; discriminate.
  - cbn [forallb] in Hp. apply andb_prop in Hp as [Ha Hrest].
    destruct (printable_item a Ha) as (pos & c & Epos & Ec). rewrite Epos, Ec.
    destruct (IH (S r) (S i) stamps Hrest) as [Hlen Hnth]. split.
    + cbn [List.length]. now rewrite Hlen.
    + intros [|k] item H; cbn [nth_error] in *.
      * injection H as <-. eexists. split; [reflexivity|].
        rewrite Nat.add_0_r. now apply loaded_note_restored.
      * destruct (Hnth k item H) as (n & Hn & Hr). exists n. split; [exact Hn|].
        now rewrite Nat.add_succ_r.
Qed.

Lemma has_key_in k x props : In (k, x) props -> has_key k props = true.
Proof.
  unfold has_key. intros H. apply existsb_exists. exists (k, x).
  split; [exact H|apply str_eqb_refl].
Qed.

Lemma unconvertible_item item :
  unconvertible item -> item_position item = None \/ item_content item = None.
Proof.
  intros H. destruct H as [item props x Hc Hin|item p i props x Hp Hci Hi Hin].
  - right. unfold item_content. rewrite (holds_get_prop _ _ _ Hc).
    unfold js_or. cbn [truthy to_string]. now rewrite (has_key_in _ x props Hin).
  - left. unfold item_position. cbn zeta. rewrite (holds_get_prop _ _ _ Hp).
    assert (number_or_zero (get_index p i) = None) as Hn.
    { rewrite (component_get_index _ _ _ Hci). unfold number_or_zero.
      cbn [to_number]. now rewrite (has_key_in _ x props Hin). }
    destruct i as [|[|[|i]]]; [| | |lia].
    + now rewrite Hn.
    + rewrite Hn. now destruct (number_or_zero (get_index p 0)).
    + rewrite Hn. destruct (number_or_zero (get_index p 0)); [|reflexivity].
      now destruct (number_or_zero (get_index p 1)).
Qed.

(** The notes made stop at the first element whose conversion throws. *)
Lemma loaded_notes_stop before item after : forall r i stamps,
  forallb printable before = true ->
  item_position item = None \/ item_content item = None ->
  loaded_notes r i (before ++ item :: after) stamps = loaded_notes r i before stamps.
Proof.
  induction before as [|a rest IH]; intros r i stamps Hp Hi; cbn [app loaded_notes].
  - destruct Hi as [-> | Hc]; [reflexivity|]. rewrite Hc.
    now destruct (item_position item).
  - cbn [forallb] in Hp. apply andb_prop in Hp as [Ha Hrest].
    destruct (printable_item a Ha) as (pos & c & -> & ->).
    now rewrite IH.
Qed.

(** C10, as amended. When no object of the stored array has a property named
    toString, restoring makes one note per element, in order and after the
    notes already there, none skipped: the collection grows by the length of
    the array, and the note at an element's place has each position
    component that is missing or no number at 0 (and a component that is a
    number other than 0 at that number), the content turned into a string
    (the empty one when it is missing or counts as false), and the stored id
    when there is one that does not count as false, a fresh one, made of the
    clock and the draw, otherwise. When an element has such an object as
    content or as a position component, and the elements before it have
    none, the restoring stops at that element: the elements before it have
    made their notes, as described, and neither it nor any element after it
    makes one. *)
Theorem load_every_element_makes_a_note (s : sys) (arr : list jsval)
    (stamps : nat -> jsnum * jsnum) :
  storage s = Some (RawJson (VArr arr)) ->
  let s' := _loadNotesFromStorage s stamps in
  (printable (VArr arr) = true ->
   List.length (_notes s') = List.length (_notes s) + List.length arr /\
   forall k item, nth_error arr k = Some item ->
     exists n, nth_error (_notes s') (List.length (_notes s) + k) = Some n /\
               restored item (stamps k) n) /\
  (forall before item after,
     arr = before ++ item :: after ->
     printable (VArr before) = true -> unconvertible item ->
     List.length (_notes s') = List.length (_notes s) + List.length before /\
     forall k item', nth_error before k = Some item' ->
       exists n, nth_error (_notes s') (List.length (_notes s) + k) = Some n /\
                 restored item' (stamps k) n).
Proof.
  intros Hst s'. subst s'. unfold _loadNotesFromStorage. rewrite Hst.
  rewrite load_items_notes.
  assert (forall l, forallb printable l = true ->
            List.length (_notes s ++ loaded_notes (next_ref s) 0 l stamps)
            = List.length (_notes s) + List.length l /\
            forall k item, nth_error l k = Some item ->
              exists n, nth_error (_notes s ++ loaded_notes (next_ref s) 0 l stamps)
                          (List.length (_notes s) + k) = Some n /\
                        restored item (stamps k) n) as Hall.
  { intros l Hp.
    destruct (loaded_notes_printable l (next_ref s) 0 stamps Hp) as [Hlen Hnth].
    split.
    - now rewrite length_app, Hlen.
    - intros k item Hk. destruct (Hnth k item Hk) as (n & Hn & Hr).
      exists n. split; [|exact Hr].
      rewrite nth_error_app2 by lia.
      now replace (List.length (_notes s) + k - List.length (_notes s)) with k
        by lia. }
  split.
  - intros Hp. cbn [printable] in Hp. now apply Hall.
  - intros before item after -> Hp Hu. cbn [printable] in Hp.
    rewrite (loaded_notes_stop before item after (next_ref s) 0 stamps Hp
               (unconvertible_item item Hu)).
    now apply Hall.
Qed.

(** ** The round trip through the store *)

Lemma fresh_id_stable st : stable_id (fresh_id st).
Proof.
  unfold stable_id, fresh_id. split; [|reflexivity].
  cbn [truthy]. destruct (NumberToString (fst st)); reflexivity.
Qed.

Lemma same_num_refl a : same_num a a = true.
Proof. destruct a; simpl; auto. apply Qeq_bool_iff. reflexivity. Qed.

Lemma number_or_zero_json x :
  is_finite x = true ->
  exists y, number_or_zero (to_json (VNum x)) = Some y /\ same_num y x = true.
Proof.
  destruct x as [q| | |]; try discriminate. intros _.
  cbn [to_json is_finite]. unfold number_or_zero. cbn [to_number option_map num_truthy].
  eexists. split; [reflexivity|].
  destruct (Qzero q) eqn:E; cbn [negb].
  - unfold num_of_Z. cbn [same_num]. apply Qeq_bool_iff.
    unfold Qzero in E. apply Z.eqb_eq in E.
    unfold Qeq. simpl. rewrite E. reflexivity.
  - apply same_num_refl.
Qed.

Lemma to_json_note_data n :
  nid n <> VUndef ->
  to_json (note_data n)
  = VObj [(str "id", to_json (nid n)); (str "content", VStr (ncontent n));
          (str "position", VArr [to_json (VNum (vx (npos n)));
                                 to_json (VNum (vy (npos n)));
                                 to_json (VNum (vz (npos n)))])].
Proof.
  intros H. unfold note_data. destruct (nid n); try reflexivity. now elim H.
Qed.

Lemma stable_id_defined v : stable_id v -> v <> VUndef.
Proof. intros [H _] ->. discriminate. Qed.

(** What the load path reads from an element the save path wrote. *)
Lemma saved_item_fields id c x y z :
  let item := VObj [(str "id", id); (str "content", VStr c);
                    (str "position", VArr [x; y; z])] in
  get_prop item (str "id") = id /\
  get_prop item (str "content") = VStr c /\
  get_index (get_prop item (str "position")) 0 = x /\
  get_index (get_prop item (str "position")) 1 = y /\
  get_index (get_prop item (str "position")) 2 = z.
Proof. cbv zeta. repeat split. Qed.

Lemma reload_note n :
  stable_id (nid n) -> finite_vec (npos n) = true ->
  exists pos,
    item_position (to_json (note_data n)) = Some pos /\
    item_content (to_json (note_data n)) = Some (ncontent n) /\
    get_prop (to_json (note_data n)) (str "id") = nid n /\
    same_vec pos (npos n) = true.
Proof.
  intros Hid Hfin. rewrite (to_json_note_data n (stable_id_defined _ Hid)).
  destruct Hid as [Ht Hj]. unfold finite_vec in Hfin.
  apply andb_prop in Hfin as [Hxy Hz]. apply andb_prop in Hxy as [Hx Hy].
  destruct (saved_item_fields (to_json (nid n)) (ncontent n)
              (to_json (VNum (vx (npos n)))) (to_json (VNum (vy (npos n))))
              (to_json (VNum (vz (npos n))))) as (Ei & Ec & E0 & E1 & E2).
  destruct (number_or_zero_json _ Hx) as (x & Ex & Sx).
  destruct (number_or_zero_json _ Hy) as (y & Ey & Sy).
  destruct (number_or_zero_json _ Hz) as (z & Ez & Sz).
  exists (Vec3 x y z). unfold item_position, item_content. cbn zeta.
  rewrite Ei, Ec, E0, E1, E2, Ex, Ey, Ez, Hj.
  split; [reflexivity|]. split; [|split; [reflexivity|]].
  - unfold js_or. destruct (ncontent n); reflexivity.
  - unfold same_vec. cbn [vx vy vz]. now rewrite Sx, Sy, Sz.
Qed.

Lemma reload_notes ns : forall r i stamps,
  Forall (fun n => stable_id (nid n)) ns ->
  Forall (fun n => finite_vec (npos n) = true) ns ->
  Forall2 same_note (loaded_notes r i (map to_json (map note_data ns)) stamps) ns.
Proof.
  induction ns as [|n rest IH]; intros r i stamps Hid Hfin; cbn [map loaded_notes].
  - constructor.
  - inversion Hid as [|? ? Hn Hrest]; inversion Hfin as [|? ? Fn Frest]; subst.
    destruct (reload_note n Hn Fn) as (pos & -> & -> & -> & Hv).
    constructor; [|now apply IH].
    unfold same_note. cbn [nid ncontent npos]. destruct Hn as [Ht _].
    unfold js_or. rewrite Ht, str_or_empty. auto.
Qed.

Lemma createNoteMarker_notes s pos c o id st :
  _notes (createNoteMarker s pos c o id st)
  = _notes s ++ [Note (next_ref s) (js_or id (fresh_id st)) (str_or c (str "")) pos
                      false scale_normal].
Proof. destruct o; reflexivity. Qed.

Lemma set_content_ids r c ns : map nid (set_content r c ns) = map nid ns.
Proof.
  induction ns as [|n rest IH]; simpl; auto.
  rewrite IH. now destruct (Nat.eqb (nref n) r).
Qed.

Lemma Forall_map_iff {A B} (P : B -> Prop) (f : A -> B) l :
  Forall (fun x => P (f x)) l <-> Forall P (map f l).
Proof. symmetry. apply Forall_map. Qed.

(** ** Notes, pickables and the hover slot *)

Lemma refs_app ns ms : refs (ns ++ ms) = refs ns ++ refs ms.
Proof. apply map_app. Qed.

Lemma refs_map (f : note -> note) ns :
  (forall n, nref (f n) = nref n) -> refs (map f ns) = refs ns.
Proof.
  intros H. unfold refs. rewrite map_map. apply map_ext. exact H.
Qed.

Lemma refs_filter_in r p ns :
  In r (refs (filter p ns)) -> In r (refs ns).
Proof.
  unfold refs. rewrite !in_map_iff. intros (n & E & Hn).
  apply filter_In in Hn as [Hn _]. eauto.
Qed.

Lemma refs_filter_nodup p ns : NoDup (refs ns) -> NoDup (refs (filter p ns)).
Proof.
  induction ns as [|n rest IH]; simpl; intros H; [constructor|].
  inversion H; subst. destruct (p n); simpl; auto.
  constructor; auto. intros Hin. now apply refs_filter_in in Hin.
Qed.

Lemma in_refs n ns : In n ns -> In (nref n) (refs ns).
Proof. apply in_map. Qed.

Lemma notes_inv_create ns ps h nx id c pos sc :
  notes_inv ns ps h nx ->
  notes_inv (ns ++ [Note nx id c pos false sc]) (ps ++ note_pickables nx) h (S nx).
Proof.
  intros [Hnd Hfr Hpk Hhv Hlab]. constructor.
  - rewrite refs_app. simpl. apply NoDup_app; [assumption| |].
    + constructor; [intros []|constructor].
    + intros r Hr [E|[]]. subst. apply Hfr in Hr. lia.
  - intros r Hr. rewrite refs_app in Hr. apply in_app_or in Hr as [Hr|[E|[]]].
    + apply Hfr in Hr. lia.
    + simpl in E. lia.
  - intros o Ho. rewrite refs_app. apply in_or_app.
    apply in_app_or in Ho as [Ho|Ho]; [left; now apply Hpk|right].
    simpl in Ho. simpl. left.
    destruct Ho as [E|[E|[E|[E|[]]]]]; now subst.
  - intros r Hr. rewrite refs_app. apply in_or_app. left. now apply Hhv.
  - intros r n Hr Hn E.
    apply in_app_or in Hn as [Hn|[E'|[]]]; [now apply (Hlab r)|].
    subst n. simpl in E. subst r. apply Hhv in Hr. apply Hfr in Hr. lia.
Qed.

Lemma notes_inv_remove ns ps h nx r :
  notes_inv ns ps h nx ->
  notes_inv (filter (fun n => negb (Nat.eqb (nref n) r)) ns)
            (filter (fun o => negb (Nat.eqb (pnote o) r)) ps) None nx.
Proof.
  intros [Hnd Hfr Hpk Hhv Hlab]. constructor.
  - now apply refs_filter_nodup.
  - intros x Hx. apply Hfr. now apply refs_filter_in in Hx.
  - intros o Ho. apply filter_In in Ho as [Ho Hne].
    apply Hpk in Ho. unfold refs in *. rewrite in_map_iff in *.
    destruct Ho as (n & E & Hn). exists n. split; auto.
    apply filter_In. split; auto. now rewrite E.
  - discriminate.
  - discriminate.
Qed.

Lemma notes_inv_next ns ps h nx nx' :
  nx <= nx' -> notes_inv ns ps h nx -> notes_inv ns ps h nx'.
Proof.
  intros Hle [Hnd Hfr Hpk Hhv Hlab]. constructor; auto.
  intros r Hr. apply Hfr in Hr. lia.
Qed.

(** A change of the notes in place that keeps references and halo scales
    keeps the invariant. *)
Lemma notes_inv_map (f : note -> note) ns ps h nx :
  (forall n, nref (f n) = nref n) ->
  (forall n, nscale (f n) = nscale n) ->
  notes_inv ns ps h nx -> notes_inv (map f ns) ps h nx.
Proof.
  intros Hr Hs [Hnd Hfr Hpk Hhv Hlab].
  constructor; try rewrite (refs_map f ns Hr); auto.
  intros r n E Hn. apply in_map_iff in Hn as (n0 & <- & Hn).
  rewrite Hr, Hs. now apply Hlab.
Qed.

Lemma hover_update_notes s h' :
  _notes (hover_update s h')
  = if option_nat_eqb (_hoveredNote s) h' then _notes s
    else rehover (_hoveredNote s) h' (_notes s).
Proof. unfold hover_update. now destruct (option_nat_eqb (_hoveredNote s) h'). Qed.

Lemma hover_update_hovered s h' : _hoveredNote (hover_update s h') = h'.
Proof.
  unfold hover_update. destruct (option_nat_eqb (_hoveredNote s) h') eqn:E; auto.
  destruct (_hoveredNote s), h'; simpl in E; try discriminate; auto.
  apply Nat.eqb_eq in E. now subst.
Qed.

Lemma refs_set_scale r sc ns : refs (set_scale r sc ns) = refs ns.
Proof.
  apply refs_map. intros n. now destruct (Nat.eqb (nref n) r).
Qed.

Lemma refs_set_label r b ns : refs (set_label r b ns) = refs ns.
Proof.
  apply refs_map. intros n. now destruct (Nat.eqb (nref n) r).
Qed.

Lemma refs_hide_labels ns : refs (hide_labels ns) = refs ns.
Proof. now apply refs_map. Qed.

Lemma refs_rehover h h' ns : refs (rehover h h' ns) = refs ns.
Proof.
  unfold rehover. destruct h' as [r|].
  - rewrite refs_set_label, refs_set_scale, refs_hide_labels.
    destruct h; auto. apply refs_set_scale.
  - rewrite refs_hide_labels. destruct h; auto. apply refs_set_scale.
Qed.

Lemma hide_labels_off ns n : In n (hide_labels ns) -> nlabel n = false.
Proof. intros H. apply in_map_iff in H as (n0 & <- & _). reflexivity. Qed.

Lemma set_scale_label r sc ns n :
  In n (set_scale r sc ns) -> exists n0, In n0 ns /\ nlabel n = nlabel n0.
Proof.
  intros H. apply in_map_iff in H as (n0 & <- & H0). exists n0. split; auto.
  now destruct (Nat.eqb (nref n0) r).
Qed.

Lemma rehover_labelled h r ns n :
  In n (rehover h (Some r) ns) ->
  (nlabel n = true -> nref n = r) /\
  (nref n = r -> nlabel n = true /\ nscale n = scale_hover).
Proof.
  unfold rehover. intros H.
  apply in_map_iff in H as (n1 & <- & H1).
  pose proof (set_scale_label _ _ _ _ H1) as (n2 & H2 & El).
  apply hide_labels_off in H2.
  apply in_map_iff in H1 as (n3 & E3 & _).
  destruct (Nat.eqb (nref n1) r) eqn:E; cbn [nlabel nref nscale].
  - apply Nat.eqb_eq in E. split; [auto|]. intros _. split; [reflexivity|].
    subst n1. destruct (Nat.eqb (nref n3) r) eqn:E'; cbn [nscale]; auto.
    cbn [nref] in E. apply Nat.eqb_neq in E'. contradiction.
  - apply Nat.eqb_neq in E. split.
    + rewrite El, H2. discriminate.
    + intros E'. contradiction.
Qed.

Lemma rehover_unlabelled h ns n : In n (rehover h None ns) -> nlabel n = false.
Proof. unfold rehover. apply hide_labels_off. Qed.

Lemma notes_inv_rehover ns ps h h' nx :
  notes_inv ns ps h nx ->
  (forall r, h' = Some r -> In r (refs ns)) ->
  notes_inv (rehover h h' ns) ps h' nx.
Proof.
  intros [Hnd Hfr Hpk Hhv Hlab] Hin.
  constructor; try rewrite refs_rehover; auto.
  intros r n -> Hn E. apply rehover_labelled in Hn as [_ Hn]. now apply Hn.
Qed.

Lemma inv_hover_update s h' :
  inv s -> (forall r, h' = Some r -> In r (refs (_notes s))) ->
  inv (hover_update s h').
Proof.
  intros Hi Hin. unfold inv. rewrite hover_update_notes, hover_update_hovered.
  unfold hover_update.
  destruct (option_nat_eqb (_hoveredNote s) h') eqn:E.
  - assert (_hoveredNote s = h') as <-; [|exact Hi].
    destruct (_hoveredNote s), h'; simpl in E; try discriminate; auto.
    apply Nat.eqb_eq in E. now subst.
  - cbn [_notePickables next_ref set_hoveredNote set_notes].
    now apply notes_inv_rehover.
Qed.

Lemma hover_target_member s f r :
  inv s -> hover_target s f = Some r -> In r (refs (_notes s)).
Proof.
  intros Hi. unfold hover_target.
  destruct (Nat.eqb (List.length (_notePickables s)) 0); [discriminate|].
  destruct (note_hit f) as [i|]; [|discriminate].
  destruct (nth_error (_notePickables s) i) as [o|] eqn:E; [|discriminate].
  intros [= <-]. apply (inv_pick _ _ _ _ Hi). eapply nth_error_In; eauto.
Qed.

Lemma inv_createNoteMarker s pos c o id st :
  inv s -> inv (createNoteMarker s pos c o id st).
Proof.
  intros Hi. unfold inv.
  destruct o; exact (notes_inv_create _ _ _ _ _ _ _ _ Hi).
Qed.

Lemma inv_removeNote s gone : inv s -> inv (_removeNote s gone).
Proof.
  intros Hi. destruct gone as [r|]; [|exact Hi].
  exact (notes_inv_remove _ _ _ _ r Hi).
Qed.

Lemma inv_openNoteInput s r : inv s -> inv (_openNoteInput s r).
Proof. exact (fun H => H). Qed.

Lemma inv_openDeleteConfirm s r : inv s -> inv (_openDeleteConfirm s r).
Proof.
  intros Hi. unfold inv, _openDeleteConfirm.
  destruct (_activeConfirm3D s);
    cbn [_notes _notePickables _hoveredNote next_ref set_activeConfirm3D
         set_confirmLoop set_scene set_next_ref];
    apply (notes_inv_next _ _ _ (next_ref s)); auto.
Qed.

Lemma inv_cleanup s cl : inv s -> inv (cleanup s cl).
Proof. exact (fun H => H). Qed.

Lemma inv_load_items arr : forall s i stamps,
  inv s -> inv (load_items s arr i stamps).
Proof.
  induction arr as [|item rest IH]; intros s i stamps Hi; cbn [load_items]; auto.
  destruct (item_position item); [|exact Hi].
  destruct (item_content item); [|exact Hi].
  apply IH. now apply inv_createNoteMarker.
Qed.

Lemma inv_loadNotesFromStorage s stamps :
  inv s -> inv (_loadNotesFromStorage s stamps).
Proof.
  intros Hi. unfold _loadNotesFromStorage.
  destruct (storage s) as [[| |v]|]; auto.
  destruct v; auto. now apply inv_load_items.
Qed.

Lemma inv_ext s s' :
  _notes s' = _notes s -> _notePickables s' = _notePickables s ->
  _hoveredNote s' = _hoveredNote s -> next_ref s' = next_ref s ->
  inv s -> inv s'.
Proof. unfold inv. intros -> -> -> ->. exact (fun H => H). Qed.

Lemma inv_ensure_scene s stamps : inv s -> inv (ensure_scene s stamps).
Proof.
  intros Hi. unfold ensure_scene. destruct (cube s); auto. cbn zeta.
  match goal with |- context [_notesLoaded ?x] => set (s1 := x) end.
  assert (inv s1) as H1 by (apply (inv_ext s); auto; reflexivity).
  destruct (_notesLoaded s1); [assumption|].
  apply (inv_ext (_loadNotesFromStorage s1 stamps)); try reflexivity.
  now apply inv_loadNotesFromStorage.
Qed.

Lemma inv_spawn_request s f : inv s -> inv (spawn_request s f).
Proof.
  intros Hi. unfold spawn_request.
  destruct (furnitureToSpawn f), (furnitureModel s), (_furnitureLoading s); exact Hi.
Qed.

Lemma inv_finalize s : inv s -> inv (finalizeFurniturePosition s).
Proof.
  intros Hi. unfold finalizeFurniturePosition. destruct (furnitureModel s); exact Hi.
Qed.

Lemma inv_primary_button s g target st : inv s -> inv (primary_button s g target st).
Proof.
  intros Hi. unfold primary_button. destruct g as [g|]; auto.
  destruct (button2_click g); auto.
  destruct (_hoveredNote s); [now apply inv_openDeleteConfirm|].
  destruct (_activeConfirm3D s); auto. now apply inv_createNoteMarker.
Qed.

Lemma inv_edit_button s g : inv s -> inv (edit_button s g).
Proof.
  intros Hi. unfold edit_button.
  destruct (_hoveredNote s), g as [g|]; auto. now destruct (button1_click g).
Qed.

Lemma inv_squeeze_button s g : inv s -> inv (squeeze_button s g).
Proof.
  intros Hi. unfold squeeze_button.
  destruct (_hoveredNote s) as [r|], g as [g|]; auto.
  destruct (squeeze_click g); auto. now apply (inv_removeNote s (Some r)).
Qed.

Lemma inv_drive_body s target : inv s -> inv (drive_body s target).
Proof.
  intros Hi. unfold drive_body. destruct target as [t|]; [|exact Hi].
  cbn zeta. match goal with |- context [if ?c then _ else _] => destruct c end; exact Hi.
Qed.

Lemma inv_rotate_and_step s g dt : inv s -> inv (rotate_and_step s g dt).
Proof.
  intros Hi. unfold rotate_and_step. cbn zeta.
  match goal with |- context [if ?c then _ else _] => destruct c end; exact Hi.
Qed.

Lemma inv_refresh_labels s dt : inv s -> inv (refresh_labels s dt).
Proof. intros Hi. unfold inv, refresh_labels. now apply notes_inv_map. Qed.

Lemma inv_run_confirm_loop s f : inv s -> inv (run_confirm_loop s f).
Proof.
  intros Hi. unfold run_confirm_loop, confirm_onFrame.
  destruct (_confirmLoop s) as [cl|]; auto.
  destruct (right f) as [c|]; auto.
  destruct (targetRaySpace c); auto.
  destruct (gamepadWrapper c) as [g|]; auto.
  destruct (button1_click g); auto.
  destruct (over_confirm f).
  - apply inv_cleanup. now apply inv_removeNote.
  - destruct (over_cancel f); auto.
Qed.

Lemma inv_with_controller s c f : inv s -> inv (state_of (with_controller s c f)).
Proof.
  intros Hi. unfold with_controller. cbn zeta.
  match goal with |- context [hover_update ?x ?h] =>
    assert (inv (hover_update x h)) as Hh
  end.
  { assert (inv (match gamepadWrapper c with
                 | Some g' => if trigger_down g' then finalizeFurniturePosition s else s
                 | None => s
                 end)) as Hf.
    { destruct (gamepadWrapper c) as [g|]; auto.
      destruct (trigger_down g); auto. now apply inv_finalize. }
    apply inv_hover_update; auto.
    intros r Hr. eapply hover_target_member; eauto. }
  match goal with |- context [drive_body ?x ?t] =>
    assert (inv (drive_body x t)) as Hd
  end.
  { apply inv_drive_body, inv_squeeze_button, inv_edit_button.
    now apply inv_primary_button. }
  destruct (gamepadWrapper c) as [g|]; cbn [state_of]; auto.
  now apply inv_run_confirm_loop, inv_refresh_labels, inv_rotate_and_step.
Qed.

Lemma inv_update s f stamps : inv s -> inv (state_of (update s f stamps)).
Proof.
  intros Hi. unfold update. destruct (rapier s); cbn [negb state_of]; auto.
  cbn zeta.
  assert (inv (spawn_request (ensure_scene s stamps) f)) as Hs
    by now apply inv_spawn_request, inv_ensure_scene.
  destruct (right f) as [c|]; [destruct (targetRaySpace c)|]; cbn [state_of]; auto.
  now apply inv_with_controller.
Qed.

Lemma inv_init stored : inv (init stored).
Proof.
  constructor; cbn; try constructor; try discriminate; intros; contradiction.
Qed.

Lemma inv_editor_save s input : inv s -> inv (editor_save s input).
Proof.
  intros Hi. unfold editor_save. destruct (_activeNoteInput s) as [r|]; auto.
  unfold inv.
  cbn [_notes _notePickables _hoveredNote next_ref set_activeNoteInput
       _saveNotesToStorage set_storage set_notes].
  apply notes_inv_map; auto; intros n; now destruct (Nat.eqb (nref n) r).
Qed.

Lemma inv_handle s e : inv s -> inv (handle s e).
Proof.
  intros Hi. destruct e; cbn [handle].
  - destruct (rapier s); exact Hi.
  - now apply inv_update.
  - unfold plane_added, onPlaneAdded. destruct (cube s); auto.
    destruct (String.eqb (orientation pl) "vertical"); [exact Hi|].
    destruct (String.eqb (semanticLabel pl) "floor"); auto.
    destruct (probe pl); [exact Hi|auto].
  - apply (notes_inv_next _ _ _ (next_ref s)); [cbn; lia|exact Hi].
  - now apply inv_editor_save.
  - exact Hi.
  - unfold editor_remove. destruct (_activeNoteInput s) as [r|]; auto.
    exact (inv_removeNote s (Some r) Hi).
Qed.

Lemma inv_run es : forall s, inv s -> inv (run s es).
Proof.
  induction es as [|e es IH]; intros s Hi; cbn [run fold_left]; auto.
  apply IH. now apply inv_handle.
Qed.

Lemma reachable_inv s : reachable s -> inv s.
Proof. intros (stored & es & ->). apply inv_run, inv_init. Qed.

(** ** Hover and removal *)

Lemma filter_all {A} (p : A -> bool) l :
  (forall x, In x l -> p x = true) -> filter p l = l.
Proof.
  induction l as [|a l IH]; simpl; intros H; auto.
  rewrite (H a (or_introl eq_refl)), IH; auto.
Qed.

Lemma same_ref_same_note ns n m :
  NoDup (refs ns) -> In n ns -> In m ns -> nref n = nref m -> n = m.
Proof.
  induction ns as [|a ns IH]; simpl; intros Hnd Hn Hm E; [contradiction|].
  inversion Hnd as [|? ? Hna Hnd']; subst.
  destruct Hn as [->|Hn], Hm as [->|Hm]; auto.
  - elim Hna. rewrite E. now apply in_refs.
  - elim Hna. rewrite <- E. now apply in_refs.
Qed.

Lemma option_nat_eqb_neq a b : a <> b -> option_nat_eqb a b = false.
Proof.
  intros H. destruct a as [x|], b as [y|]; cbn; auto; [|now elim H].
  apply Nat.eqb_neq. intros ->. now elim H.
Qed.

(** X1. At every observable point the hover slot is empty or holds exactly
    one note, a member of the note collection, and the halo of that note is
    at the highlighted scale; a change of the hovered note (lines 207-217)
    leaves the label of the new hovered note visible and no other; removing
    the hovered note empties the slot in the same remove operation. (What
    the update of a label surface at the end of the frame makes of its
    visibility is not in the code.) *)
Theorem hover_invariant (s : sys) :
  reachable s ->
  (forall r, _hoveredNote s = Some r ->
     exists n, In n (_notes s) /\ nref n = r /\
               (forall m, In m (_notes s) -> nref m = r -> m = n) /\
               nscale n = scale_hover) /\
  (forall h, h <> _hoveredNote s ->
     forall n, In n (_notes (hover_update s h)) ->
               (nlabel n = true <-> h = Some (nref n))) /\
  _hoveredNote (_removeNote s (_hoveredNote s)) = None.
Proof.
  intros Hr. apply reachable_inv in Hr.
  destruct Hr as [Hnd Hfr Hpk Hhv Hlab].
  split; [|split].
  - intros r E. pose proof (Hhv r E) as Hin.
    apply in_map_iff in Hin as (n & En & Hn).
    exists n. split; [exact Hn|]. split; [exact En|]. split.
    + intros m Hm Em. apply (same_ref_same_note (_notes s)); auto. congruence.
    + exact (Hlab r n E Hn En).
  - intros h Hh n Hn. rewrite hover_update_notes in Hn.
    rewrite option_nat_eqb_neq in Hn by (intros E; now elim Hh).
    destruct h as [r|].
    + apply rehover_labelled in Hn as [H1 H2]. split.
      * intros L. now rewrite (H1 L).
      * intros [= ->]. now apply H2.
    + apply rehover_unlabelled in Hn. rewrite Hn. split; discriminate.
  - destruct (_hoveredNote s) eqn:E; [reflexivity|exact E].
Qed.

Lemma setItem_synced old data :
  old = Some (RawJson (to_json data)) -> setItem old data = old.
Proof. intros ->. unfold setItem. now destruct (setItem_throws _ _). Qed.

Lemma setItem_lands old data :
  setItem_throws old (to_json data) = false ->
  setItem old data = Some (RawJson (to_json data)).
Proof. intros H. unfold setItem. now rewrite H. Qed.

(** C3, as amended. [remove] with a null note changes nothing at all. With
    a note that is not in the collection (removed before, or never in it) it
    returns normally and leaves the note collection and the pickables as they
    are, and the store too whenever the store holds the current collection.
    (The hover slot is not part of it.) *)
Theorem remove_absent_note (s : sys) (r : nat) :
  reachable s -> ~ In r (refs (_notes s)) ->
  _removeNote s None = s /\
  _notes (_removeNote s (Some r)) = _notes s /\
  _notePickables (_removeNote s (Some r)) = _notePickables s /\
  (synced s -> storage (_removeNote s (Some r)) = storage s).
Proof.
  intros Hr Hnot. apply reachable_inv in Hr.
  assert (filter (fun n => negb (Nat.eqb (nref n) r)) (_notes s) = _notes s) as En.
  { apply filter_all. intros n Hn. apply negb_true_iff, Nat.eqb_neq.
    intros E. apply Hnot. rewrite <- E. now apply in_refs. }
  split; [reflexivity|].
  cbn [_removeNote _notes _notePickables storage _saveNotesToStorage set_storage
       set_hoveredNote set_notes set_notePickables set_scene].
  rewrite En. split; [reflexivity|]. split.
  - apply filter_all. intros o Ho. apply negb_true_iff, Nat.eqb_neq.
    intros E. apply Hnot. rewrite <- E. now apply (inv_pick _ _ _ _ Hr).
  - intros Hs. now apply setItem_synced.
Qed.

(** ** The primary button *)

(** The handler of the primary button, lines 219-229, on the state it is
    reached in. *)
Lemma primary_button_handler (s : sys) (g : gamepad) (target : option vec3)
    (st : jsnum * jsnum) :
  button2_click g = true ->
  let s' := primary_button s (Some g) target st in
  (forall r, _hoveredNote s = Some r ->
     s' = _openDeleteConfirm s r /\ _notes s' = _notes s /\
     exists a, _activeConfirm3D s' = Some a /\
               _confirmLoop s' = Some (ConfirmLoop r a) /\
               In (ConfirmAnchor a) (scene s')) /\
  (_hoveredNote s = None -> _activeConfirm3D s = None ->
     exists n, _notes s' = _notes s ++ [n] /\
               npos n = placement_of s target /\ ncontent n = str "" /\
               nref n = next_ref s /\
               _activeNoteInput s' = Some (nref n) /\
               _activeConfirm3D s' = None /\ _confirmLoop s' = _confirmLoop s) /\
  (forall a, _hoveredNote s = None -> _activeConfirm3D s = Some a -> s' = s).
Proof.
  intros Hb s'. subst s'. unfold primary_button. rewrite Hb.
  split; [|split].
  - intros r ->. split; [reflexivity|]. split.
    + unfold _openDeleteConfirm. now destruct (_activeConfirm3D s).
    + unfold _openDeleteConfirm. destruct (_activeConfirm3D s) as [a0|].
      * eexists. split; [reflexivity|]. split; [reflexivity|].
        cbn [scene set_activeConfirm3D set_confirmLoop set_scene set_next_ref].
        apply in_or_app. right. now left.
      * eexists. split; [reflexivity|]. split; [reflexivity|].
        cbn [scene set_activeConfirm3D set_confirmLoop set_scene set_next_ref].
        apply in_or_app. right. now left.
  - intros -> Ha. rewrite Ha. eexists. split; [reflexivity|].
    cbn [npos ncontent nref]. repeat split; auto.
  - intros a -> ->. reflexivity.
Qed.

(** ** The delete-confirmation loop *)

(** C9, as amended. While the dialog is active its own tick looks at the
    confirm and cancel targets only and reacts to button A (BUTTON_1, the
    button that elsewhere opens the editor) only: a click over confirm
    removes the target note and tears the dialog down; a click over cancel
    and not over confirm tears the dialog down and leaves the collection,
    the pickables, the hover slot and the store as they are; a click over
    neither, or no click of that button, changes nothing. *)
Theorem confirm_loop_outcomes (s : sys) (cl : confirm_loop) (f : frame)
    (c : controller) (g : gamepad) :
  right f = Some c -> targetRaySpace c = true -> gamepadWrapper c = Some g ->
  let s' := confirm_onFrame s cl f in
  (button1_click g = true -> over_confirm f = true ->
     s' = cleanup (_removeNote s (Some (cl_note cl))) cl /\
     ~ In (cl_note cl) (refs (_notes s')) /\
     _activeConfirm3D s' = None /\ _confirmLoop s' = None /\
     ~ In (ConfirmAnchor (cl_anchor cl)) (scene s')) /\
  (button1_click g = true -> over_confirm f = false -> over_cancel f = true ->
     _notes s' = _notes s /\ _notePickables s' = _notePickables s /\
     _hoveredNote s' = _hoveredNote s /\ storage s' = storage s /\
     _activeConfirm3D s' = None /\ _confirmLoop s' = None /\
     ~ In (ConfirmAnchor (cl_anchor cl)) (scene s')) /\
  (button1_click g = true -> over_confirm f = false -> over_cancel f = false ->
     s' = s) /\
  (button1_click g = false -> s' = s).
Proof.
  intros Hc Ht Hg s'. subst s'. unfold confirm_onFrame. rewrite Hc, Ht, Hg.
  assert (forall sc a, ~ In (ConfirmAnchor a) (scene_remove sc (ConfirmAnchor a)))
    as Hgone.
  { intros sc a Hin. apply filter_In in Hin as [_ Hin].
    cbn in Hin. now rewrite Nat.eqb_refl in Hin. }
  split; [|split; [|split]].
  - intros -> ->. split; [reflexivity|]. split; [|split; [|split]];
      try reflexivity; [|apply Hgone].
    cbn [cleanup _removeNote _notes _saveNotesToStorage set_storage set_hoveredNote
         set_notes set_notePickables set_scene set_activeConfirm3D set_confirmLoop].
    intros Hin. apply in_map_iff in Hin as (n & E & Hn).
    apply filter_In in Hn as [_ Hn]. rewrite E, Nat.eqb_refl in Hn. discriminate.
  - intros -> -> ->. repeat (split; [reflexivity|]). apply Hgone.
  - now intros -> -> ->.
  - now intros ->.
Qed.

(** ** The placement finalizer *)

Lemma find_app_some {A} (p : A -> bool) l m x :
  find p l = Some x -> find p (l ++ m) = Some x.
Proof.
  induction l as [|a l IH]; simpl; [discriminate|].
  destruct (p a); auto.
Qed.

Lemma find_map_body bs h (f : body -> body) b :
  (forall x, bhandle (f x) = bhandle x) ->
  find (fun x => Nat.eqb (bhandle x) h) bs = Some b ->
  find (fun x => Nat.eqb (bhandle x) h)
       (map (fun x => if Nat.eqb (bhandle x) h then f x else x) bs)
  = Some (f b).
Proof.
  intros Hf. induction bs as [|a bs IH]; simpl; [discriminate|].
  destruct (Nat.eqb (bhandle a) h) eqn:E.
  - intros [= ->]. now rewrite Hf, E.
  - rewrite E. exact IH.
Qed.

Lemma find_body_map_body w h f b :
  (forall x, bhandle (f x) = bhandle x) ->
  find_body w h = Some b -> find_body (map_body w h f) h = Some (f b).
Proof. intros Hf. unfold find_body, map_body. cbn [bodies]. now apply find_map_body. Qed.

Lemma find_body_reset w h b t :
  find_body w h = Some b ->
  find_body (setAngvel (setLinvel (setTranslation w h t) h vzero) h vzero) h
  = Some (Body (bhandle b) (bfixed b) t (brot b) vzero vzero).
Proof.
  intros H. unfold setAngvel, setLinvel, setTranslation.
  eapply eq_trans;
    [apply find_body_map_body; [reflexivity|];
     apply find_body_map_body; [reflexivity|];
     apply find_body_map_body; [reflexivity|exact H]
    |reflexivity].
Qed.

(** C7, as amended. With no visual model attached, finalize returns the
    state it was given: body and collider counts unchanged, nothing thrown.
    With a model attached, the model goes under the scene and is no longer
    attached to the carried object; exactly one fixed rigid body is made, at
    the carrying body's translation and rotation, with one box collider on
    it; and the carrying body is put back at the spawn position with zero
    linear and angular velocity, its rotation kept. *)
Theorem finalize_outcomes (s : sys) :
  (furnitureModel s = None -> finalizeFurniturePosition s = s) /\
  (forall m b, furnitureModel s = Some m ->
     find_body (pworld s) (rigidBody s) = Some b ->
     let s' := finalizeFurniturePosition s in
     let h := next_handle (pworld s) in
     scene s' = scene s ++ [PlacedModel m] /\
     furnitureModel s' = None /\
     bodies (pworld s')
     = map (fun x => if Nat.eqb (bhandle x) (rigidBody s) then recycled x else x)
           (bodies (pworld s) ++ [Body h true (btrans b) (brot b) vzero vzero]) /\
     List.length (bodies (pworld s')) = S (List.length (bodies (pworld s))) /\
     colliders (pworld s')
     = colliders (pworld s)
       ++ [Collider (S h) BodyBox box vzero quat_id (Some (Fin (1 # 2)%Q)) (Some h)] /\
     find_body (pworld s') (rigidBody s) = Some (recycled b)).
Proof.
  split.
  - intros H. unfold finalizeFurniturePosition. now rewrite H.
  - intros m b Hm Hb s' h. subst s' h. unfold finalizeFurniturePosition.
    rewrite Hm. unfold translation, rotation.
    cbn [pworld rigidBody set_furnitureModel set_scene]. rewrite Hb.
    cbn [createRigidBody createCollider setTranslation setLinvel setAngvel
         map_body bodies colliders timestep next_handle calls scene
         furnitureModel pworld set_pworld].
    split; [reflexivity|]. split; [reflexivity|].
    assert (forall l,
      map (fun x => if Nat.eqb (bhandle x) (rigidBody s)
                    then Body (bhandle x) (bfixed x) (btrans x) (brot x) (blinvel x) vzero
                    else x)
        (map (fun x => if Nat.eqb (bhandle x) (rigidBody s)
                       then Body (bhandle x) (bfixed x) (btrans x) (brot x) vzero (bangvel x)
                       else x)
           (map (fun x => if Nat.eqb (bhandle x) (rigidBody s)
                          then Body (bhandle x) (bfixed x) spawn (brot x) (blinvel x) (bangvel x)
                          else x) l))
      = map (fun x => if Nat.eqb (bhandle x) (rigidBody s) then recycled x else x) l)
      as Hmap.
    { intros l. rewrite !map_map. apply map_ext. intros x.
      destruct (Nat.eqb (bhandle x) (rigidBody s)) eqn:E; cbn [bhandle];
        rewrite ?E; cbn [bhandle]; rewrite ?E; reflexivity. }
    rewrite Hmap. split; [reflexivity|]. split.
    + rewrite length_map, length_app. simpl. lia.
    + split; [reflexivity|].
      apply find_body_reset. unfold find_body. cbn [bodies].
      now apply find_app_some.
Qed.

(** ** What the note operations leave alone *)

Lemma phys_createNoteMarker s pos c o id st :
  phys (createNoteMarker s pos c o id st) = phys s.
Proof. unfold createNoteMarker. neutral. Qed.

Lemma phys_removeNote s gone : phys (_removeNote s gone) = phys s.
Proof. unfold _removeNote. neutral. Qed.

Lemma phys_openDeleteConfirm s r : phys (_openDeleteConfirm s r) = phys s.
Proof. unfold _openDeleteConfirm. neutral. Qed.

Lemma phys_load_items arr : forall s i stamps,
  phys (load_items s arr i stamps) = phys s.
Proof.
  induction arr as [|item rest IH]; intros s i stamps; cbn [load_items]; auto.
  destruct (item_position item); [|reflexivity].
  destruct (item_content item); [|reflexivity].
  now rewrite IH, phys_createNoteMarker.
Qed.

Lemma phys_loadNotesFromStorage s stamps :
  phys (_loadNotesFromStorage s stamps) = phys s.
Proof.
  unfold _loadNotesFromStorage.
  destruct (storage s) as [[| |v]|]; auto. destruct v; auto.
  apply phys_load_items.
Qed.

Lemma phys_hover_update s h : phys (hover_update s h) = phys s.
Proof. unfold hover_update. neutral. Qed.

Lemma phys_primary_button s g target st :
  phys (primary_button s g target st) = phys s.
Proof.
  unfold primary_button. destruct g as [g|]; auto.
  destruct (button2_click g); auto.
  destruct (_hoveredNote s); [apply phys_openDeleteConfirm|].
  destruct (_activeConfirm3D s); [reflexivity|apply phys_createNoteMarker].
Qed.

Lemma phys_edit_button s g : phys (edit_button s g) = phys s.
Proof. unfold edit_button, _openNoteInput. neutral. Qed.

Lemma phys_squeeze_button s g : phys (squeeze_button s g) = phys s.
Proof.
  unfold squeeze_button. destruct (_hoveredNote s), g as [g|]; auto.
  destruct (squeeze_click g); [apply phys_removeNote|reflexivity].
Qed.

Lemma phys_run_confirm_loop s f : phys (run_confirm_loop s f) = phys s.
Proof.
  unfold run_confirm_loop, confirm_onFrame.
  destruct (_confirmLoop s) as [cl|]; auto.
  destruct (right f) as [c|]; auto.
  destruct (targetRaySpace c); auto.
  destruct (gamepadWrapper c) as [g|]; auto.
  destruct (button1_click g); auto.
  destruct (over_confirm f); [|destruct (over_cancel f); reflexivity].
  transitivity (phys (_removeNote s (Some (cl_note cl)))); [reflexivity|].
  apply phys_removeNote.
Qed.

Lemma phys_refresh_labels s dt : phys (refresh_labels s dt) = phys s.
Proof. reflexivity. Qed.

Lemma phys_spawn_request s f : phys (spawn_request s f) = phys s.
Proof. unfold spawn_request. neutral. Qed.

Lemma phys_buttons s g target st h :
  phys (squeeze_button (edit_button (primary_button (hover_update s h) g target st) g) g)
  = phys s.
Proof.
  now rewrite phys_squeeze_button, phys_edit_button, phys_primary_button,
    phys_hover_update.
Qed.

(** ** Stepping the world *)

Lemma phys_ensure_scene_world s stamps :
  pworld (ensure_scene s stamps) = pworld s /\
  rigidBody (ensure_scene s stamps) = rigidBody s /\
  floorCollider (ensure_scene s stamps) = floorCollider s /\
  rapier (ensure_scene s stamps) = rapier s.
Proof.
  unfold ensure_scene. destruct (cube s); auto. cbn zeta.
  match goal with |- context [_notesLoaded ?x] => set (s1 := x) end.
  destruct (_notesLoaded s1); [auto|].
  pose proof (phys_loadNotesFromStorage s1 stamps) as H.
  unfold phys in H. injection H as Hr _ Hw Hf Hb _.
  cbn [pworld rigidBody floorCollider rapier set_notesLoaded].
  rewrite Hw, Hf, Hb, Hr. auto.
Qed.

Lemma calls_finalize s :
  calls (pworld (finalizeFurniturePosition s)) = calls (pworld s) /\
  rigidBody (finalizeFurniturePosition s) = rigidBody s.
Proof. unfold finalizeFurniturePosition. destruct (furnitureModel s); auto. Qed.

Lemma calls_drive_body s target :
  calls (pworld (drive_body s target)) = translation_calls s target ++ calls (pworld s) /\
  rigidBody (drive_body s target) = rigidBody s.
Proof.
  unfold drive_body, translation_calls. destruct target as [t|]; auto.
  cbn zeta. cbn [pworld rigidBody set_marker_pos set_marker_visible].
  destruct (jlt _ arrival_epsilon); auto.
Qed.

Lemma calls_rotate_and_step s g dt :
  calls (pworld (rotate_and_step s g dt))
  = Step dt :: ApplyTorqueImpulse (torque_of g) :: calls (pworld s) /\
  timestep (pworld (rotate_and_step s g dt)) = dt.
Proof.
  unfold rotate_and_step. cbn zeta.
  match goal with |- context [if ?c then _ else _] => destruct c end; auto.
Qed.

Lemma phys_world {s s'} : phys s' = phys s ->
  pworld s' = pworld s /\ rigidBody s' = rigidBody s.
Proof. unfold phys. intros [= _ _ Hw _ Hb _]. auto. Qed.

(** C6, as amended. On every frame after physics initialization in which
    the right controller has a target ray space and a gamepad, [update]
    returns having stepped the world exactly once, with the frame's elapsed
    time as the step size, right after a torque impulse about the vertical
    axis of the thumbstick value times the rotation constant; this does not
    depend on a target point, which only decides whether a translation
    impulse comes before them. *)
Theorem frame_steps_once (s : sys) (f : frame) (stamps : nat -> jsnum * jsnum)
    (c : controller) (g : gamepad) :
  rapier s = true ->
  right f = Some c -> targetRaySpace c = true -> gamepadWrapper c = Some g ->
  exists s' tc,
    update s f stamps = Returned s' /\
    calls (pworld s')
    = Step (delta f) :: ApplyTorqueImpulse (torque_of g) :: tc ++ calls (pworld s) /\
    timestep (pworld s') = delta f /\
    (floor_hit f = None -> tc = []) /\
    (forall x, In x tc -> exists i, x = ApplyImpulse i) /\
    List.length tc <= 1.
Proof.
  intros Hr Hc Ht Hg. unfold update. rewrite Hr, Hc, Ht. cbn [negb].
  unfold with_controller. rewrite Hg. cbn zeta.
  set (s1 := spawn_request (ensure_scene s stamps) f).
  set (sF := if trigger_down g then finalizeFurniturePosition s1 else s1).
  set (sB := squeeze_button (edit_button (primary_button
               (hover_update sF (hover_target sF f)) (Some g) (floor_hit f)
               (stamp f)) (Some g)) (Some g)).
  exists (run_confirm_loop
            (refresh_labels (rotate_and_step (drive_body sB (floor_hit f)) g (delta f))
               (delta f)) f),
         (translation_calls sB (floor_hit f)).
  split; [reflexivity|].
  destruct (phys_world (phys_run_confirm_loop
              (refresh_labels
                 (rotate_and_step (drive_body sB (floor_hit f)) g (delta f))
                 (delta f)) f))
    as [-> _].
  change (pworld (refresh_labels
                    (rotate_and_step (drive_body sB (floor_hit f)) g (delta f))
                    (delta f)))
    with (pworld (rotate_and_step (drive_body sB (floor_hit f)) g (delta f))).
  destruct (calls_rotate_and_step (drive_body sB (floor_hit f)) g (delta f))
    as [-> ->].
  destruct (calls_drive_body sB (floor_hit f)) as [-> _].
  assert (calls (pworld sB) = calls (pworld s)) as ->.
  { subst sB.
    destruct (phys_world (phys_buttons sF (Some g) (floor_hit f) (stamp f)
                            (hover_target sF f))) as [-> _].
    assert (calls (pworld sF) = calls (pworld s1)) as ->.
    { subst sF. destruct (trigger_down g); auto. apply calls_finalize. }
    subst s1. destruct (phys_world (phys_spawn_request (ensure_scene s stamps) f))
      as [-> _].
    now destruct (phys_ensure_scene_world s stamps) as [-> _]. }
  split; [reflexivity|]. split; [reflexivity|].
  unfold translation_calls. destruct (floor_hit f) as [t|].
  - cbn zeta. destruct (jlt _ arrival_epsilon).
    + split; [discriminate|]. split; [intros x []|simpl; lia].
    + split; [discriminate|]. split; [|simpl; lia].
      intros x [<-|[]]. eauto.
  - split; [reflexivity|]. split; [intros x []|simpl; lia].
Qed.

(** ** Exactly one floor collider *)

Lemma world_inv_ext s s' : fview s' = fview s -> world_inv s -> world_inv s'.
Proof.
  unfold fview, world_inv, floor_ok, handles_ok, floor_colliders.
  intros [= -> -> -> -> -> ->]. exact (fun H => H).
Qed.

Lemma phys_fview s s' : phys s' = phys s -> fview s' = fview s.
Proof. unfold phys, fview. now intros [= -> -> -> -> _ ->]. Qed.

Lemma world_inv_phys s s' : phys s' = phys s -> world_inv s -> world_inv s'.
Proof. intros H. apply world_inv_ext. now apply phys_fview. Qed.

Lemma filter_filter_swap {A} (p q : A -> bool) l :
  filter p (filter q l) = filter q (filter p l).
Proof.
  induction l as [|a l IH]; simpl; auto.
  destruct (p a) eqn:Ep, (q a) eqn:Eq; simpl; rewrite ?Ep, ?Eq, IH; auto.
Qed.

Lemma world_inv_init stored : world_inv (init stored).
Proof. repeat split; auto; discriminate. Qed.

Lemma world_inv_loaded s :
  world_inv s -> rapier s = false -> world_inv (on_rapier_loaded s).
Proof.
  intros (H0 & _ & Hc) Hr. pose proof (Hc Hr) as Hcube.
  split; [|split].
  - intros _. exact (H0 Hcube).
  - intros _. split.
    + eexists. split; [reflexivity|]. split; [reflexivity|].
      symmetry. exact (H0 Hcube).
    + intros c Hin. cbn in Hin. destruct Hin as [<-|[<-|[]]]; cbn; lia.
  - intros Hf. cbn in Hf. discriminate.
Qed.

Lemma world_inv_ensure_scene s stamps :
  world_inv s -> rapier s = true -> world_inv (ensure_scene s stamps).
Proof.
  intros Hw Hr. unfold ensure_scene. destruct (cube s) eqn:Ec; auto. cbn zeta.
  match goal with |- context [_notesLoaded ?x] => set (s1 := x) end.
  assert (world_inv s1) as H1.
  { destruct Hw as (H0 & Hf & _). destruct (Hf Hr) as [(c & Hc & Hh & Hy) Hk].
    repeat split; try discriminate; auto.
    - exists c. split; [exact Hc|]. split; [exact Hh|].
      rewrite Hy. exact (H0 Ec).
    - cbn. congruence. }
  destruct (_notesLoaded s1); [exact H1|].
  apply (world_inv_phys (_loadNotesFromStorage s1 stamps)); [reflexivity|].
  apply (world_inv_phys s1); auto. apply phys_loadNotesFromStorage.
Qed.

Lemma world_inv_finalize s : world_inv s -> world_inv (finalizeFurniturePosition s).
Proof.
  intros Hw. unfold finalizeFurniturePosition. destruct (furnitureModel s); auto.
  destruct Hw as (H0 & Hf & Hc). repeat split; auto.
  - destruct (Hf H) as [(c & Hfl & Hh & Hy) _]. exists c.
    split; [|split; [exact Hh|exact Hy]].
    unfold floor_colliders in *. cbn. rewrite filter_app, Hfl. reflexivity.
  - destruct (Hf H) as [_ Hk]. intros c Hin. cbn in Hin |- *.
    apply in_app_or in Hin as [Hin|[<-|[]]]; [apply Hk in Hin|cbn]; lia.
Qed.

Lemma fview_drive_body s target : fview (drive_body s target) = fview s.
Proof.
  unfold drive_body. destruct target as [t|]; [|reflexivity]. cbn zeta.
  match goal with |- context [if ?c then _ else _] => destruct c end; reflexivity.
Qed.

Lemma fview_rotate_and_step s g dt : fview (rotate_and_step s g dt) = fview s.
Proof.
  unfold rotate_and_step. cbn zeta.
  match goal with |- context [if ?c then _ else _] => destruct c end; reflexivity.
Qed.

Lemma floor_replaced s hit :
  floor_ok s -> handles_ok s ->
  let w := removeCollider (pworld s) (floorCollider s) in
  floor_colliders (fst (createCollider w FloorSlab slab
                          (Vec3 (num_of_Z 0) (vy hit) (num_of_Z 0)) quat_id
                          (Some (Fin (1 # 2)%Q)) None))
  = [new_floor (next_handle (pworld s)) (vy hit)] /\
  (forall c, In c (colliders w) ->
     chandle c <> floorCollider s /\ chandle c < next_handle (pworld s)).
Proof.
  intros (c & Hc & Hh & _) Hk w. subst w. split.
  - unfold floor_colliders in *. cbn. rewrite filter_app, filter_filter_swap, Hc.
    cbn. rewrite Hh, Nat.eqb_refl. reflexivity.
  - intros x Hx. cbn in Hx. apply filter_In in Hx as [Hx Hne]. split.
    + now apply Nat.eqb_neq, negb_true_iff.
    + now apply Hk.
Qed.

Lemma world_inv_onPlaneAdded s pl :
  world_inv s -> rapier s = true -> cube s = true ->
  world_inv (onPlaneAdded s pl).
Proof.
  intros Hw Hr Hcb. pose proof Hw as (H0 & Hf & Hc).
  destruct (Hf Hr) as [Hfl Hk]. unfold onPlaneAdded.
  destruct (String.eqb (orientation pl) "vertical").
  - split; [exact H0|split; [|exact Hc]]. intros _. split.
    + destruct Hfl as (c & Hfc & Hh & Hy). exists c.
      split; [|split; [exact Hh|exact Hy]].
      unfold floor_colliders in *. cbn. rewrite filter_app, Hfc. reflexivity.
    + intros c Hin. cbn in Hin |- *.
      apply in_app_or in Hin as [Hin|[<-|[]]]; [apply Hk in Hin|cbn]; lia.
  - destruct (String.eqb (semanticLabel pl) "floor"); [|exact Hw].
    destruct (probe pl) as [hit|]; [|exact Hw].
    destruct (floor_replaced s hit Hfl Hk) as [Hnew Hold].
    split; [|split; [|exact Hc]].
    + intros Hcube. cbn in Hcube. congruence.
    + intros _. split.
      * exists (new_floor (next_handle (pworld s)) (vy hit)).
        split; [exact Hnew|]. split; reflexivity.
      * intros c Hin. cbn in Hin |- *.
        apply in_app_or in Hin as [Hin|[<-|[]]]; [|cbn; lia].
        apply Hold in Hin. lia.
Qed.

Lemma world_inv_plane_added s pl : world_inv s -> world_inv (plane_added s pl).
Proof.
  intros Hw. unfold plane_added. destruct (cube s) eqn:Ec; auto.
  apply world_inv_onPlaneAdded; auto.
  destruct (rapier s) eqn:Er; auto.
  destruct Hw as (_ & _ & Hc). rewrite (Hc Er) in Ec. discriminate.
Qed.

Lemma world_inv_with_controller s c f :
  world_inv s -> world_inv (state_of (with_controller s c f)).
Proof.
  intros Hw. unfold with_controller. cbn zeta.
  set (sF := match gamepadWrapper c with
             | Some g' => if trigger_down g' then finalizeFurniturePosition s else s
             | None => s
             end).
  assert (world_inv sF) as HF.
  { subst sF. destruct (gamepadWrapper c) as [g|]; auto.
    destruct (trigger_down g); auto. now apply world_inv_finalize. }
  set (sB := squeeze_button _ _).
  assert (world_inv sB) as HB.
  { apply (world_inv_phys sF); auto. apply phys_buttons. }
  assert (world_inv (drive_body sB (floor_hit f))) as HD.
  { apply (world_inv_ext sB); auto. apply fview_drive_body. }
  destruct (gamepadWrapper c) as [g|]; cbn [state_of]; auto.
  apply (world_inv_phys
           (refresh_labels (rotate_and_step (drive_body sB (floor_hit f)) g (delta f))
              (delta f)));
    [apply phys_run_confirm_loop|].
  apply (world_inv_phys (rotate_and_step (drive_body sB (floor_hit f)) g (delta f)));
    [apply phys_refresh_labels|].
  apply (world_inv_ext (drive_body sB (floor_hit f))); auto.
  apply fview_rotate_and_step.
Qed.

Lemma world_inv_update s f stamps :
  world_inv s -> world_inv (state_of (update s f stamps)).
Proof.
  intros Hw. unfold update. destruct (rapier s) eqn:Er; cbn [negb state_of]; auto.
  cbn zeta.
  assert (world_inv (spawn_request (ensure_scene s stamps) f)) as Hs.
  { apply (world_inv_phys (ensure_scene s stamps)); [apply phys_spawn_request|].
    now apply world_inv_ensure_scene. }
  destruct (right f) as [c|]; [destruct (targetRaySpace c)|]; cbn [state_of];
    try (apply (world_inv_ext (spawn_request (ensure_scene s stamps) f));
         [reflexivity|exact Hs]).
  now apply world_inv_with_controller.
Qed.

Lemma world_inv_handle s e : world_inv s -> world_inv (handle s e).
Proof.
  intros Hw. destruct e; cbn [handle].
  - destruct (rapier s) eqn:Er; auto. now apply world_inv_loaded.
  - now apply world_inv_update.
  - now apply world_inv_plane_added.
  - apply (world_inv_phys s); auto.
  - apply (world_inv_phys s); auto. unfold editor_save.
    now destruct (_activeNoteInput s).
  - apply (world_inv_phys s); auto.
  - apply (world_inv_phys s); auto. unfold editor_remove.
    now destruct (_activeNoteInput s).
Qed.

Lemma reachable_world_inv s : reachable s -> world_inv s.
Proof.
  intros (stored & es & ->). unfold run.
  assert (forall s0, world_inv s0 -> world_inv (fold_left handle es s0)) as H.
  { induction es as [|e es IH]; intros s0 H0; cbn [fold_left]; auto.
    apply IH. now apply world_inv_handle. }
  apply H, world_inv_init.
Qed.

(** C4, as amended. After physics initialization the world holds exactly
    one floor collider at every observable point, the one the system tracks,
    and the visual floor is at its height. A plane reported as vertical,
    whatever its label, only adds a wall collider: the floor collider and the
    visual floor stay. A floor-labeled plane that is not vertical either
    changes nothing when the downward probe misses, or has the previous floor
    collider removed and exactly one slab put in at the probed height, the
    visual floor moved to that height. *)
Theorem floor_collider_invariant (s : sys) :
  reachable s -> rapier s = true ->
  floor_ok s /\
  forall pl, cube s = true ->
    let s' := plane_added s pl in
    floor_ok s' /\
    (orientation pl = "vertical" ->
       floor_colliders (pworld s') = floor_colliders (pworld s) /\
       floorCollider s' = floorCollider s /\ floor_y s' = floor_y s) /\
    (orientation pl <> "vertical" -> semanticLabel pl = "floor" ->
       match probe pl with
       | None => s' = s
       | Some hit =>
           floor_colliders (pworld s')
           = [new_floor (next_handle (pworld s)) (vy hit)] /\
           floorCollider s' = next_handle (pworld s) /\
           floor_y s' = vy hit /\
           forall c, In c (colliders (pworld s')) -> chandle c <> floorCollider s
       end).
Proof.
  intros Hreach Hr. apply reachable_world_inv in Hreach.
  pose proof Hreach as (_ & Hf & _). destruct (Hf Hr) as [Hfl Hk].
  split; [exact Hfl|]. intros pl Hcube s'.
  assert (world_inv s') as Hw' by (subst s'; now apply world_inv_plane_added).
  assert (rapier s' = true) as Hr'.
  { subst s'. unfold plane_added, onPlaneAdded. rewrite Hcube.
    destruct (String.eqb (orientation pl) "vertical"); [exact Hr|].
    destruct (String.eqb (semanticLabel pl) "floor"); [|exact Hr].
    destruct (probe pl); exact Hr. }
  split; [destruct Hw' as (_ & Hf' & _); now destruct (Hf' Hr')|].
  subst s'. unfold plane_added. rewrite Hcube. unfold onPlaneAdded. split.
  - intros Ev. rewrite Ev. cbn [String.eqb Ascii.eqb Bool.eqb].
    split; [|split; reflexivity].
    unfold floor_colliders. cbn. rewrite filter_app. cbn. now rewrite app_nil_r.
  - intros Hnv Hlab. apply String.eqb_neq in Hnv. rewrite Hnv, Hlab.
    cbn [String.eqb Ascii.eqb Bool.eqb].
    destruct (probe pl) as [hit|]; [|reflexivity].
    destruct (floor_replaced s hit Hfl Hk) as [Hnew Hold].
    split; [exact Hnew|]. split; [reflexivity|]. split; [reflexivity|].
    intros c Hin. cbn in Hin. apply in_app_or in Hin as [Hin|[<-|[]]].
    + now apply Hold in Hin.
    + cbn. destruct Hfl as (c0 & Hc0 & Hh0 & _).
      assert (In c0 (colliders (pworld s))) as Hin0.
      { assert (In c0 (floor_colliders (pworld s))) as H by (rewrite Hc0; now left).
        now apply filter_In in H. }
      apply Hk in Hin0. lia.
Qed.

(** ** The translation control *)

(** X2. The two branches of the translation control (the part of the arrival
    behaviour that is in the code; how the body then moves is the solver's):
    within the arrival distance the linear velocity is set to zero and no
    impulse is applied; otherwise one impulse is applied, the normalized
    displacement times the speed times the mass, and the bodies are left to
    the solver. *)
Lemma drive_body_branches (s : sys) (t : vec3) (b : body) :
  find_body (pworld s) (rigidBody s) = Some b ->
  let dir := vec_sub t (btrans b) in
  let s' := drive_body s (Some t) in
  (jlt (vec_length dir) arrival_epsilon = true ->
     calls (pworld s') = calls (pworld s) /\
     find_body (pworld s') (rigidBody s)
     = Some (Body (bhandle b) (bfixed b) (btrans b) (brot b) vzero (bangvel b))) /\
  (jlt (vec_length dir) arrival_epsilon = false ->
     calls (pworld s')
     = ApplyImpulse (vec_scale (vec_scale (vec_normalize dir) speed)
                       (body_mass (pworld s) (rigidBody s)))
       :: calls (pworld s) /\
     bodies (pworld s') = bodies (pworld s)).
Proof.
  intros Hb dir s'. subst dir s'. unfold drive_body. cbn zeta.
  cbn [pworld rigidBody set_marker_pos set_marker_visible].
  unfold translation. rewrite Hb. split; intros ->.
  - split; [reflexivity|]. cbn [pworld set_pworld]. unfold setLinvel.
    exact (find_body_map_body (pworld s) (rigidBody s)
             (fun x => Body (bhandle x) (bfixed x) (btrans x) (brot x) vzero (bangvel x))
             b (fun x => eq_refl) Hb).
  - split; reflexivity.
Qed.

(** * Every event is a sequence of steps *)

Lemma steps_one s s' : step s s' -> steps s s'.
Proof. intros H. eapply steps_cons; [exact H|apply steps_refl]. Qed.

Lemma steps_trans s1 s2 s3 : steps s1 s2 -> steps s2 s3 -> steps s1 s3.
Proof.
  induction 1 as [|a b c Hab Hbc IH]; auto.
  intros H. eapply steps_cons; [exact Hab|auto].
Qed.

Lemma steps_same s s' : view s' = view s -> steps s s'.
Proof. intros H. now apply steps_one, st_same. Qed.

Lemma load_items_steps arr : forall s i stamps, steps s (load_items s arr i stamps).
Proof.
  induction arr as [|item rest IH]; intros s i stamps; cbn [load_items].
  - apply steps_refl.
  - destruct (item_position item); [|apply steps_refl].
    destruct (item_content item); [|apply steps_refl].
    eapply steps_cons; [apply st_create|apply IH].
Qed.

Lemma loadNotes_steps s stamps : steps s (_loadNotesFromStorage s stamps).
Proof.
  unfold _loadNotesFromStorage.
  destruct (storage s) as [[| |v]|]; try apply steps_refl.
  destruct v; try apply steps_refl. apply load_items_steps.
Qed.

Lemma ensure_scene_eq s stamps :
  ensure_scene s stamps
  = if cube s then s
    else if _notesLoaded s then make_scene s
         else set_notesLoaded (_loadNotesFromStorage (make_scene s) stamps) true.
Proof. unfold ensure_scene, make_scene. cbv zeta. reflexivity. Qed.

Lemma ensure_scene_made s stamps :
  cube s = true -> ensure_scene s stamps = s.
Proof. intros H. rewrite ensure_scene_eq, H. reflexivity. Qed.

Lemma ensure_scene_loaded s stamps :
  cube s = false -> _notesLoaded s = true -> ensure_scene s stamps = make_scene s.
Proof. intros H H'. rewrite ensure_scene_eq, H, H'. reflexivity. Qed.

Lemma ensure_scene_loads s stamps :
  cube s = false -> _notesLoaded s = false ->
  ensure_scene s stamps
  = set_notesLoaded (_loadNotesFromStorage (make_scene s) stamps) true.
Proof. intros H H'. rewrite ensure_scene_eq, H, H'. reflexivity. Qed.

Lemma set_notesLoaded_steps (x : sys) b : steps x (set_notesLoaded x b).
Proof. apply steps_same. reflexivity. Qed.

Lemma ensure_scene_steps s stamps :
  rapier s = true -> steps s (ensure_scene s stamps).
Proof.
  intros Hr. destruct (cube s) eqn:Ec.
  - rewrite (ensure_scene_made s stamps Ec). apply steps_refl.
  - destruct (_notesLoaded s) eqn:En.
    + rewrite (ensure_scene_loaded s stamps Ec En).
      apply steps_one. exact (st_scene s Hr Ec).
    + rewrite (ensure_scene_loads s stamps Ec En).
      eapply steps_cons; [exact (st_scene s Hr Ec)|].
      eapply steps_trans; [apply (loadNotes_steps (make_scene s) stamps)|].
      apply set_notesLoaded_steps.
Qed.

Lemma finalize_steps s : rapier s = true -> steps s (finalizeFurniturePosition s).
Proof.
  intros Hr. destruct (furnitureModel s) as [m|] eqn:E.
  - apply steps_one. now apply (st_finalize s m).
  - unfold finalizeFurniturePosition. rewrite E. apply steps_refl.
Qed.

Lemma primary_button_steps s g target st : steps s (primary_button s g target st).
Proof.
  unfold primary_button. destruct g as [g|]; [|apply steps_refl].
  destruct (button2_click g); [|apply steps_refl].
  destruct (_hoveredNote s) as [r|] eqn:E.
  - apply steps_one. now apply st_open_confirm.
  - destruct (_activeConfirm3D s); [apply steps_refl|].
    apply steps_one, st_create.
Qed.

Lemma edit_button_steps s g : steps s (edit_button s g).
Proof.
  unfold edit_button. destruct (_hoveredNote s), g as [g|]; try apply steps_refl.
  destruct (button1_click g); [apply steps_one, st_open_input|apply steps_refl].
Qed.

Lemma squeeze_button_steps s g : steps s (squeeze_button s g).
Proof.
  unfold squeeze_button. destruct (_hoveredNote s), g as [g|]; try apply steps_refl.
  destruct (squeeze_click g); [apply steps_one, st_remove|apply steps_refl].
Qed.

Lemma drive_body_steps s target : steps s (drive_body s target).
Proof.
  apply steps_same. unfold drive_body. destruct target; [|reflexivity]. cbn zeta.
  match goal with |- context [if ?c then _ else _] => destruct c end; reflexivity.
Qed.

Lemma rotate_and_step_steps s g dt : steps s (rotate_and_step s g dt).
Proof.
  apply steps_same. unfold rotate_and_step. cbn zeta.
  match goal with |- context [if ?c then _ else _] => destruct c end; reflexivity.
Qed.

Lemma run_confirm_loop_steps s f : steps s (run_confirm_loop s f).
Proof.
  unfold run_confirm_loop, confirm_onFrame.
  destruct (_confirmLoop s) as [cl|] eqn:E; [|apply steps_refl].
  destruct (right f) as [c|]; [|apply steps_refl].
  destruct (targetRaySpace c); [|apply steps_refl].
  destruct (gamepadWrapper c) as [g|]; [|apply steps_refl].
  destruct (button1_click g); [|apply steps_refl].
  destruct (over_confirm f).
  - eapply steps_cons; [apply (st_remove s (cl_note cl))|].
    apply steps_one, st_cleanup. exact E.
  - destruct (over_cancel f); [|apply steps_refl].
    apply steps_one, st_cleanup. exact E.
Qed.

Lemma with_controller_steps s c f :
  rapier s = true -> steps s (state_of (with_controller s c f)).
Proof.
  intros Hr. unfold with_controller. cbn zeta.
  set (sF := match gamepadWrapper c with
             | Some g' => if trigger_down g' then finalizeFurniturePosition s else s
             | None => s
             end).
  assert (steps s sF) as HF.
  { subst sF. destruct (gamepadWrapper c) as [g|]; [|apply steps_refl].
    destruct (trigger_down g); [now apply finalize_steps|apply steps_refl]. }
  set (sH := hover_update sF (hover_target sF f)).
  assert (steps s sH) as HH.
  { eapply steps_trans; [exact HF|]. apply steps_one, st_hover. }
  set (sD := drive_body _ (floor_hit f)).
  assert (steps s sD) as HD.
  { eapply steps_trans; [exact HH|]. subst sD.
    eapply steps_trans; [apply primary_button_steps|].
    eapply steps_trans; [apply edit_button_steps|].
    eapply steps_trans; [apply squeeze_button_steps|].
    apply drive_body_steps. }
  destruct (gamepadWrapper c) as [g|]; cbn [state_of]; [|exact HD].
  eapply steps_trans; [exact HD|].
  eapply steps_trans; [apply rotate_and_step_steps|].
  eapply steps_cons; [apply st_refresh|apply run_confirm_loop_steps].
Qed.

Lemma spawn_request_steps x f : steps x (spawn_request x f).
Proof.
  apply steps_same. unfold spawn_request.
  destruct (furnitureToSpawn f); [|reflexivity].
  destruct (furnitureModel x); [reflexivity|].
  destruct (_furnitureLoading x); reflexivity.
Qed.

Lemma set_marker_visible_steps x b : steps x (set_marker_visible x b).
Proof. apply steps_same. reflexivity. Qed.

Lemma update_steps s f stamps : steps s (state_of (update s f stamps)).
Proof.
  unfold update. destruct (rapier s) eqn:Er; cbn [negb]; [|apply steps_refl].
  cbn zeta.
  assert (steps s (spawn_request (ensure_scene s stamps) f)) as Hs.
  { eapply steps_trans; [exact (ensure_scene_steps s stamps Er)|].
    apply spawn_request_steps. }
  destruct (right f) as [c|]; [destruct (targetRaySpace c)|]; cbn [state_of].
  - eapply steps_trans; [exact Hs|apply with_controller_steps].
    destruct (phys_world (phys_spawn_request (ensure_scene s stamps) f)) as [_ _].
    pose proof (phys_spawn_request (ensure_scene s stamps) f) as Hp.
    unfold phys in Hp. injection Hp as -> _.
    now destruct (phys_ensure_scene_world s stamps) as (_ & _ & _ & ->).
  - eapply steps_trans; [exact Hs|apply set_marker_visible_steps].
  - eapply steps_trans; [exact Hs|apply set_marker_visible_steps].
Qed.

Lemma handle_steps s e : steps s (handle s e).
Proof.
  destruct e; cbn [handle].
  - destruct (rapier s) eqn:Er; [apply steps_refl|]. now apply steps_one, st_loaded.
  - apply update_steps.
  - unfold plane_added. destruct (cube s) eqn:Ec; [|apply steps_refl].
    now apply steps_one, st_plane.
  - apply steps_one, st_gltf.
  - apply steps_one, st_save.
  - apply steps_one, st_close.
  - unfold editor_remove. destruct (_activeNoteInput s) as [r|]; [|apply steps_refl].
    eapply steps_cons; [apply (st_remove s r)|]. apply steps_one, st_close.
Qed.

Lemma run_steps es : forall s, steps s (run s es).
Proof.
  induction es as [|e es IH]; intros s; cbn [run fold_left]; [apply steps_refl|].
  eapply steps_trans; [apply handle_steps|apply IH].
Qed.

(** An invariant of the steps holds at every reachable state. *)
Lemma steps_invariant (P : sys -> Prop) :
  (forall s s', step s s' -> P s -> P s') ->
  forall s s', steps s s' -> P s -> P s'.
Proof. intros Hstep s s' H. induction H; eauto. Qed.

Lemma reachable_invariant (P : sys -> Prop) :
  (forall stored, P (init stored)) ->
  (forall s s', step s s' -> P s -> P s') ->
  forall s, reachable s -> P s.
Proof.
  intros Hinit Hstep s (stored & es & ->).
  eapply steps_invariant; [exact Hstep|apply run_steps|apply Hinit].
Qed.

(** * What the physics operations leave alone *)

Lemma nfields_same s s' : view s' = view s -> nfields s' = nfields s.
Proof.
  intros H. unfold nfields.
  pose proof (f_equal v_notes H) as H1. pose proof (f_equal v_pick H) as H2.
  pose proof (f_equal v_hover H) as H3. pose proof (f_equal v_storage H) as H4.
  pose proof (f_equal v_input H) as H5. pose proof (f_equal v_confirm H) as H6.
  pose proof (f_equal v_loop H) as H7. cbn in H1, H2, H3, H4, H5, H6, H7.
  congruence.
Qed.

Lemma nfields_loaded s : nfields (on_rapier_loaded s) = nfields s.
Proof. reflexivity. Qed.

Lemma nfields_make_scene s : nfields (make_scene s) = nfields s.
Proof. reflexivity. Qed.

Lemma nfields_finalize s : nfields (finalizeFurniturePosition s) = nfields s.
Proof. unfold finalizeFurniturePosition. now destruct (furnitureModel s). Qed.

Lemma nfields_onPlaneAdded s pl : nfields (onPlaneAdded s pl) = nfields s.
Proof.
  unfold onPlaneAdded. destruct (String.eqb (orientation pl) "vertical"); [reflexivity|].
  destruct (String.eqb (semanticLabel pl) "floor"); [|reflexivity].
  now destruct (probe pl).
Qed.

Lemma nfields_gltf s : nfields (on_gltf_loaded s) = nfields s.
Proof. reflexivity. Qed.

Lemma refresh_labels_fields s dt :
  _notePickables (refresh_labels s dt) = _notePickables s /\
  storage (refresh_labels s dt) = storage s /\
  scene (refresh_labels s dt) = scene s /\
  next_ref (refresh_labels s dt) = next_ref s /\
  _hoveredNote (refresh_labels s dt) = _hoveredNote s /\
  _activeNoteInput (refresh_labels s dt) = _activeNoteInput s /\
  _activeConfirm3D (refresh_labels s dt) = _activeConfirm3D s /\
  _confirmLoop (refresh_labels s dt) = _confirmLoop s.
Proof. repeat split. Qed.

(** To show that the steps keep a property of the note side, it is enough to
    look at the note operations. *)
Lemma step_note_invariant (P : sys -> Prop) :
  (forall s s', nfields s' = nfields s -> P s -> P s') ->
  (forall s pos c o id st, P s -> P (createNoteMarker s pos c o id st)) ->
  (forall s r, P s -> P (_removeNote s (Some r))) ->
  (forall s r, _hoveredNote s = Some r -> P s -> P (_openDeleteConfirm s r)) ->
  (forall s cl, _confirmLoop s = Some cl -> P s -> P (cleanup s cl)) ->
  (forall s f, P s -> P (hover_update s (hover_target s f))) ->
  (forall s input, P s -> P (editor_save s input)) ->
  (forall s x, P s -> P (set_activeNoteInput s x)) ->
  (forall s dt, P s -> P (refresh_labels s dt)) ->
  forall s s', step s s' -> P s -> P s'.
Proof.
  intros Hext Hc Hr Ho Hcl Hh Hs Hi Hf s s' H.
  destruct H.
  - apply Hext. now apply nfields_same.
  - apply Hext, nfields_loaded.
  - apply Hext, nfields_make_scene.
  - apply Hext, nfields_finalize.
  - apply Hext, nfields_onPlaneAdded.
  - apply Hext, nfields_gltf.
  - apply Hc.
  - apply Hr.
  - intros HP. unfold _openNoteInput. apply Hi, Hi, HP.
  - now apply Ho.
  - now apply Hcl.
  - apply Hh.
  - apply Hs.
  - apply Hi.
  - apply Hf.
Qed.

(** * Pickables, ids and the store along the steps *)

Lemma core_factor {A} (g : note -> A) (g' : nat * jsval * jsstring * vec3 -> A)
    ns ms :
  (forall n, g n = g' (core n)) ->
  map core ns = map core ms -> map g ns = map g ms.
Proof.
  intros Hg H.
  rewrite (map_ext g (fun n => g' (core n)) Hg ns).
  rewrite (map_ext g (fun n => g' (core n)) Hg ms).
  rewrite <- (map_map core g' ns), <- (map_map core g' ms). now rewrite H.
Qed.

Lemma core_refs ns ms : map core ns = map core ms -> refs ns = refs ms.
Proof. apply (core_factor nref (fun c => fst (fst (fst c)))). reflexivity. Qed.

Lemma core_ids ns ms : map core ns = map core ms -> map nid ns = map nid ms.
Proof. apply (core_factor nid (fun c => snd (fst (fst c)))). reflexivity. Qed.

Lemma core_data ns ms : map core ns = map core ms -> notes_data ns = notes_data ms.
Proof.
  intros H. unfold notes_data. f_equal. revert H.
  apply (core_factor note_data
           (fun c => VObj [(str "id", snd (fst (fst c)));
                           (str "content", VStr (snd (fst c)));
                           (str "position",
                            VArr [VNum (vx (snd c)); VNum (vy (snd c));
                                  VNum (vz (snd c))])])).
  reflexivity.
Qed.

Lemma core_map (f : note -> note) ns :
  (forall n, core (f n) = core n) -> map core (map f ns) = map core ns.
Proof. intros H. rewrite map_map. apply map_ext. exact H. Qed.

Lemma core_rehover h h' ns : map core (rehover h h' ns) = map core ns.
Proof.
  assert (forall r sc l, map core (set_scale r sc l) = map core l) as Hs.
  { intros r sc l. apply core_map. intros n. now destruct (Nat.eqb (nref n) r). }
  assert (forall r b l, map core (set_label r b l) = map core l) as Hl.
  { intros r b l. apply core_map. intros n. now destruct (Nat.eqb (nref n) r). }
  assert (forall l, map core (hide_labels l) = map core l) as Hh.
  { intros l. now apply core_map. }
  unfold rehover. destruct h' as [r'|].
  - rewrite Hl, Hs, Hh. destruct h; auto.
  - rewrite Hh. destruct h; auto.
Qed.

Lemma core_hover_update s h :
  map core (_notes (hover_update s h)) = map core (_notes s).
Proof.
  rewrite hover_update_notes.
  destruct (option_nat_eqb (_hoveredNote s) h); auto. apply core_rehover.
Qed.

Lemma core_refresh s dt :
  map core (_notes (refresh_labels s dt)) = map core (_notes s).
Proof. unfold refresh_labels. cbn [_notes set_notes]. now apply core_map. Qed.

Lemma hover_update_fields s h :
  _notePickables (hover_update s h) = _notePickables s /\
  storage (hover_update s h) = storage s /\
  scene (hover_update s h) = scene s /\
  next_ref (hover_update s h) = next_ref s /\
  _activeNoteInput (hover_update s h) = _activeNoteInput s /\
  _activeConfirm3D (hover_update s h) = _activeConfirm3D s /\
  _confirmLoop (hover_update s h) = _confirmLoop s.
Proof.
  unfold hover_update. destruct (option_nat_eqb (_hoveredNote s) h); repeat split.
Qed.

Lemma pickables_of_app ns ms : pickables_of (ns ++ ms) = pickables_of ns ++ pickables_of ms.
Proof. unfold pickables_of. now rewrite refs_app, flat_map_app. Qed.

Lemma pickables_of_filter r ns :
  filter (fun o => negb (Nat.eqb (pnote o) r)) (pickables_of ns)
  = pickables_of (filter (fun n => negb (Nat.eqb (nref n) r)) ns).
Proof.
  unfold pickables_of. induction ns as [|n ns IH]; [reflexivity|].
  cbn [refs map flat_map filter]. rewrite filter_app. fold (refs ns). rewrite IH.
  cbn [note_pickables filter pnote].
  destruct (Nat.eqb (nref n) r); cbn [negb]; reflexivity.
Qed.

Lemma nfields_fields s s' :
  nfields s' = nfields s ->
  _notes s' = _notes s /\ _notePickables s' = _notePickables s /\
  _hoveredNote s' = _hoveredNote s /\ storage s' = storage s /\
  _activeNoteInput s' = _activeNoteInput s /\
  _activeConfirm3D s' = _activeConfirm3D s /\ _confirmLoop s' = _confirmLoop s.
Proof. unfold nfields. intros [= -> -> -> -> -> -> ->]. repeat split. Qed.

Lemma pickables_step s s' :
  step s s' ->
  _notePickables s = pickables_of (_notes s) ->
  _notePickables s' = pickables_of (_notes s').
Proof.
  apply (step_note_invariant (fun s => _notePickables s = pickables_of (_notes s))).
  - intros x x' H. apply nfields_fields in H as (-> & -> & _). auto.
  - intros x pos c o id st H. rewrite createNoteMarker_notes, pickables_of_app.
    transitivity (_notePickables x ++ note_pickables (next_ref x));
      [now destruct o|].
    rewrite H. f_equal.
  - intros x r H.
    cbn [_removeNote _notes _notePickables _saveNotesToStorage set_storage
         set_hoveredNote set_notes set_notePickables set_scene].
    rewrite H. apply pickables_of_filter.
  - intros x r _ H. unfold _openDeleteConfirm.
    now destruct (_activeConfirm3D x).
  - intros x cl _ H. exact H.
  - intros x f H. destruct (hover_update_fields x (hover_target x f)) as (-> & _).
    unfold pickables_of. rewrite (core_refs _ _ (core_hover_update x _)). exact H.
  - intros x input H. unfold editor_save. destruct (_activeNoteInput x) as [r|]; auto.
    cbn [_notes _notePickables set_activeNoteInput _saveNotesToStorage set_storage
         set_notes].
    unfold pickables_of. rewrite H. unfold pickables_of. f_equal. symmetry.
    apply refs_map. intros n. now destruct (Nat.eqb (nref n) r).
  - intros x y H. exact H.
  - intros x dt H. change (_notePickables (refresh_labels x dt)) with (_notePickables x).
    unfold pickables_of. rewrite (core_refs _ _ (core_refresh x dt)). exact H.
Qed.

Lemma pickables_of_length ns :
  List.length (pickables_of ns) = 4 * List.length ns.
Proof.
  unfold pickables_of, refs. induction ns as [|n ns IH]; [reflexivity|].
  cbn [map flat_map]. rewrite length_app, IH. cbn [note_pickables List.length]. lia.
Qed.

(** X3. At every observable point the pickables are exactly the four meshes
    (sphere, halo, bar, dot) of each note of the collection, note after note
    in the order of the collection: no pickable of a removed note is left,
    none of a note is missing, and there are four times as many pickables as
    notes. *)
Theorem pickables_follow_notes (s : sys) :
  reachable s ->
  _notePickables s = pickables_of (_notes s) /\
  List.length (_notePickables s) = 4 * List.length (_notes s).
Proof.
  intros Hr.
  assert (_notePickables s = pickables_of (_notes s)) as H.
  { apply (reachable_invariant (fun x => _notePickables x = pickables_of (_notes x)));
      [reflexivity|exact pickables_step|exact Hr]. }
  split; [exact H|]. rewrite H. apply pickables_of_length.
Qed.

Lemma js_or_truthy a b : truthy b = true -> truthy (js_or a b) = true.
Proof. intros H. unfold js_or. destruct (truthy a) eqn:E; auto. Qed.

Lemma ids_step s s' :
  step s s' ->
  Forall (fun v => truthy v = true) (map nid (_notes s)) ->
  Forall (fun v => truthy v = true) (map nid (_notes s')).
Proof.
  apply (step_note_invariant
           (fun s => Forall (fun v => truthy v = true) (map nid (_notes s)))).
  - intros x x' H. apply nfields_fields in H as (-> & _). auto.
  - intros x pos c o id st H. rewrite createNoteMarker_notes, map_app.
    apply Forall_app. split; [exact H|]. constructor; [|constructor].
    apply js_or_truthy. now destruct (fresh_id_stable st).
  - intros x r H.
    cbn [_removeNote _notes _saveNotesToStorage set_storage set_hoveredNote
         set_notes set_notePickables set_scene].
    rewrite Forall_forall in *. intros v Hv.
    apply in_map_iff in Hv as (n & <- & Hn). apply filter_In in Hn as [Hn _].
    apply H. now apply in_map.
  - intros x r _ H. unfold _openDeleteConfirm. now destruct (_activeConfirm3D x).
  - intros x cl _ H. exact H.
  - intros x f H. now rewrite (core_ids _ _ (core_hover_update x _)).
  - intros x input H. unfold editor_save. destruct (_activeNoteInput x) as [r|]; auto.
    cbn [_notes set_activeNoteInput _saveNotesToStorage set_storage set_notes].
    now rewrite set_content_ids.
  - intros x y H. exact H.
  - intros x dt H. now rewrite (core_ids _ _ (core_refresh x dt)).
Qed.

(** X4. At every observable point every note of the collection has a truthy
    id (never undefined, null or the empty string), whatever id the store
    supplied for it. *)
Theorem every_note_has_an_id (s : sys) :
  reachable s -> Forall (fun n => truthy (nid n) = true) (_notes s).
Proof.
  intros Hr. apply (proj2 (Forall_map_iff (fun v => truthy v = true) nid (_notes s))).
  apply (reachable_invariant
           (fun x => Forall (fun v => truthy v = true) (map nid (_notes x))));
    [constructor|exact ids_step|exact Hr].
Qed.

Lemma setItem_cases old data :
  setItem old data = old \/ setItem old data = Some (RawJson (to_json data)).
Proof. unfold setItem. destruct (setItem_throws _ _); auto. Qed.

Lemma written_save stored s : written stored s -> written stored (_saveNotesToStorage s).
Proof.
  intros H. unfold written, _saveNotesToStorage. cbn [storage set_storage].
  destruct (setItem_cases (storage s) (notes_data (_notes s))) as [-> | ->];
    [exact H|right; eauto].
Qed.

Lemma written_step stored s s' : step s s' -> written stored s -> written stored s'.
Proof.
  apply (step_note_invariant (written stored)).
  - intros x x' H. unfold written. apply nfields_fields in H as (_ & _ & _ & -> & _).
    auto.
  - intros x pos c o id st H.
    assert (storage (createNoteMarker x pos c o id st)
            = setItem (storage x)
                (notes_data (_notes x ++ [Note (next_ref x) (js_or id (fresh_id st))
                                               (str_or c (str "")) pos false
                                               scale_normal]))) as Es
      by (destruct o; reflexivity).
    unfold written. rewrite Es.
    destruct (setItem_cases (storage x)
                (notes_data (_notes x ++ [Note (next_ref x) (js_or id (fresh_id st))
                                               (str_or c (str "")) pos false
                                               scale_normal]))) as [-> | ->];
      [exact H|right; eauto].
  - intros x r H. unfold written.
    cbn [_removeNote storage _notes _saveNotesToStorage set_storage set_hoveredNote
         set_notes set_notePickables set_scene].
    match goal with |- context [setItem ?o ?d] =>
      destruct (setItem_cases o d) as [-> | ->] end; [exact H|right; eauto].
  - intros x r _ H. unfold _openDeleteConfirm, written in *.
    now destruct (_activeConfirm3D x).
  - intros x cl _ H. exact H.
  - intros x f H. unfold written.
    now destruct (hover_update_fields x (hover_target x f)) as (_ & -> & _).
  - intros x input H. unfold editor_save. destruct (_activeNoteInput x) as [r|]; auto.
    unfold written.
    cbn [storage _notes set_activeNoteInput _saveNotesToStorage set_storage set_notes].
    match goal with |- context [setItem ?o ?d] =>
      destruct (setItem_cases o d) as [-> | ->] end; [exact H|right; eauto].
  - intros x y H. exact H.
  - intros x dt H. exact H.
Qed.

Lemma store_step stored s s' :
  (forall old v, setItem_throws old v = false) ->
  step s s' ->
  synced s \/ (storage s = stored /\ _notes s = []) ->
  synced s' \/ (storage s' = stored /\ _notes s' = []).
Proof.
  intros Hok.
  assert (forall x, synced (_saveNotesToStorage x)) as Hsave.
  { intros x. unfold synced, _saveNotesToStorage. cbn [storage _notes set_storage].
    apply setItem_lands, Hok. }
  apply (step_note_invariant
           (fun s => synced s \/ (storage s = stored /\ _notes s = []))).
  - intros x x' H. unfold synced. apply nfields_fields in H as (-> & _ & _ & -> & _).
    auto.
  - intros x pos c o id st _. left. destruct o; apply Hsave.
  - intros x r _. left. apply Hsave.
  - intros x r _ H. unfold _openDeleteConfirm, synced in *.
    now destruct (_activeConfirm3D x).
  - intros x cl _ H. exact H.
  - intros x f H. unfold synced.
    destruct (hover_update_fields x (hover_target x f)) as (_ & -> & _).
    rewrite (core_data _ _ (core_hover_update x (hover_target x f))).
    destruct H as [H|[H1 H2]]; [now left|right]. split; [exact H1|].
    pose proof (core_hover_update x (hover_target x f)) as Hc.
    rewrite H2 in Hc. now apply map_eq_nil in Hc.
  - intros x input H. unfold editor_save. destruct (_activeNoteInput x) as [r|]; auto.
    left. apply (Hsave (set_notes x (set_content r (trim input) (_notes x)))).
  - intros x y H. exact H.
  - intros x dt H. unfold synced.
    change (storage (refresh_labels x dt)) with (storage x).
    rewrite (core_data _ _ (core_refresh x dt)).
    destruct H as [H|[H1 H2]]; [now left|right]. split; [exact H1|].
    pose proof (core_refresh x dt) as Hc.
    rewrite H2 in Hc. now apply map_eq_nil in Hc.
Qed.

(** X5. Whatever the store held at startup and whatever events follow, at
    every observable point the store holds what it held at startup or the
    serialization of a note collection, written by the system. When no
    write to the store fails, it holds the serialization of the current note
    collection, or it is still as it was at startup and no note exists
    (nothing has been created or restored yet). *)
Theorem store_follows_notes (stored : option raw) (es : list event) :
  written stored (run (init stored) es) /\
  ((forall old v, setItem_throws old v = false) ->
   synced (run (init stored) es) \/
   (storage (run (init stored) es) = stored /\ _notes (run (init stored) es) = [])).
Proof.
  split.
  - apply (steps_invariant (written stored) (written_step stored) (init stored));
      [apply run_steps|].
    now left.
  - intros Hok.
    apply (steps_invariant
             (fun s => synced s \/ (storage s = stored /\ _notes s = []))
             (fun s s' => store_step stored s s' Hok) (init stored));
      [apply run_steps|].
    right. split; reflexivity.
Qed.

(** * The scene along the steps *)

Lemma note_groups_app a b : note_groups (a ++ b) = note_groups a ++ note_groups b.
Proof. apply flat_map_app. Qed.

Lemma anchors_app a b : anchors (a ++ b) = anchors a ++ anchors b.
Proof. apply flat_map_app. Qed.

Lemma note_groups_remove_note sc r :
  note_groups (scene_remove sc (NoteGroup r))
  = filter (fun x => negb (Nat.eqb x r)) (note_groups sc).
Proof.
  unfold scene_remove. induction sc as [|o sc IH]; [reflexivity|].
  destruct o as [x|x|x]; cbn [filter scene_obj_eqb negb note_groups flat_map app];
    try (fold (note_groups sc); exact IH).
  destruct (Nat.eqb x r); cbn [negb note_groups flat_map app filter];
    fold (note_groups sc); now rewrite <- IH.
Qed.

Lemma note_groups_remove_anchor sc a :
  note_groups (scene_remove sc (ConfirmAnchor a)) = note_groups sc.
Proof.
  unfold scene_remove. induction sc as [|o sc IH]; [reflexivity|].
  destruct o as [x|x|x]; cbn [filter scene_obj_eqb negb note_groups flat_map app];
    try (fold (note_groups sc); now rewrite <- IH).
  destruct (Nat.eqb x a); cbn [negb note_groups flat_map app filter];
    fold (note_groups sc); exact IH.
Qed.

Lemma anchors_remove_note sc r :
  anchors (scene_remove sc (NoteGroup r)) = anchors sc.
Proof.
  unfold scene_remove. induction sc as [|o sc IH]; [reflexivity|].
  destruct o as [x|x|x]; cbn [filter scene_obj_eqb negb anchors flat_map app];
    try (fold (anchors sc); now rewrite <- IH).
  destruct (Nat.eqb x r); cbn [negb anchors flat_map app filter];
    fold (anchors sc); exact IH.
Qed.

Lemma anchors_remove_anchor sc a :
  anchors (scene_remove sc (ConfirmAnchor a))
  = filter (fun x => negb (Nat.eqb x a)) (anchors sc).
Proof.
  unfold scene_remove. induction sc as [|o sc IH]; [reflexivity|].
  destruct o as [x|x|x]; cbn [filter scene_obj_eqb negb anchors flat_map app];
    try (fold (anchors sc); exact IH).
  destruct (Nat.eqb x a); cbn [negb anchors flat_map app filter];
    fold (anchors sc); now rewrite <- IH.
Qed.

Lemma refs_filter r ns :
  refs (filter (fun n => negb (Nat.eqb (nref n) r)) ns)
  = filter (fun x => negb (Nat.eqb x r)) (refs ns).
Proof.
  unfold refs. induction ns as [|n ns IH]; [reflexivity|].
  cbn [filter map]. destruct (Nat.eqb (nref n) r); cbn [negb map]; now rewrite IH.
Qed.

Lemma scene_tidy_same s s' : view s' = view s -> scene_tidy s -> scene_tidy s'.
Proof.
  intros H. unfold scene_tidy, dialog_anchor, loop_agrees.
  pose proof (f_equal v_notes H) as H1. pose proof (f_equal v_scene H) as H2.
  pose proof (f_equal v_confirm H) as H3. pose proof (f_equal v_loop H) as H4.
  cbn in H1, H2, H3, H4. now rewrite H1, H2, H3, H4.
Qed.

Lemma scene_tidy_fields s s' :
  _notes s' = _notes s -> scene s' = scene s ->
  _activeConfirm3D s' = _activeConfirm3D s -> _confirmLoop s' = _confirmLoop s ->
  scene_tidy s -> scene_tidy s'.
Proof.
  unfold scene_tidy, dialog_anchor, loop_agrees. now intros -> -> -> ->.
Qed.

Lemma scene_tidy_create s pos c o id st :
  scene_tidy s -> scene_tidy (createNoteMarker s pos c o id st).
Proof.
  intros (Hg & Ha & Hl). unfold scene_tidy, dialog_anchor, loop_agrees.
  rewrite createNoteMarker_notes, refs_app.
  assert (scene (createNoteMarker s pos c o id st) = scene s ++ [NoteGroup (next_ref s)]
          /\ _activeConfirm3D (createNoteMarker s pos c o id st) = _activeConfirm3D s
          /\ _confirmLoop (createNoteMarker s pos c o id st) = _confirmLoop s)
    as (-> & -> & ->) by (destruct o; repeat split).
  rewrite note_groups_app, anchors_app, Hg, Ha. cbn. rewrite app_nil_r. auto.
Qed.

Lemma scene_tidy_remove s r : scene_tidy s -> scene_tidy (_removeNote s (Some r)).
Proof.
  intros (Hg & Ha & Hl). unfold scene_tidy, dialog_anchor, loop_agrees.
  cbn [_removeNote _notes scene _activeConfirm3D _confirmLoop _saveNotesToStorage
       set_storage set_hoveredNote set_notes set_notePickables set_scene].
  rewrite note_groups_remove_note, anchors_remove_note, refs_filter, Hg. auto.
Qed.

Lemma filter_self_gone a :
  filter (fun x => negb (Nat.eqb x a)) [a] = [].
Proof. cbn. now rewrite Nat.eqb_refl. Qed.

Lemma scene_tidy_open_confirm s r :
  scene_tidy s -> scene_tidy (_openDeleteConfirm s r).
Proof.
  intros (Hg & Ha & Hl). unfold scene_tidy, dialog_anchor, loop_agrees in *.
  unfold _openDeleteConfirm. destruct (_activeConfirm3D s) as [a|];
    cbn [_notes scene _activeConfirm3D _confirmLoop set_activeConfirm3D
         set_confirmLoop set_scene set_next_ref next_ref cl_anchor];
    rewrite note_groups_app, anchors_app.
  - rewrite note_groups_remove_anchor, anchors_remove_anchor, Hg, Ha, filter_self_gone.
    cbn. rewrite app_nil_r. auto.
  - rewrite Hg, Ha. cbn. rewrite app_nil_r. auto.
Qed.

Lemma scene_tidy_cleanup s cl :
  _confirmLoop s = Some cl -> scene_tidy s -> scene_tidy (cleanup s cl).
Proof.
  intros Hcl (Hg & Ha & Hl). unfold scene_tidy, dialog_anchor, loop_agrees in *.
  rewrite Hcl in Hl.
  cbn [cleanup _notes scene _activeConfirm3D _confirmLoop set_activeConfirm3D
       set_confirmLoop set_scene].
  rewrite note_groups_remove_anchor, anchors_remove_anchor, Hg, Ha, Hl,
    filter_self_gone. auto.
Qed.

Lemma finalize_scene s m :
  furnitureModel s = Some m ->
  scene (finalizeFurniturePosition s) = scene s ++ [PlacedModel m].
Proof. intros H. unfold finalizeFurniturePosition. now rewrite H. Qed.

Lemma scene_step s s' : step s s' -> scene_tidy s -> scene_tidy s'.
Proof.
  intros H. destruct H.
  - now apply scene_tidy_same.
  - now apply scene_tidy_fields.
  - now apply scene_tidy_fields.
  - destruct (nfields_fields _ _ (nfields_finalize s))
      as (Hn & _ & _ & _ & _ & Hc & Hl).
    intros (Hg & Ha & Hlp). unfold scene_tidy, dialog_anchor, loop_agrees in *.
    rewrite Hn, Hc, Hl, (finalize_scene s m H), note_groups_app, anchors_app, Hg, Ha.
    cbn. rewrite !app_nil_r. auto.
  - destruct (nfields_fields _ _ (nfields_onPlaneAdded s pl))
      as (Hn & _ & _ & _ & _ & Hc & Hl).
    apply scene_tidy_fields; auto.
    unfold onPlaneAdded. destruct (String.eqb (orientation pl) "vertical"); [reflexivity|].
    destruct (String.eqb (semanticLabel pl) "floor"); [|reflexivity].
    now destruct (probe pl).
  - now apply scene_tidy_fields.
  - apply scene_tidy_create.
  - apply scene_tidy_remove.
  - now apply scene_tidy_fields.
  - apply scene_tidy_open_confirm.
  - now apply scene_tidy_cleanup.
  - destruct (hover_update_fields s (hover_target s f))
      as (_ & _ & Hsc & _ & _ & Hc & Hl).
    intros (Hg & Ha & Hlp). unfold scene_tidy, dialog_anchor, loop_agrees in *.
    rewrite Hsc, Hc, Hl, (core_refs _ _ (core_hover_update s (hover_target s f))).
    auto.
  - unfold editor_save. destruct (_activeNoteInput s) as [r|]; auto.
    intros (Hg & Ha & Hlp). unfold scene_tidy, dialog_anchor, loop_agrees in *.
    cbn [_notes scene _activeConfirm3D _confirmLoop set_activeNoteInput
         _saveNotesToStorage set_storage set_notes].
    rewrite Hg. split; [|auto]. symmetry. apply refs_map.
    intros n. now destruct (Nat.eqb (nref n) r).
  - now apply scene_tidy_fields.
  - intros (Hg & Ha & Hlp). unfold scene_tidy, dialog_anchor, loop_agrees in *.
    change (scene (refresh_labels s dt)) with (scene s).
    change (_activeConfirm3D (refresh_labels s dt)) with (_activeConfirm3D s).
    change (_confirmLoop (refresh_labels s dt)) with (_confirmLoop s).
    rewrite (core_refs _ _ (core_refresh s dt)). auto.
Qed.

Lemma reachable_scene_tidy s : reachable s -> scene_tidy s.
Proof.
  apply (reachable_invariant scene_tidy); [|exact scene_step].
  intros stored. repeat split.
Qed.

(** X6. At every observable point the note groups among the children of the
    scene are exactly the notes of the collection, in the same order: a note
    is in the collection if and only if its visual group is attached to the
    scene. *)
Theorem scene_follows_notes (s : sys) :
  reachable s ->
  note_groups (scene s) = refs (_notes s) /\
  forall r, In (NoteGroup r) (scene s) <-> In r (refs (_notes s)).
Proof.
  intros Hr. destruct (reachable_scene_tidy s Hr) as (Hg & _).
  split; [exact Hg|]. intros r. rewrite <- Hg. unfold note_groups.
  rewrite in_flat_map. split.
  - intros H. exists (NoteGroup r). split; [exact H|now left].
  - intros (o & Ho & Hin). destruct o; cbn in Hin; try contradiction.
    destruct Hin as [->|[]]. exact Ho.
Qed.

(** X7. At every observable point at most one delete-confirmation dialog is
    in the scene: the dialog anchors among the children of the scene are the
    active one when a dialog is active and none otherwise, and the confirm
    loop is set exactly while a dialog is active, for that dialog's anchor. *)
Theorem one_dialog_at_a_time (s : sys) :
  reachable s ->
  anchors (scene s) = dialog_anchor s /\
  List.length (anchors (scene s)) <= 1 /\
  loop_agrees s.
Proof.
  intros Hr. destruct (reachable_scene_tidy s Hr) as (_ & Ha & Hl).
  split; [exact Ha|]. split; [|exact Hl].
  rewrite Ha. unfold dialog_anchor. destruct (_activeConfirm3D s); cbn; lia.
Qed.

(** * Ids and positions do not change *)

Lemma keeps_refl s : keeps s s.
Proof. split; [lia|]. intros n Hn. left. exists n. auto. Qed.

Lemma keeps_trans s1 s2 s3 : keeps s1 s2 -> keeps s2 s3 -> keeps s1 s3.
Proof.
  intros [L1 K1] [L2 K2]. split; [lia|]. intros n3 H3.
  destruct (K2 n3 H3) as [(n2 & H2 & Er & Ei & Ep)|Hnew]; [|right; lia].
  destruct (K1 n2 H2) as [(n1 & H1 & Er' & Ei' & Ep')|Hnew]; [left|right; lia].
  exists n1. repeat split; congruence.
Qed.

Lemma keeps_same_notes s s' :
  _notes s' = _notes s -> next_ref s <= next_ref s' -> keeps s s'.
Proof.
  intros E L. split; [exact L|]. intros n Hn. rewrite E in Hn. left. exists n. auto.
Qed.

Lemma keeps_core s s' :
  map core (_notes s') = map core (_notes s) -> next_ref s <= next_ref s' -> keeps s s'.
Proof.
  intros E L. split; [exact L|]. intros n' Hn'. left.
  assert (In (core n') (map core (_notes s))) as H
    by (rewrite <- E; now apply in_map).
  apply in_map_iff in H as (n & Ec & Hn). exists n. unfold core in Ec.
  injection Ec as E1 E2 _ E4. auto.
Qed.

Lemma keeps_step s s' : step s s' -> keeps s s'.
Proof.
  intros H. destruct H.
  - pose proof (f_equal v_notes H) as H1. pose proof (f_equal v_next H) as H2.
    cbn in H1, H2. apply keeps_same_notes; [exact H1|lia].
  - now apply keeps_same_notes.
  - now apply keeps_same_notes.
  - destruct (nfields_fields _ _ (nfields_finalize s)) as (Hn & _).
    apply keeps_same_notes; [exact Hn|].
    unfold finalizeFurniturePosition. rewrite H. cbn. lia.
  - destruct (nfields_fields _ _ (nfields_onPlaneAdded s pl)) as (Hn & _).
    apply keeps_same_notes; [exact Hn|].
    unfold onPlaneAdded. destruct (String.eqb (orientation pl) "vertical"); [cbn; lia|].
    destruct (String.eqb (semanticLabel pl) "floor"); [|lia].
    destruct (probe pl); cbn; lia.
  - apply keeps_same_notes; [reflexivity|cbn; lia].
  - split; [destruct o; cbn; lia|]. intros n' Hn'.
    rewrite createNoteMarker_notes in Hn'. apply in_app_or in Hn' as [Hn'|[<-|[]]].
    + left. exists n'. auto.
    + right. cbn. lia.
  - split; [cbn; lia|]. intros n' Hn'. left. exists n'.
    cbn [_removeNote _notes _saveNotesToStorage set_storage set_hoveredNote
         set_notes set_notePickables set_scene] in Hn'.
    apply filter_In in Hn' as [Hn' _]. auto.
  - now apply keeps_same_notes.
  - apply keeps_same_notes; unfold _openDeleteConfirm;
      destruct (_activeConfirm3D s); cbn; try reflexivity; lia.
  - now apply keeps_same_notes.
  - apply keeps_core; [apply core_hover_update|].
    destruct (hover_update_fields s (hover_target s f)) as (_ & _ & _ & -> & _). lia.
  - unfold editor_save. destruct (_activeNoteInput s) as [r|]; [|apply keeps_refl].
    split; [cbn; lia|]. intros n' Hn'. left.
    cbn [_notes set_activeNoteInput _saveNotesToStorage set_storage set_notes] in Hn'.
    apply in_map_iff in Hn' as (n & <- & Hn). exists n.
    destruct (Nat.eqb (nref n) r); auto.
  - now apply keeps_same_notes.
  - apply keeps_core; [apply core_refresh|]. cbn. lia.
Qed.

Lemma keeps_steps s s' : steps s s' -> keeps s s'.
Proof.
  induction 1 as [|a b c Hab Hbc IH]; [apply keeps_refl|].
  exact (keeps_trans a b c (keeps_step a b Hab) IH).
Qed.

(** X8. A note keeps its id and its position for as long as it is in the
    collection: whatever events run from an observable point, a note found
    afterwards with the identity of a note that was there has the id and the
    position that note had. *)
Theorem id_and_position_are_kept (s : sys) (es : list event) (n n' : note) :
  reachable s ->
  In n (_notes s) -> In n' (_notes (run s es)) -> nref n' = nref n ->
  nid n' = nid n /\ npos n' = npos n.
Proof.
  intros Hr Hn Hn' E. pose proof (reachable_inv s Hr) as Hi.
  destruct (keeps_steps s (run s es) (run_steps es s)) as [_ K].
  destruct (K n' Hn') as [(n0 & H0 & Er & Ei & Ep)|Hnew].
  - assert (n0 = n) as ->.
    { apply (same_ref_same_note (_notes s)); auto.
      - exact (inv_nodup _ _ _ _ Hi).
      - congruence. }
    auto.
  - exfalso. pose proof (inv_fresh _ _ _ _ Hi (nref n) (in_refs n _ Hn)). lia.
Qed.

(** * Restoring is quiet *)

Lemma number_or_zero_not_nan v n : number_or_zero v = Some n -> n <> NaN.
Proof.
  unfold number_or_zero. destruct (to_number v) as [m|]; cbn; [|discriminate].
  intros [= <-]. destruct (num_truthy m) eqn:Em; [|discriminate].
  intros H. rewrite H in Em. discriminate.
Qed.

Lemma item_position_not_nan item pos :
  item_position item = Some pos ->
  vx pos <> NaN /\ vy pos <> NaN /\ vz pos <> NaN.
Proof.
  intros H.
  pose proof (item_position_coordinates item pos 0 H) as H0.
  pose proof (item_position_coordinates item pos 1 H) as H1.
  pose proof (item_position_coordinates item pos 2 H) as H2.
  repeat split; eapply number_or_zero_not_nan;
    [apply H0|apply H1|apply H2]; lia.
Qed.

Lemma loaded_notes_at_rest arr : forall r i stamps,
  Forall at_rest (loaded_notes r i arr stamps).
Proof.
  induction arr as [|item rest IH]; intros r i stamps; cbn [loaded_notes];
    [constructor|].
  destruct (item_position item) as [pos|] eqn:Ep; [|constructor].
  destruct (item_content item) as [c|]; constructor; auto.
  unfold at_rest. cbn [nlabel nscale npos].
  split; [reflexivity|]. split; [reflexivity|].
  exact (item_position_not_nan item pos Ep).
Qed.

Lemma load_items_dialogs arr : forall s i stamps,
  _hoveredNote (load_items s arr i stamps) = _hoveredNote s /\
  _activeNoteInput (load_items s arr i stamps) = _activeNoteInput s /\
  _activeConfirm3D (load_items s arr i stamps) = _activeConfirm3D s /\
  _confirmLoop (load_items s arr i stamps) = _confirmLoop s.
Proof.
  induction arr as [|item rest IH]; intros s i stamps; cbn [load_items].
  - repeat split.
  - destruct (item_position item) as [pos|]; [|repeat split].
    destruct (item_content item) as [c|]; [|repeat split].
    destruct (IH (createNoteMarker s pos c false (get_prop item (str "id"))
                    (stamps i)) (S i) stamps)
      as (-> & -> & -> & ->).
    repeat split.
Qed.

(** X9. Restoring the persisted notes is quiet and tolerant. It leaves the
    hover slot, the editor and the delete-confirmation dialog as they are, it
    appends notes after those already there and each appended note has its
    label hidden, its halo at rest and no NaN in its position. When nothing
    is stored, or the stored text is empty, does not parse, or parses to
    something that is not an array, it changes nothing at all. *)
Theorem load_is_quiet (s : sys) (stamps : nat -> jsnum * jsnum) :
  let s' := _loadNotesFromStorage s stamps in
  _hoveredNote s' = _hoveredNote s /\
  _activeNoteInput s' = _activeNoteInput s /\
  _activeConfirm3D s' = _activeConfirm3D s /\
  _confirmLoop s' = _confirmLoop s /\
  (exists added, _notes s' = _notes s ++ added /\ Forall at_rest added) /\
  ((forall arr, storage s <> Some (RawJson (VArr arr))) -> s' = s).
Proof.
  cbv zeta. unfold _loadNotesFromStorage.
  assert (_notes s = _notes s ++ [] /\ Forall at_rest []) as Hnil
    by (split; [now rewrite app_nil_r|constructor]).
  destruct (storage s) as [[| |v]|]; try (repeat split; eauto; fail).
  destruct v; try (repeat split; eauto; fail).
  destruct (load_items_dialogs l s 0 stamps) as (-> & -> & -> & ->).
  repeat split.
  - exists (loaded_notes (next_ref s) 0 l stamps). split.
    + apply load_items_notes.
    + apply loaded_notes_at_rest.
  - intros H. now elim (H l).
Qed.

(** * The colliders along the steps *)

Lemma placed_app a b : placed (a ++ b) = placed a ++ placed b.
Proof. apply flat_map_app. Qed.

Lemma placed_remove sc o :
  (forall m, o <> PlacedModel m) -> placed (scene_remove sc o) = placed sc.
Proof.
  intros Ho. unfold scene_remove. induction sc as [|x sc IH]; [reflexivity|].
  cbn [filter]. destruct (scene_obj_eqb x o) eqn:E; cbn [negb].
  - destruct x as [r|r|r], o as [q|q|q]; cbn in E; try discriminate;
      try (cbn [placed flat_map app]; fold (placed sc); exact IH).
    apply Nat.eqb_eq in E. subst. now elim (Ho q).
  - destruct x; cbn [placed flat_map app]; fold (placed sc); now rewrite <- IH.
Qed.

Lemma colliders_tidy_same s s' :
  view s' = view s -> colliders_tidy s -> colliders_tidy s'.
Proof.
  intros H [H1 H2 H3 H4 H5 H6].
  pose proof (f_equal v_colliders H) as E1. pose proof (f_equal v_handle H) as E2.
  pose proof (f_equal v_floor H) as E3. pose proof (f_equal v_rapier H) as E4.
  pose proof (f_equal v_scene H) as E5. pose proof (f_equal v_cube H) as E6.
  cbn in E1, E2, E3, E4, E5, E6.
  constructor; unfold handles, boxes in *; rewrite ?E1, ?E2, ?E3, ?E4, ?E5, ?E6; auto.
Qed.

(** The same, for a step that leaves the world and the placed models. *)
Lemma colliders_tidy_fields s s' :
  pworld s' = pworld s -> floorCollider s' = floorCollider s ->
  rapier s' = rapier s -> cube s' = cube s -> placed (scene s') = placed (scene s) ->
  colliders_tidy s -> colliders_tidy s'.
Proof.
  intros E1 E2 E3 E4 E5 [H1 H2 H3 H4 H5 H6].
  constructor; rewrite ?E1, ?E2, ?E3, ?E4, ?E5; auto.
Qed.

Lemma colliders_tidy_loaded s :
  rapier s = false -> colliders_tidy s -> colliders_tidy (on_rapier_loaded s).
Proof.
  intros Hr [H1 H2 H3 H4 H5 H6]. destruct (H6 Hr) as (_ & Hp & _).
  constructor.
  - cbn. repeat constructor; cbn; intuition lia.
  - cbn. intros h [<-|[<-|[]]]; lia.
  - cbn. intros c [<-|[<-|[]]]; cbn; [reflexivity|discriminate].
  - cbn. intros _. lia.
  - intros _. change (scene (on_rapier_loaded s)) with (scene s). rewrite Hp.
    reflexivity.
  - discriminate.
Qed.

Lemma colliders_tidy_finalize s m :
  furnitureModel s = Some m -> rapier s = true ->
  colliders_tidy s -> colliders_tidy (finalizeFurniturePosition s).
Proof.
  intros Hm Hr [H1 H2 H3 H4 H5 H6].
  assert (colliders (pworld (finalizeFurniturePosition s))
          = colliders (pworld s)
            ++ [Collider (S (next_handle (pworld s))) BodyBox box vzero quat_id
                         (Some (Fin (1 # 2)%Q)) (Some (next_handle (pworld s)))]
          /\ next_handle (pworld (finalizeFurniturePosition s))
             = S (S (next_handle (pworld s)))
          /\ floorCollider (finalizeFurniturePosition s) = floorCollider s
          /\ rapier (finalizeFurniturePosition s) = rapier s
          /\ cube (finalizeFurniturePosition s) = cube s) as (Ec & En & Ef & Er & Eb)
    by (unfold finalizeFurniturePosition; rewrite Hm; repeat split).
  constructor; unfold handles, boxes in *;
    rewrite ?Ec, ?En, ?Ef, ?Er, ?(finalize_scene s m Hm), ?map_app, ?filter_app,
      ?placed_app, ?length_app; cbn [map chandle filter ckind is_box placed flat_map
                                     app List.length].
  - apply NoDup_app; [exact H1|repeat constructor; intros []|].
    intros h Hh [<-|[]]. apply H2 in Hh. lia.
  - intros h Hh. apply in_app_or in Hh as [Hh|[<-|[]]]; [apply H2 in Hh|]; lia.
  - intros c Hc E. apply in_app_or in Hc as [Hc|[<-|[]]]; [now apply H3|].
    cbn in E. specialize (H4 Hr). lia.
  - intros _. specialize (H4 Hr). lia.
  - intros _. rewrite (H5 Hr). lia.
  - intros Hf. rewrite Hr in Hf. discriminate.
Qed.

Lemma NoDup_handles_filter (p : collider -> bool) l :
  NoDup (map chandle l) -> NoDup (map chandle (filter p l)).
Proof.
  induction l as [|c l IH]; cbn [filter map]; intros H; [constructor|].
  inversion H as [|? ? Hn Hd]; subst. destruct (p c); cbn [map]; auto.
  constructor; auto. intros Hin. apply Hn.
  apply in_map_iff in Hin as (x & E & Hx). apply filter_In in Hx as [Hx _].
  rewrite <- E. now apply in_map.
Qed.

Lemma boxes_without_floor s :
  colliders_tidy s ->
  filter (fun c => is_box (ckind c))
         (filter (fun c => negb (Nat.eqb (chandle c) (floorCollider s)))
                 (colliders (pworld s)))
  = boxes (pworld s).
Proof.
  intros Ht. rewrite filter_filter_swap. apply filter_all.
  intros c Hc. apply filter_In in Hc as [Hc Hb].
  apply negb_true_iff, Nat.eqb_neq. intros E.
  rewrite (ct_floor s Ht c Hc E) in Hb. discriminate.
Qed.

Lemma onPlaneAdded_wall s pl :
  String.eqb (orientation pl) "vertical" = true ->
  onPlaneAdded s pl
  = set_pworld s (fst (createCollider (pworld s) WallSlab
                         (Vec3 (boundingRectangleWidth pl) (num_of_Z 0)
                               (boundingRectangleHeight pl))
                         (plane_position pl) (plane_quaternion pl) None None)).
Proof. intros H. unfold onPlaneAdded. now rewrite H. Qed.

Lemma onPlaneAdded_floor s pl hit :
  String.eqb (orientation pl) "vertical" = false ->
  String.eqb (semanticLabel pl) "floor" = true -> probe pl = Some hit ->
  colliders (pworld (onPlaneAdded s pl))
  = filter (fun c => negb (Nat.eqb (chandle c) (floorCollider s))) (colliders (pworld s))
    ++ [new_floor (next_handle (pworld s)) (vy hit)] /\
  next_handle (pworld (onPlaneAdded s pl)) = S (next_handle (pworld s)) /\
  floorCollider (onPlaneAdded s pl) = next_handle (pworld s) /\
  rapier (onPlaneAdded s pl) = rapier s /\ cube (onPlaneAdded s pl) = cube s /\
  scene (onPlaneAdded s pl) = scene s.
Proof.
  intros H1 H2 H3. unfold onPlaneAdded. rewrite H1, H2, H3. repeat split.
Qed.

Lemma onPlaneAdded_other s pl :
  String.eqb (orientation pl) "vertical" = false ->
  (String.eqb (semanticLabel pl) "floor" = false \/ probe pl = None) ->
  onPlaneAdded s pl = s.
Proof.
  intros H1 H2. unfold onPlaneAdded. rewrite H1.
  destruct (String.eqb (semanticLabel pl) "floor"); [|reflexivity].
  destruct H2 as [H2|H2]; [discriminate|now rewrite H2].
Qed.

Lemma colliders_tidy_plane s pl :
  cube s = true -> colliders_tidy s -> colliders_tidy (onPlaneAdded s pl).
Proof.
  intros Hc Ht. pose proof Ht as [H1 H2 H3 H4 H5 H6].
  assert (rapier s = true) as Hr.
  { destruct (rapier s) eqn:E; auto. destruct (H6 eq_refl) as (_ & _ & Hf). congruence. }
  destruct (String.eqb (orientation pl) "vertical") eqn:Ev.
  - rewrite (onPlaneAdded_wall s pl Ev).
    constructor; unfold handles, boxes in *;
      cbn [pworld set_pworld createCollider fst colliders next_handle floorCollider
           rapier cube scene];
      rewrite ?map_app, ?filter_app; cbn [map chandle filter ckind is_box].
    + apply NoDup_app; [exact H1|repeat constructor; intros []|].
      intros h Hh [<-|[]]. apply H2 in Hh. lia.
    + intros h Hh. apply in_app_or in Hh as [Hh|[<-|[]]]; [apply H2 in Hh|]; lia.
    + intros c Hin E. apply in_app_or in Hin as [Hin|[<-|[]]]; [now apply H3|].
      cbn in E. specialize (H4 Hr). lia.
    + intros _. specialize (H4 Hr). lia.
    + intros _. rewrite app_nil_r. now apply H5.
    + intros Hf. congruence.
  - destruct (String.eqb (semanticLabel pl) "floor") eqn:El;
      [|rewrite onPlaneAdded_other; auto].
    destruct (probe pl) as [hit|] eqn:Ep; [|rewrite onPlaneAdded_other; auto].
    destruct (onPlaneAdded_floor s pl hit Ev El Ep) as (Ec & En & Ef & Er & Eb & Es).
    constructor; unfold handles, boxes in *; rewrite ?Ec, ?En, ?Ef, ?Er, ?Eb, ?Es.
    + rewrite map_app. apply NoDup_app; [now apply NoDup_handles_filter| |].
      * repeat constructor. intros [].
      * intros h Hh [<-|[]]. apply in_map_iff in Hh as (c & E & Hin).
        apply filter_In in Hin as [Hin _].
        assert (In (chandle c) (map chandle (colliders (pworld s)))) as Hm
          by now apply in_map.
        apply H2 in Hm. cbn in E. lia.
    + intros h Hh. rewrite map_app in Hh.
      apply in_app_or in Hh as [Hh|[<-|[]]]; [|cbn; lia].
      apply in_map_iff in Hh as (c & <- & Hin). apply filter_In in Hin as [Hin _].
      assert (In (chandle c) (map chandle (colliders (pworld s)))) as Hm
        by now apply in_map.
      apply H2 in Hm. lia.
    + intros c Hin E. apply in_app_or in Hin as [Hin|[<-|[]]]; [|reflexivity].
      apply filter_In in Hin as [Hin _].
      assert (In (chandle c) (map chandle (colliders (pworld s)))) as Hm
        by now apply in_map.
      apply H2 in Hm. lia.
    + intros _. lia.
    + intros _. rewrite filter_app, (boxes_without_floor s Ht). cbn [filter new_floor
        ckind is_box]. rewrite app_nil_r. now apply H5.
    + intros Hf. congruence.
Qed.

Lemma colliders_tidy_phys s s' :
  phys s' = phys s -> placed (scene s') = placed (scene s) ->
  colliders_tidy s -> colliders_tidy s'.
Proof.
  unfold phys. intros [= E1 E2 E3 E4 _ _] E5.
  now apply colliders_tidy_fields.
Qed.

Lemma colliders_step s s' : step s s' -> colliders_tidy s -> colliders_tidy s'.
Proof.
  intros H. destruct H.
  - now apply colliders_tidy_same.
  - now apply colliders_tidy_loaded.
  - intros [H1 H2 H3 H4 H5 H6]. constructor; auto.
    cbn [rapier make_scene set_marker_pos set_marker_visible set_floor_y
         set_cube_quat set_cube_pos set_cube].
    intros Hf. congruence.
  - now apply (colliders_tidy_finalize s m).
  - now apply colliders_tidy_plane.
  - now apply colliders_tidy_phys.
  - apply colliders_tidy_phys; [apply phys_createNoteMarker|].
    transitivity (placed (scene s ++ [NoteGroup (next_ref s)])); [now destruct o|].
    rewrite placed_app. cbn. now rewrite app_nil_r.
  - apply colliders_tidy_phys; [apply phys_removeNote|].
    cbn [_removeNote scene _saveNotesToStorage set_storage set_hoveredNote set_notes
         set_notePickables set_scene].
    apply placed_remove. discriminate.
  - now apply colliders_tidy_phys.
  - apply colliders_tidy_phys; [apply phys_openDeleteConfirm|].
    unfold _openDeleteConfirm. destruct (_activeConfirm3D s);
      cbn [scene set_activeConfirm3D set_confirmLoop set_scene set_next_ref];
      rewrite placed_app; cbn; rewrite app_nil_r; [|reflexivity].
    apply placed_remove. discriminate.
  - apply colliders_tidy_phys; [reflexivity|].
    cbn [cleanup scene set_activeConfirm3D set_confirmLoop set_scene].
    apply placed_remove. discriminate.
  - apply colliders_tidy_phys; [apply phys_hover_update|].
    now destruct (hover_update_fields s (hover_target s f)) as (_ & _ & -> & _).
  - apply colliders_tidy_phys; unfold editor_save;
      now destruct (_activeNoteInput s).
  - now apply colliders_tidy_phys.
  - now apply colliders_tidy_phys.
Qed.

Lemma reachable_colliders_tidy s : reachable s -> colliders_tidy s.
Proof.
  apply (reachable_invariant colliders_tidy); [|exact colliders_step].
  intros stored. constructor; cbn; try discriminate; try constructor; auto;
    intros; contradiction.
Qed.

(** X10. At every observable point no two colliders of the world share a
    handle, and once the physics module has loaded there is exactly one box
    collider for the carried body plus one for each furniture model placed in
    the scene. *)
Theorem one_box_per_placed_model (s : sys) :
  reachable s ->
  NoDup (handles (pworld s)) /\
  (rapier s = true ->
   List.length (boxes (pworld s)) = S (List.length (placed (scene s)))).
Proof.
  intros Hr. destruct (reachable_colliders_tidy s Hr) as [H1 _ _ _ H5 _]. auto.
Qed.

Lemma filter_one_out l : forall (c : collider),
  NoDup (map chandle l) -> In c l ->
  S (List.length (filter (fun x => negb (Nat.eqb (chandle x) (chandle c))) l))
  = List.length l.
Proof.
  induction l as [|a l IH]; intros c Hnd Hin; [contradiction|].
  inversion Hnd as [|? ? Hn Hd]; subst. cbn [filter List.length].
  destruct Hin as [->|Hin].
  - rewrite Nat.eqb_refl. cbn [negb]. f_equal. f_equal.
    apply filter_all. intros x Hx. apply negb_true_iff, Nat.eqb_neq.
    intros E. apply Hn. rewrite <- E. now apply in_map.
  - destruct (Nat.eqb (chandle a) (chandle c)) eqn:E; cbn [negb List.length].
    + apply Nat.eqb_eq in E. elim Hn. rewrite E. now apply in_map.
    + f_equal. now apply IH.
Qed.

(** X11. Once the scene is set up, a discovered plane never costs the world
    a collider and never touches a box collider: a vertical plane adds
    exactly one collider, any other plane leaves the number of colliders as
    it is (a floor replacement takes one out and puts one in), and the box
    colliders are the same before and after. *)
Theorem plane_keeps_colliders (s : sys) (pl : plane) :
  reachable s -> cube s = true ->
  let s' := plane_added s pl in
  List.length (colliders (pworld s'))
  = List.length (colliders (pworld s))
    + (if String.eqb (orientation pl) "vertical" then 1 else 0) /\
  boxes (pworld s') = boxes (pworld s).
Proof.
  intros Hr Hc s'. subst s'. unfold plane_added. rewrite Hc.
  pose proof (reachable_colliders_tidy s Hr) as Ht.
  pose proof (reachable_world_inv s Hr) as (_ & Hf & Hb).
  assert (rapier s = true) as Hrap.
  { destruct (rapier s) eqn:E; auto. rewrite (Hb eq_refl) in Hc. discriminate. }
  destruct (Hf Hrap) as [(c & Hfc & Hh & _) _].
  destruct (String.eqb (orientation pl) "vertical") eqn:Ev.
  - rewrite (onPlaneAdded_wall s pl Ev). unfold boxes.
    cbn [pworld set_pworld createCollider fst colliders].
    rewrite length_app, filter_app. cbn. now rewrite app_nil_r.
  - destruct (String.eqb (semanticLabel pl) "floor") eqn:El;
      [|rewrite onPlaneAdded_other; auto].
    destruct (probe pl) as [hit|] eqn:Ep; [|rewrite onPlaneAdded_other; auto].
    destruct (onPlaneAdded_floor s pl hit Ev El Ep) as (Ec & _).
    unfold boxes. rewrite Ec, length_app, filter_app, (boxes_without_floor s Ht).
    cbn [List.length filter new_floor ckind is_box]. rewrite app_nil_r.
    split; [|reflexivity].
    assert (In c (colliders (pworld s))) as Hin.
    { assert (In c (floor_colliders (pworld s))) as H by (rewrite Hfc; now left).
      now apply filter_In in H. }
    rewrite <- Hh.
    pose proof (filter_one_out (colliders (pworld s)) c (ct_nodup s Ht) Hin). lia.
Qed.

(** * The pit, and a controller without a gamepad *)

Lemma find_map_body_option bs h (f : body -> body) :
  (forall x, bhandle (f x) = bhandle x) ->
  find (fun x => Nat.eqb (bhandle x) h)
       (map (fun x => if Nat.eqb (bhandle x) h then f x else x) bs)
  = option_map f (find (fun x => Nat.eqb (bhandle x) h) bs).
Proof.
  intros Hf. induction bs as [|a bs IH]; [reflexivity|]. cbn [map find].
  destruct (Nat.eqb (bhandle a) h) eqn:E.
  - now rewrite Hf, E.
  - rewrite E. exact IH.
Qed.

Lemma translation_after_reset w h :
  translation (setTranslation w h spawn) h = spawn \/
  translation (setTranslation w h spawn) h = vzero.
Proof.
  unfold translation, find_body, setTranslation, map_body. cbn [bodies].
  rewrite find_map_body_option by reflexivity.
  destruct (find _ (bodies w)); cbn; auto.
Qed.

Lemma rotate_and_step_above_pit s g dt :
  jlt (vy (translation (pworld (rotate_and_step s g dt))
                       (rigidBody (rotate_and_step s g dt))))
      (num_of_Z (-5)) = false.
Proof.
  unfold rotate_and_step. cbn zeta.
  match goal with |- context [if ?c then _ else _] => destruct c eqn:E end.
  - cbn [pworld rigidBody set_pworld set_cube_quat set_cube_pos].
    match goal with |- context [setTranslation ?w ?h spawn] =>
      destruct (translation_after_reset w h) as [-> | ->] end; reflexivity.
  - exact E.
Qed.

(** X13. The carried body is never left in the pit: at the end of every
    frame that steps the world (physics loaded, right controller with a
    target ray space and a gamepad) the height of the carried body is not
    below -5, whatever the solver did in the step. *)
Theorem carried_body_is_out_of_the_pit (s : sys) (f : frame)
    (stamps : nat -> jsnum * jsnum) (c : controller) (g : gamepad) :
  rapier s = true ->
  right f = Some c -> targetRaySpace c = true -> gamepadWrapper c = Some g ->
  let s' := state_of (update s f stamps) in
  jlt (vy (translation (pworld s') (rigidBody s'))) (num_of_Z (-5)) = false.
Proof.
  intros Hr Hc Ht Hg s'. subst s'. unfold update. rewrite Hr, Hc, Ht. cbn [negb].
  unfold with_controller. rewrite Hg. cbn zeta. cbn [state_of].
  match goal with |- context [run_confirm_loop ?x f] =>
    destruct (phys_world (phys_run_confirm_loop x f)) as [-> ->] end.
  apply rotate_and_step_above_pit.
Qed.

(** X14. A frame in which the right controller has a target ray space but no
    gamepad does not complete: [update] throws at the thumbstick read, after
    the hover slot and the translation control have been handled and before
    the torque impulse and the step. The world is not stepped in that frame
    and its timestep is not set; of the impulse, torque and step requests
    the only one that can have reached it is one translation impulse, and
    none when the ray misses the floor. *)
Theorem frame_without_gamepad_throws (s : sys) (f : frame)
    (stamps : nat -> jsnum * jsnum) (c : controller) :
  rapier s = true ->
  right f = Some c -> targetRaySpace c = true -> gamepadWrapper c = None ->
  exists s' tc,
    update s f stamps = Thrown s' /\
    calls (pworld s') = tc ++ calls (pworld s) /\
    timestep (pworld s') = timestep (pworld s) /\
    (floor_hit f = None -> tc = []) /\
    (forall x, In x tc -> exists i, x = ApplyImpulse i) /\
    List.length tc <= 1 /\
    _hoveredNote s'
    = hover_target (spawn_request (ensure_scene s stamps) f) f.
Proof.
  intros Hr Hc Ht Hg. unfold update. rewrite Hr, Hc, Ht. cbn [negb].
  unfold with_controller. rewrite Hg. cbn zeta.
  set (s1 := spawn_request (ensure_scene s stamps) f).
  set (sH := hover_update s1 (hover_target s1 f)).
  assert (primary_button sH None (floor_hit f) (stamp f) = sH) as -> by reflexivity.
  assert (edit_button sH None = sH) as ->
    by (unfold edit_button; now destruct (_hoveredNote sH)).
  assert (squeeze_button sH None = sH) as ->
    by (unfold squeeze_button; now destruct (_hoveredNote sH)).
  exists (drive_body sH (floor_hit f)), (translation_calls sH (floor_hit f)).
  split; [reflexivity|].
  assert (pworld sH = pworld s /\ rigidBody sH = rigidBody s) as [Hw Hb].
  { subst sH. destruct (phys_world (phys_hover_update s1 (hover_target s1 f))) as [-> ->].
    subst s1. destruct (phys_world (phys_spawn_request (ensure_scene s stamps) f))
      as [-> ->].
    destruct (phys_ensure_scene_world s stamps) as (-> & -> & _). auto. }
  destruct (calls_drive_body sH (floor_hit f)) as [-> _]. rewrite Hw.
  split; [reflexivity|]. split.
  { unfold drive_body. destruct (floor_hit f); [|now rewrite <- Hw]. cbn zeta.
    match goal with |- context [if ?c then _ else _] => destruct c end;
      cbn; now rewrite Hw. }
  split; [intros E; unfold translation_calls; now rewrite E|].
  split; [|split].
  - unfold translation_calls. destruct (floor_hit f); [|intros x []]. cbn zeta.
    match goal with |- context [if ?c then _ else _] => destruct c end;
      [intros x []|intros x [<-|[]]; eauto].
  - unfold translation_calls. destruct (floor_hit f); [|cbn; lia]. cbn zeta.
    match goal with |- context [if ?c then _ else _] => destruct c end; cbn; lia.
  - unfold drive_body. destruct (floor_hit f); cbn zeta;
      [match goal with |- context [if ?c then _ else _] => destruct c end|];
      subst sH; apply hover_update_hovered.
Qed.

(** * The editor and the dialog *)

(** X15. The editor and the delete-confirmation dialog are not exclusive.
    With the editor open and a note hovered, a click of the primary button
    opens the dialog and the editor stays open; with the dialog open and a
    note hovered, a click of button A opens the editor and the dialog and
    its loop stay as they are. *)
Theorem editor_and_dialog_coexist (s : sys) (r : nat) (g : gamepad)
    (target : option vec3) (st : jsnum * jsnum) :
  _hoveredNote s = Some r ->
  (forall e, _activeNoteInput s = Some e -> button2_click g = true ->
     let s' := primary_button s (Some g) target st in
     _activeNoteInput s' = Some e /\
     exists a, _activeConfirm3D s' = Some a /\
               _confirmLoop s' = Some (ConfirmLoop r a)) /\
  (forall a cl, _activeConfirm3D s = Some a -> _confirmLoop s = Some cl ->
     button1_click g = true ->
     let s' := edit_button s (Some g) in
     _activeNoteInput s' = Some r /\
     _activeConfirm3D s' = Some a /\ _confirmLoop s' = Some cl).
Proof.
  intros Hh. split.
  - intros e He Hb s'. subst s'. unfold primary_button. rewrite Hb, Hh.
    unfold _openDeleteConfirm. destruct (_activeConfirm3D s);
      (split; [exact He|eexists; split; reflexivity]).
  - intros a cl Ha Hl Hb s'. subst s'. unfold edit_button. rewrite Hh, Hb.
    repeat split; assumption.
Qed.

(** * The furniture marker *)

(** X16. The mesh [createFurnitureMarker] builds is well formed: its 24
    indices make 8 triangles, each of three different vertices, and every
    index refers to one of the 16 vertices of the position attribute; the
    colour attribute has one white entry for each position component; and
    every vertex lies on the wall of the marker, a unit square around the
    origin from height 0 to the height the attribute stores for 0.2, which
    is the single-precision number nearest to it, 13421773 / 67108864, and
    not 0.2. *)
Theorem furniture_marker_is_well_formed :
  let g := m_geometry createFurnitureMarker in
  fround (Fin (2 # 10)%Q) = marker_height /\
  same_num marker_height (Fin (2 # 10)%Q) = false /\
  nth 7 (g_position g) NaN = marker_height /\
  List.length (vertices (g_position g)) = 16 /\
  List.length (g_position g) = 3 * List.length (vertices (g_position g)) /\
  List.length (g_color g) = List.length (g_position g) /\
  Forall (fun c => c = num_of_Z 1) (g_color g) /\
  List.length (triangles (g_index g)) = 8 /\
  List.length (g_index g) = 3 * List.length (triangles (g_index g)) /\
  Forall (fun i => i < List.length (vertices (g_position g))) (g_index g) /\
  forallb proper_triangle (triangles (g_index g)) = true /\
  forallb on_marker_wall (vertices (g_position g)) = true.
Proof.
  cbv zeta. split; [vm_compute; reflexivity|]. split; [vm_compute; reflexivity|].
  split; [vm_compute; reflexivity|].
  split; [reflexivity|]. split; [reflexivity|]. split; [reflexivity|].
  split; [vm_compute; repeat constructor|]. split; [reflexivity|].
  split; [reflexivity|]. split; [|split; vm_compute; reflexivity].
  apply Forall_forall. intros i Hi. cbn in Hi.
  repeat (destruct Hi as [<-|Hi]; [cbn; lia|]). contradiction.
Qed.

(** * What is written to the store *)

Lemma to_json_defined v : to_json v <> VUndef.
Proof. destruct v; cbn; try discriminate. destruct (is_finite n); discriminate. Qed.

Lemma to_json_number n : stored_number (to_json (VNum n)).
Proof. destruct n; cbn; [right; eauto|left|left|left]; reflexivity. Qed.

Lemma stored_item_note n : nid n <> VUndef -> stored_item (to_json (note_data n)).
Proof.
  intros H. rewrite (to_json_note_data n H). unfold stored_item.
  exists (to_json (nid n)), (ncontent n), (to_json (VNum (vx (npos n)))),
    (to_json (VNum (vy (npos n)))), (to_json (VNum (vz (npos n)))).
  split; [reflexivity|]. split; [apply to_json_defined|].
  repeat split; apply to_json_number.
Qed.

(** X17. What the system writes to the store is always an array with one
    element per note, in the order of the collection, and each element is an
    object with exactly the properties id, content and position, the content
    a string and the position an array of three entries that are finite
    numbers or null. *)
Theorem stored_array_is_well_formed (s : sys) :
  reachable s -> synced s ->
  exists items,
    storage s = Some (RawJson (VArr items)) /\
    List.length items = List.length (_notes s) /\
    Forall stored_item items.
Proof.
  intros Hr Hs.
  assert (Forall (fun v => truthy v = true) (map nid (_notes s))) as Hid.
  { apply (reachable_invariant
             (fun x => Forall (fun v => truthy v = true) (map nid (_notes x))));
      [constructor|exact ids_step|exact Hr]. }
  exists (map to_json (map note_data (_notes s))). split; [exact Hs|].
  split; [now rewrite !length_map|].
  rewrite map_map. apply Forall_forall. intros item Hin.
  apply in_map_iff in Hin as (n & <- & Hn). apply stored_item_note.
  rewrite Forall_forall in Hid. intros E.
  specialize (Hid (nid n) (in_map nid _ n Hn)). rewrite E in Hid. discriminate.
Qed.

(** * Creating a note and removing it again *)

Lemma filter_drop_last {A} (p : A -> bool) l x :
  (forall y, In y l -> p y = true) -> p x = false -> filter p (l ++ [x]) = l.
Proof.
  intros Hl Hx. rewrite filter_app. cbn. rewrite Hx, app_nil_r. now apply filter_all.
Qed.

(** X18. Creating a note and then removing it gives back the collection,
    the pickables and the children of the scene as they were before the
    creation, with the hover slot empty; the store holds that collection
    when the write of the removal lands. The editor the creation may have
    opened is not closed by the removal. *)
Theorem create_then_remove (s : sys) (pos : vec3) (c : jsstring) (o : bool)
    (id : jsval) (st : jsnum * jsnum) :
  reachable s ->
  let s1 := createNoteMarker s pos c o id st in
  let s' := _removeNote s1 (Some (next_ref s)) in
  _notes s' = _notes s /\ _notePickables s' = _notePickables s /\
  scene s' = scene s /\ _hoveredNote s' = None /\
  _activeNoteInput s' = (if o then Some (next_ref s) else _activeNoteInput s) /\
  (setItem_throws (storage s1) (to_json (notes_data (_notes s))) = false ->
   synced s').
Proof.
  intros Hr s1 s'. subst s1 s'.
  pose proof (reachable_inv s Hr) as Hi.
  destruct (reachable_scene_tidy s Hr) as (Hg & _).
  assert (_notes (createNoteMarker s pos c o id st)
          = _notes s ++ [Note (next_ref s) (js_or id (fresh_id st)) (str_or c (str ""))
                              pos false scale_normal]
          /\ _notePickables (createNoteMarker s pos c o id st)
             = _notePickables s ++ note_pickables (next_ref s)
          /\ scene (createNoteMarker s pos c o id st)
             = scene s ++ [NoteGroup (next_ref s)]
          /\ _activeNoteInput (createNoteMarker s pos c o id st)
             = (if o then Some (next_ref s) else _activeNoteInput s))
    as (En & Ep & Es & Ei) by (destruct o; repeat split).
  unfold synced.
  cbn [_removeNote _notes _notePickables scene _hoveredNote _activeNoteInput storage
       _saveNotesToStorage set_storage set_hoveredNote set_notes set_notePickables
       set_scene].
  rewrite En, Ep, Es, Ei.
  assert (filter (fun n => negb (Nat.eqb (nref n) (next_ref s)))
                 (_notes s ++ [Note (next_ref s) (js_or id (fresh_id st))
                                    (str_or c (str "")) pos false scale_normal])
          = _notes s) as Hn.
  { apply filter_drop_last; [|cbn; now rewrite Nat.eqb_refl].
    intros n Hn. apply negb_true_iff, Nat.eqb_neq.
    pose proof (inv_fresh _ _ _ _ Hi (nref n) (in_refs n _ Hn)). lia. }
  rewrite Hn.
  split; [reflexivity|]. split; [|split; [|split; [reflexivity|split; [reflexivity|]]]].
  - rewrite filter_app. cbn [note_pickables filter pnote].
    rewrite Nat.eqb_refl. cbn [negb]. rewrite app_nil_r. apply filter_all.
    intros p Hp. apply negb_true_iff, Nat.eqb_neq.
    pose proof (inv_fresh _ _ _ _ Hi _ (inv_pick _ _ _ _ Hi p Hp)). lia.
  - unfold scene_remove. apply filter_drop_last; [|cbn; now rewrite Nat.eqb_refl].
    intros x Hx. destruct x as [r|r|r]; cbn; auto.
    apply negb_true_iff, Nat.eqb_neq.
    assert (In r (note_groups (scene s))) as Hin.
    { unfold note_groups. apply in_flat_map. exists (NoteGroup r).
      split; [exact Hx|now left]. }
    rewrite Hg in Hin. pose proof (inv_fresh _ _ _ _ Hi r Hin). lia.
  - intros Hok. now apply setItem_lands.
Qed.

(** * The round trip through the store *)

(** C1, as amended. For every note collection of a reachable state (built
    by create, edit and remove operations, or restored) that the store
    holds, in which every note's position has finite components and every
    note's id is a value JSON writes and reads back as it is, reloading from
    the store into empty in-memory state gives the same number of notes, in
    the same order, each with the id, the content and the position of the
    note it was saved from. *)
Theorem persisted_round_trip (s : sys) (stamps : nat -> jsnum * jsnum) :
  reachable s -> synced s -> Forall storable (_notes s) ->
  Forall2 same_note (_notes (reload s stamps)) (_notes s).
Proof.
  intros Hr Hs Hst.
  assert (Forall (fun v => truthy v = true) (map nid (_notes s))) as Hid.
  { apply (reachable_invariant
             (fun x => Forall (fun v => truthy v = true) (map nid (_notes x))));
      [constructor|exact ids_step|exact Hr]. }
  apply (proj2 (Forall_map_iff (fun v => truthy v = true) nid (_notes s))) in Hid.
  unfold reload, _loadNotesFromStorage. cbn [storage init]. rewrite Hs.
  cbn [notes_data to_json]. rewrite load_items_notes. cbn [_notes init app next_ref].
  apply reload_notes.
  - rewrite Forall_forall in *. intros n Hn. split; [now apply Hid|].
    now destruct (Hst n Hn).
  - rewrite Forall_forall in *. intros n Hn. now destruct (Hst n Hn).
Qed.

(** * A frame in which one button is clicked *)

Lemma note_side_view s s' : view s' = view s -> note_side s' = note_side s.
Proof.
  intros H. unfold note_side.
  pose proof (f_equal v_notes H) as H1. pose proof (f_equal v_pick H) as H2.
  pose proof (f_equal v_hover H) as H3. pose proof (f_equal v_storage H) as H4.
  pose proof (f_equal v_input H) as H5. pose proof (f_equal v_confirm H) as H6.
  pose proof (f_equal v_loop H) as H7. pose proof (f_equal v_scene H) as H8.
  pose proof (f_equal v_next H) as H9.
  cbn in H1, H2, H3, H4, H5, H6, H7, H8, H9. congruence.
Qed.

Lemma note_side_fields s s' :
  note_side s' = note_side s ->
  map core (_notes s') = map core (_notes s) /\
  _notePickables s' = _notePickables s /\ scene s' = scene s /\
  storage s' = storage s /\ _hoveredNote s' = _hoveredNote s /\
  _activeNoteInput s' = _activeNoteInput s /\
  _activeConfirm3D s' = _activeConfirm3D s /\
  _confirmLoop s' = _confirmLoop s /\ next_ref s' = next_ref s.
Proof. unfold note_side. intros [= -> -> -> -> -> -> -> -> ->]. repeat split. Qed.

Lemma view_drive_body s target : view (drive_body s target) = view s.
Proof.
  unfold drive_body. destruct target; [|reflexivity]. cbn zeta.
  match goal with |- context [if ?c then _ else _] => destruct c end; reflexivity.
Qed.

Lemma view_rotate_and_step s g dt : view (rotate_and_step s g dt) = view s.
Proof.
  unfold rotate_and_step. cbn zeta.
  match goal with |- context [if ?c then _ else _] => destruct c end; reflexivity.
Qed.

Lemma view_spawn_request s f : view (spawn_request s f) = view s.
Proof.
  unfold spawn_request. destruct (furnitureToSpawn f); [|reflexivity].
  destruct (furnitureModel s); [reflexivity|].
  destruct (_furnitureLoading s); reflexivity.
Qed.

Lemma note_side_refresh s dt : note_side (refresh_labels s dt) = note_side s.
Proof. unfold note_side. now rewrite core_refresh. Qed.


(** Without a click of button A the confirm loop leaves the state. *)
Lemma run_confirm_loop_idle s f c g :
  right f = Some c -> gamepadWrapper c = Some g -> button1_click g = false ->
  run_confirm_loop s f = s.
Proof.
  intros Hc Hg Hb. unfold run_confirm_loop, confirm_onFrame.
  destruct (_confirmLoop s); [|reflexivity].
  rewrite Hc, Hg, Hb. now destruct (targetRaySpace c).
Qed.

(** From the translation control to the end of the frame, lines 241-300,
    when the confirm loop does not act. *)
Lemma frame_tail_note_side s g f :
  note_side (refresh_labels
               (rotate_and_step (drive_body s (floor_hit f)) g (delta f)) (delta f))
  = note_side s.
Proof.
  rewrite note_side_refresh.
  rewrite (note_side_view _ _ (view_rotate_and_step _ g (delta f))).
  apply note_side_view, view_drive_body.
Qed.

(** The frame up to the buttons, lines 89-217, with the trigger up; [s] is
    the state once the scene has been set up. *)
Lemma frame_head s0 f stamps c g :
  rapier s0 = true ->
  right f = Some c -> targetRaySpace c = true -> gamepadWrapper c = Some g ->
  trigger_down g = false ->
  let s := ensure_scene s0 stamps in
  let sH := hover_update (spawn_request s f) (hover_target s f) in
  let sB := squeeze_button
              (edit_button (primary_button sH (Some g) (floor_hit f) (stamp f))
                 (Some g)) (Some g) in
  update s0 f stamps
  = Returned (run_confirm_loop
                (refresh_labels
                   (rotate_and_step (drive_body sB (floor_hit f)) g (delta f))
                   (delta f)) f) /\
  (map core (_notes sH) = map core (_notes s) /\
   _notePickables sH = _notePickables s /\ scene sH = scene s /\
   storage sH = storage s /\ _hoveredNote sH = hover_target s f /\
   _activeNoteInput sH = _activeNoteInput s /\
   _activeConfirm3D sH = _activeConfirm3D s /\
   _confirmLoop sH = _confirmLoop s /\ next_ref sH = next_ref s) /\
  cube_pos sH = cube_pos s.
Proof.
  intros Hr Hc Ht Hg Htr s sH sB. subst sB sH.
  pose proof (view_spawn_request s f) as Hv.
  destruct (note_side_fields _ _ (note_side_view _ _ Hv))
    as (Vn & Vp & Vsc & Vst & _ & Vi & Va & Vl & Vx).
  assert (hover_target (spawn_request s f) f = hover_target s f) as Eh.
  { unfold hover_target. now rewrite Vp. }
  split; [|split].
  - unfold update. rewrite Hr. cbn [negb]. cbn zeta. fold s.
    rewrite Hc, Ht. unfold with_controller. rewrite Hg, Htr. cbn zeta.
    now rewrite Eh.
  - rewrite core_hover_update, hover_update_hovered.
    destruct (hover_update_fields (spawn_request s f) (hover_target s f))
      as (-> & -> & -> & -> & -> & -> & ->).
    rewrite Vn, Vp, Vsc, Vst, Vi, Va, Vl, Vx. repeat split.
  - transitivity (cube_pos (spawn_request s f)).
    + unfold hover_update. now destruct (option_nat_eqb _ _).
    + unfold spawn_request. destruct (furnitureToSpawn f); [|reflexivity].
      destruct (furnitureModel s); [reflexivity|].
      destruct (_furnitureLoading s); reflexivity.
Qed.

Lemma edit_button_idle s g : button1_click g = false -> edit_button s (Some g) = s.
Proof. intros H. unfold edit_button. rewrite H. now destruct (_hoveredNote s). Qed.

Lemma squeeze_button_idle s g :
  squeeze_click g = false -> squeeze_button s (Some g) = s.
Proof. intros H. unfold squeeze_button. rewrite H. now destruct (_hoveredNote s). Qed.

Lemma primary_button_idle s g target st :
  button2_click g = false -> primary_button s (Some g) target st = s.
Proof. intros H. unfold primary_button. now rewrite H. Qed.

(** C8, as amended. A press of the primary action button (B, BUTTON_2) in a
    frame that does not reach the handler has no effect: before the physics
    module has loaded the frame changes nothing, and without a right
    controller with a target ray space it leaves the notes, the editor and
    the dialog as they are once the scene is set up. In a frame that reaches
    the handler (the physics module loaded, the right controller with a
    target ray space and a gamepad) in which the button is clicked and no
    other button is, exactly one of three things happens, by the note under
    the ray in that frame; [s0] is the state once the frame has set up the
    scene (which it does, and restores the stored notes, when it is the
    first frame). A note is under the ray: the delete-confirmation dialog
    opens for it and the notes are as they were. No note is under the ray
    and no dialog is active: one note is added, at the target point or,
    without a target, at the position of the carried object, with empty
    content and a fresh id, and the editor opens on it. No note is under the
    ray and a dialog is active: notes, pickables, scene, store, editor and
    dialog are as they were. *)
Theorem primary_button_outcomes (s : sys) (f : frame)
    (stamps : nat -> jsnum * jsnum) :
  let s0 := ensure_scene s stamps in
  let s' := state_of (update s f stamps) in
  (rapier s = false -> s' = s) /\
  (rapier s = true ->
   (right f = None \/ exists c, right f = Some c /\ targetRaySpace c = false) ->
   note_side s' = note_side s0) /\
  (forall c g,
     rapier s = true ->
     right f = Some c -> targetRaySpace c = true -> gamepadWrapper c = Some g ->
     button2_click g = true ->
     trigger_down g = false -> button1_click g = false -> squeeze_click g = false ->
     (forall r, hover_target s0 f = Some r ->
        _hoveredNote s' = Some r /\
        map core (_notes s') = map core (_notes s0) /\
        _activeConfirm3D s' = Some (next_ref s0) /\
        _confirmLoop s' = Some (ConfirmLoop r (next_ref s0)) /\
        In (ConfirmAnchor (next_ref s0)) (scene s') /\
        _activeNoteInput s' = _activeNoteInput s0) /\
     (hover_target s0 f = None -> _activeConfirm3D s0 = None ->
        map core (_notes s')
        = map core (_notes s0)
          ++ [(next_ref s0,
               VStr (NumberToString (fst (stamp f)) ++ 45%N
                       :: NumberToString (snd (stamp f))),
               str "", placement_of s0 (floor_hit f))] /\
        _notePickables s' = _notePickables s0 ++ note_pickables (next_ref s0) /\
        scene s' = scene s0 ++ [NoteGroup (next_ref s0)] /\
        _activeNoteInput s' = Some (next_ref s0) /\
        _activeConfirm3D s' = None /\ _hoveredNote s' = None) /\
     (forall a, hover_target s0 f = None -> _activeConfirm3D s0 = Some a ->
        map core (_notes s') = map core (_notes s0) /\
        _notePickables s' = _notePickables s0 /\ scene s' = scene s0 /\
        storage s' = storage s0 /\ _activeNoteInput s' = _activeNoteInput s0 /\
        _activeConfirm3D s' = Some a /\ _confirmLoop s' = _confirmLoop s0 /\
        next_ref s' = next_ref s0)).
Proof.
  intros s0 s'. subst s'. split; [|split].
  - intros Hr. unfold update. now rewrite Hr.
  - intros Hr Hno. unfold update. rewrite Hr. cbn [negb]. cbn zeta. fold s0.
    assert (note_side (set_marker_visible (spawn_request s0 f) false) = note_side s0)
      as Hside.
    { transitivity (note_side (spawn_request s0 f)); [reflexivity|].
      apply note_side_view, view_spawn_request. }
    destruct Hno as [-> | (c & -> & ->)]; exact Hside.
  - intros c g Hr Hc Ht Hg Hb Htr H1 Hsq.
    destruct (frame_head s f stamps c g Hr Hc Ht Hg Htr) as (-> & HsH & Hpos).
    fold s0 in HsH, Hpos |- *.
    cbn [state_of]. rewrite (run_confirm_loop_idle _ f c g Hc Hg H1).
    set (sH := hover_update (spawn_request s0 f) (hover_target s0 f)) in *.
    rewrite (edit_button_idle _ g H1), (squeeze_button_idle _ g Hsq).
    set (sP := primary_button sH (Some g) (floor_hit f) (stamp f)).
    destruct (note_side_fields _ _ (frame_tail_note_side sP g f))
      as (Tn & Tp & Tsc & Tst & Th & Ti & Ta & Tl & Tx).
    set (sE := refresh_labels _ _) in *.
    destruct HsH as (Hn & Hp & Hsc & Hst & Hh & Hi & Ha & Hl & Hx).
    rewrite Tn, Tp, Tsc, Tst, Th, Ti, Ta, Tl, Tx.
    destruct (primary_button_handler sH g (floor_hit f) (stamp f) Hb)
      as (Hhov & Hnew & Hsame).
    fold sP in Hhov, Hnew, Hsame.
    split; [|split].
    + intros r Er. rewrite Er in Hh. destruct (Hhov r Hh) as (EP & _).
      rewrite EP. unfold _openDeleteConfirm.
      destruct (_activeConfirm3D sH) as [a0|];
        cbn [_hoveredNote _notes _activeConfirm3D _confirmLoop scene _activeNoteInput
             set_activeConfirm3D set_confirmLoop set_scene set_next_ref next_ref];
        rewrite Hh, Hn, Hx, Hi;
        (repeat split; try reflexivity); apply in_or_app; right; now left.
    + intros Er Ea. rewrite Er in Hh. rewrite Ea in Ha.
      assert (sP = createNoteMarker sH (placement_of sH (floor_hit f)) (str "") true
                     VUndef (stamp f)) as ->
        by (unfold sP, primary_button; now rewrite Hb, Hh, Ha).
      rewrite createNoteMarker_notes, map_app, Hn.
      cbn [map core nref nid ncontent npos].
      assert (_notePickables (createNoteMarker sH (placement_of sH (floor_hit f))
                               (str "") true VUndef (stamp f))
              = _notePickables sH ++ note_pickables (next_ref sH)
              /\ scene (createNoteMarker sH (placement_of sH (floor_hit f))
                          (str "") true VUndef (stamp f))
                 = scene sH ++ [NoteGroup (next_ref sH)]
              /\ _activeNoteInput (createNoteMarker sH (placement_of sH (floor_hit f))
                                     (str "") true VUndef (stamp f))
                 = Some (next_ref sH)
              /\ _activeConfirm3D (createNoteMarker sH (placement_of sH (floor_hit f))
                                     (str "") true VUndef (stamp f))
                 = _activeConfirm3D sH
              /\ _hoveredNote (createNoteMarker sH (placement_of sH (floor_hit f))
                                 (str "") true VUndef (stamp f))
                 = _hoveredNote sH) as (-> & -> & -> & -> & ->) by repeat split.
      rewrite Hp, Hsc, Hx, Ha, Hh.
      unfold placement_of. rewrite Hpos.
      repeat split; reflexivity.
    + intros a Er Ea. rewrite Er in Hh. rewrite Ea in Ha.
      rewrite (Hsame a Hh Ha). rewrite Hn, Hp, Hsc, Hst, Hi, Ha, Hl, Hx.
      repeat split; reflexivity.
Qed.

(** * Deleting a note that has an editor or a dialog open *)

Lemma removed_not_in ns r :
  ~ In r (refs (filter (fun n => negb (Nat.eqb (nref n) r)) ns)).
Proof.
  intros Hin. apply in_map_iff in Hin as (n & En & Hn).
  apply filter_In in Hn as [_ Hn]. rewrite En, Nat.eqb_refl in Hn. discriminate.
Qed.

Lemma core_refs_in ns ms r :
  map core ns = map core ms -> ~ In r (refs ms) -> ~ In r (refs ns).
Proof. intros H. now rewrite (core_refs _ _ H). Qed.

(** X12. Deleting the note under the ray closes neither an editor nor,
    with the grip, a dialog that is open on it. In a frame that reaches the
    handlers with a note under the ray, the trigger up and the primary
    button not clicked ([s0] is the state once the frame has set up the
    scene): a click of the grip alone removes the note and leaves the
    editor, the dialog and its loop as they were, also when they are open on
    that note; a click of button A alone over the confirm target of the
    dialog open on that note removes the note and closes the dialog, and
    leaves the editor open on the removed note, as the same click has opened
    it. *)
Theorem delete_leaves_surfaces_open (s : sys) (f : frame)
    (stamps : nat -> jsnum * jsnum) (c : controller) (g : gamepad) (r : nat) :
  rapier s = true ->
  right f = Some c -> targetRaySpace c = true -> gamepadWrapper c = Some g ->
  trigger_down g = false -> button2_click g = false ->
  let s0 := ensure_scene s stamps in
  hover_target s0 f = Some r ->
  let s' := state_of (update s f stamps) in
  (squeeze_click g = true -> button1_click g = false ->
     ~ In r (refs (_notes s')) /\ _hoveredNote s' = None /\
     _activeNoteInput s' = _activeNoteInput s0 /\
     _activeConfirm3D s' = _activeConfirm3D s0 /\
     _confirmLoop s' = _confirmLoop s0) /\
  (forall a, button1_click g = true -> squeeze_click g = false ->
     over_confirm f = true -> _confirmLoop s0 = Some (ConfirmLoop r a) ->
     ~ In r (refs (_notes s')) /\ _hoveredNote s' = None /\
     _activeConfirm3D s' = None /\ _confirmLoop s' = None /\
     ~ In (ConfirmAnchor a) (scene s') /\
     _activeNoteInput s' = Some r).
Proof.
  intros Hr Hc Ht Hg Htr Hb s0 Hh s'. subst s'.
  destruct (frame_head s f stamps c g Hr Hc Ht Hg Htr) as (-> & HsH & _).
  fold s0 in HsH |- *.
  cbn [state_of]. rewrite Hh in HsH |- *.
  set (sH := hover_update (spawn_request s0 f) (Some r)) in *.
  rewrite (primary_button_idle sH g (floor_hit f) (stamp f) Hb).
  destruct HsH as (Hn & Hp & Hsc & Hst & Hhov & Hi & Ha & Hl & Hx).
  split.
  - intros Hsq H1. rewrite (run_confirm_loop_idle _ f c g Hc Hg H1).
    rewrite (edit_button_idle sH g H1).
    unfold squeeze_button. rewrite Hhov, Hsq.
    destruct (note_side_fields _ _
                (frame_tail_note_side (_removeNote sH (Some r)) g f))
      as (Tn & _ & _ & _ & Th & Ti & Ta & Tl & _).
    set (sE := refresh_labels _ _) in *.
    rewrite Th, Ti, Ta, Tl.
    cbn [_removeNote _notes _hoveredNote _activeNoteInput _activeConfirm3D
         _confirmLoop _saveNotesToStorage set_storage set_hoveredNote set_notes
         set_notePickables set_scene] in *.
    rewrite Hi, Ha, Hl.
    split; [|repeat split; reflexivity].
    apply (core_refs_in _ _ r Tn), removed_not_in.
  - intros a H1 Hsq Ho Hloop. rewrite (squeeze_button_idle _ g Hsq).
    unfold edit_button. rewrite Hhov, H1.
    destruct (note_side_fields _ _
                (frame_tail_note_side (_openNoteInput sH r) g f))
      as (Tn & Tp & Tsc & Tst & Th & Ti & Ta & Tl & Tx).
    set (sE := refresh_labels _ _) in *.
    cbn [_confirmLoop _activeNoteInput _openNoteInput set_activeNoteInput] in Tl, Ti.
    rewrite Hl, Hloop in Tl.
    unfold run_confirm_loop. rewrite Tl. unfold confirm_onFrame.
    rewrite Hc, Ht, Hg, H1, Ho.
    cbn [cleanup cl_note cl_anchor _removeNote _notes _hoveredNote _activeConfirm3D
         _confirmLoop _activeNoteInput scene _saveNotesToStorage set_storage
         set_hoveredNote set_notes set_notePickables set_scene set_activeConfirm3D
         set_confirmLoop].
    rewrite Ti.
    split; [apply removed_not_in|]. repeat (split; [reflexivity|]).
    split; [|reflexivity].
    intros Hin. apply filter_In in Hin as [_ Hin].
    cbn in Hin. now rewrite Nat.eqb_refl in Hin.
Qed.

End Furniture.

(** * The development at an instance *)

Local Notation update' :=
  (update std).
Local Notation reachable' :=
  (reachable std).
Local Notation hovering :=
  (hovering_state std).
Local Notation stale_label :=
  (stale_label_state std).
Local Notation confirming :=
  (confirming_state std).
Local Notation first_frame :=
  (first_frame_state std).
Local Notation turned :=
  (turned_state std).
Local Notation lamp := (lamp_state std).
Local Notation overflow := (overflow_state std).

Lemma lamp_reachable : reachable' lamp.
Proof. exists None, lamp_events. reflexivity. Qed.

(** The spec's round-trip example: three notes with contents "buy lamp", ""
    and "move rug" at (1,0,1), (0,0,0) and (-2,0,3) come back from the store
    with their ids, contents and positions. *)
Example lamp_round_trip :
  map (fun n => (nid n, ncontent n, npos n)) (_notes lamp)
  = [(VStr (str "1000-7"), str "buy lamp",
      Vec3 (num_of_Z 1) (num_of_Z 0) (num_of_Z 1));
     (VStr (str "1016-7"), str "", vzero);
     (VStr (str "1032-7"), str "move rug",
      Vec3 (num_of_Z (-2)) (num_of_Z 0) (num_of_Z 3))] /\
  map (fun n => (nid n, ncontent n, npos n)) (_notes (reload std lamp clock))
  = map (fun n => (nid n, ncontent n, npos n)) (_notes lamp).
Proof. split; vm_compute; reflexivity. Qed.

Lemma persisted_round_trip_witness :
  reachable' lamp /\ synced lamp /\ Forall storable (_notes lamp) /\
  Forall2 same_note (_notes (reload std lamp clock)) (_notes lamp).
Proof.
  assert (synced lamp) as Hs by (vm_compute; reflexivity).
  assert (Forall storable (_notes lamp)) as Hf.
  { vm_compute. repeat constructor. }
  split; [exact lamp_reachable|]. split; [exact Hs|]. split; [exact Hf|].
  exact (persisted_round_trip std lamp clock lamp_reachable Hs Hf).
Defined.

(** C1, against the claim as stated. A note made with the primary button
    where the ray reports a hit with a NaN component is built by a create
    operation and saved, and comes back from the store at 0 there. And a
    note restored from a stored element whose id and first position
    component have overflowed to infinity is saved with both written as
    null: it comes back with a new id and at 0. *)
Lemma round_trip_loses_nan :
  let s := run std (init None)
             [RapierLoaded;
              Tick (aim_at 1000 (pad false true false)
                      (Vec3 NaN (num_of_Z 0) (num_of_Z 0))) clock] in
  (synced s /\
   map npos (_notes s) = [Vec3 NaN (num_of_Z 0) (num_of_Z 0)] /\
   map npos (_notes (reload std s clock)) = [vzero] /\
   ~ Forall2 same_note (_notes (reload std s clock)) (_notes s)) /\
  (synced overflow /\
   map (fun n => (nid n, npos n)) (_notes overflow)
   = [(VNum PosInf, Vec3 PosInf (num_of_Z 0) (num_of_Z 0))] /\
   map (fun n => (nid n, npos n)) (_notes (reload std overflow clock))
   = [(VStr (str "1000-7"), vzero)] /\
   ~ Forall2 same_note (_notes (reload std overflow clock)) (_notes overflow)).
Proof.
  cbv zeta. split.
  - split; [vm_compute; reflexivity|]. split; [vm_compute; reflexivity|].
    split; [vm_compute; reflexivity|].
    intros H. vm_compute in H. inversion H as [|a b la lb Hab _]; subst.
    destruct Hab as (_ & _ & Hv). discriminate.
  - split; [vm_compute; reflexivity|]. split; [vm_compute; reflexivity|].
    split; [vm_compute; reflexivity|].
    intros H. vm_compute in H. inversion H as [|a b la lb Hab _]; subst.
    destruct Hab as (Hi & _). discriminate.
Qed.

Lemma load_every_element_witness :
  (let s := init (Some (RawJson (VArr mixed_store))) in
   storage s = Some (RawJson (VArr mixed_store)) /\
   printable (VArr mixed_store) = true /\
   (let s' := _loadNotesFromStorage std s clock in
    List.length (_notes s') = List.length (_notes s) + List.length mixed_store /\
    forall k item, nth_error mixed_store k = Some item ->
      exists n, nth_error (_notes s') (List.length (_notes s) + k) = Some n /\
                restored std item (clock k) n)) /\
  (let s := init (Some (RawJson (VArr broken_store))) in
   let before := firstn 1 broken_store in
   let item := nth 1 broken_store VUndef in
   let after := skipn 2 broken_store in
   storage s = Some (RawJson (VArr broken_store)) /\
   broken_store = before ++ item :: after /\
   printable (VArr before) = true /\ unconvertible item /\
   (let s' := _loadNotesFromStorage std s clock in
    List.length (_notes s') = List.length (_notes s) + List.length before /\
    forall k item', nth_error before k = Some item' ->
      exists n, nth_error (_notes s') (List.length (_notes s) + k) = Some n /\
                restored std item' (clock k) n)).
Proof.
  cbv zeta. split.
  - split; [reflexivity|]. split; [reflexivity|].
    exact (proj1 (load_every_element_makes_a_note std
                    (init (Some (RawJson (VArr mixed_store)))) mixed_store clock
                    eq_refl) eq_refl).
  - assert (unconvertible (nth 1 broken_store VUndef)) as Hu.
    { apply (unconvertible_content _ [(str "toString", VNum (num_of_Z 1))]
               (VNum (num_of_Z 1))).
      - apply (holds_property [(str "id", VStr (str "a2"))] (str "content")
                 unprintable []).
        intros x [H|[]]. discriminate.
      - now left. }
    split; [reflexivity|]. split; [reflexivity|]. split; [reflexivity|].
    split; [exact Hu|].
    exact (proj2 (load_every_element_makes_a_note std
                    (init (Some (RawJson (VArr broken_store)))) broken_store clock
                    eq_refl)
             (firstn 1 broken_store) (nth 1 broken_store VUndef)
             (skipn 2 broken_store) eq_refl eq_refl Hu).
Defined.

(** What the mixed array loads to: four notes, one per element. *)
Example load_mixed_store :
  map (fun n => (nid n, ncontent n, npos n))
      (_notes (_loadNotesFromStorage std
                (init (Some (RawJson (VArr mixed_store)))) clock))
  = [(VStr (str "a1"), str "buy lamp",
      Vec3 (num_of_Z 1) (num_of_Z 0) (num_of_Z 1));
     (VStr (str "1001-7"), str "", vzero);
     (VStr (str "1002-7"), str "5", Vec3 (num_of_Z 0) (num_of_Z 1) (num_of_Z 0));
     (VStr (str "1003-7"), str "", vzero)].
Proof. vm_compute. reflexivity. Qed.

(** C10, against the claim as stated. The second of three stored elements
    has as content an object with a property named toString, which
    [String] cannot convert: the load makes a note of the first element and
    stops, so that the third element, which is in order, makes no note. The
    same when the object is a position component, by [Number]. *)
Lemma load_stops_at_unprintable :
  List.length broken_store = 3 /\
  to_string std unprintable = None /\ to_number std unprintable = None /\
  map (fun n => (nid n, ncontent n))
      (_notes (_loadNotesFromStorage std
                (init (Some (RawJson (VArr broken_store)))) clock))
  = [(VStr (str "a1"), str "one")] /\
  _notes (_loadNotesFromStorage std
            (init (Some (RawJson
               (VArr [VObj [(str "position", VArr [unprintable])]; VNull]))))
            clock)
  = [].
Proof. repeat split; vm_compute; reflexivity. Qed.

Lemma hovering_reachable : reachable' hovering.
Proof. exists None, hovering_events. reflexivity. Qed.

Lemma hover_invariant_witness :
  reachable' hovering /\
  ((forall r, _hoveredNote hovering = Some r ->
      exists n, In n (_notes hovering) /\ nref n = r /\
                (forall m, In m (_notes hovering) -> nref m = r -> m = n) /\
                nscale n = scale_hover) /\
   (forall h, h <> _hoveredNote hovering ->
      forall n, In n (_notes (hover_update hovering h)) ->
                (nlabel n = true <-> h = Some (nref n))) /\
   _hoveredNote (_removeNote std hovering (_hoveredNote hovering)) = None).
Proof.
  split; [exact hovering_reachable|].
  exact (hover_invariant std hovering hovering_reachable).
Defined.

(** C2, at the failing input. Notes A and B exist, the editor is open on A
    and the ray is on B, so B is hovered, labelled and highlighted. The
    editor's delete button removes A: [_removeNote] empties the hover slot
    and leaves B as it was. A frame later, the ray off every note, the hover
    slot is empty and B still shows its label and its enlarged halo. *)
Lemma label_outlives_hover :
  reachable' stale_label /\
  _hoveredNote stale_label = None /\
  exists n, In n (_notes stale_label) /\ nlabel n = true /\ nscale n = scale_hover.
Proof.
  split; [exists None, stale_label_events; reflexivity|].
  vm_compute. split; [reflexivity|].
  eexists. split; [left; reflexivity|]. split; reflexivity.
Qed.

Lemma remove_absent_note_witness :
  reachable' hovering /\ ~ In 0 (refs (_notes hovering)) /\ synced hovering /\
  (_removeNote std hovering None = hovering /\
   _notes (_removeNote std hovering (Some 0)) = _notes hovering /\
   _notePickables (_removeNote std hovering (Some 0)) = _notePickables hovering /\
   (synced hovering ->
    storage (_removeNote std hovering (Some 0)) = storage hovering)).
Proof.
  assert (~ In 0 (refs (_notes hovering))) as Hn.
  { vm_compute. intros [H|[]]. discriminate. }
  split; [exact hovering_reachable|]. split; [exact Hn|].
  split; [vm_compute; reflexivity|].
  exact (remove_absent_note std hovering 0 hovering_reachable Hn).
Defined.

(** C3, against the claim as stated. With nothing stored yet, removing a
    note that was never in the collection writes the empty array to the
    store; and with note 0 removed before and note 1 hovered, removing note 0
    again empties the hover slot. *)
Lemma remove_absent_changes_state :
  (~ In 7 (refs (_notes first_frame)) /\
   storage first_frame = None /\
   storage (_removeNote std first_frame (Some 7)) = Some (RawJson (VArr []))) /\
  (reachable' hovering /\ ~ In 0 (refs (_notes hovering)) /\
   _hoveredNote hovering = Some 1 /\
   _hoveredNote (_removeNote std hovering (Some 0)) = None).
Proof.
  split.
  - split; [vm_compute; intros []|]. split; vm_compute; reflexivity.
  - split; [exact hovering_reachable|]. split.
    + vm_compute. intros [H|[]]. discriminate.
    + split; vm_compute; reflexivity.
Qed.

Lemma first_frame_reachable : reachable' first_frame.
Proof. exists None, [RapierLoaded; Tick no_controller clock]. reflexivity. Qed.

Lemma floor_collider_invariant_witness :
  reachable' first_frame /\ rapier first_frame = true /\
  (floor_ok first_frame /\
   forall pl, cube first_frame = true ->
     let s' := plane_added first_frame pl in
     floor_ok s' /\
     (orientation pl = "vertical" ->
        floor_colliders (pworld s') = floor_colliders (pworld first_frame) /\
        floorCollider s' = floorCollider first_frame /\
        floor_y s' = floor_y first_frame) /\
     (orientation pl <> "vertical" -> semanticLabel pl = "floor" ->
        match probe pl with
        | None => s' = first_frame
        | Some hit =>
            floor_colliders (pworld s')
            = [new_floor (next_handle (pworld first_frame)) (vy hit)] /\
            floorCollider s' = next_handle (pworld first_frame) /\
            floor_y s' = vy hit /\
            forall c, In c (colliders (pworld s')) ->
                      chandle c <> floorCollider first_frame
        end)).
Proof.
  split; [exact first_frame_reachable|]. split; [vm_compute; reflexivity|].
  exact (floor_collider_invariant std first_frame first_frame_reachable eq_refl).
Defined.

(** The spec's floor replacement: a floor plane at height 1.2 after the
    default floor leaves one floor collider, at 1.2, and the visual floor at
    1.2. *)
Example floor_replacement :
  floor_colliders (pworld (plane_added first_frame raised_floor))
  = [new_floor 3 (Fin (12 # 10)%Q)] /\
  floor_y (plane_added first_frame raised_floor) = Fin (12 # 10)%Q.
Proof. split; vm_compute; reflexivity. Qed.

(** C4, against the claim as stated: a floor-labeled plane reported as
    vertical, which the probe would hit at 1.2, is not an aborted update (a
    collider is added) and is no replacement either (the floor collider and
    the visual floor stay where they were). *)
Lemma upright_floor_plane_only_adds_wall :
  semanticLabel upright_floor = "floor" /\
  probe upright_floor <> None /\
  List.length (colliders (pworld (plane_added first_frame upright_floor)))
  = S (List.length (colliders (pworld first_frame))) /\
  floor_colliders (pworld (plane_added first_frame upright_floor))
  = floor_colliders (pworld first_frame) /\
  floor_y (plane_added first_frame upright_floor) = num_of_Z 0.
Proof.
  split; [reflexivity|]. split; [discriminate|].
  split; [vm_compute; reflexivity|]. split; vm_compute; reflexivity.
Qed.

Lemma frame_steps_once_witness :
  let f := aim 1016 (pad false false false) None false in
  let g := pad false false false in
  let c := Controller true (Some g) in
  rapier first_frame = true /\ right f = Some c /\
  targetRaySpace c = true /\ gamepadWrapper c = Some g /\
  exists s' tc,
    update' first_frame f clock = Returned s' /\
    calls (pworld s')
    = Step (delta f) :: ApplyTorqueImpulse (torque_of g) :: tc
      ++ calls (pworld first_frame) /\
    timestep (pworld s') = delta f /\
    (floor_hit f = None -> tc = []) /\
    (forall x, In x tc -> exists i, x = ApplyImpulse i) /\
    List.length tc <= 1.
Proof.
  cbv zeta.
  assert (rapier first_frame = true) as Hr by (vm_compute; reflexivity).
  split; [exact Hr|]. split; [reflexivity|]. split; [reflexivity|].
  split; [reflexivity|].
  exact (frame_steps_once std first_frame (aim 1016 (pad false false false) None false)
           clock (Controller true (Some (pad false false false)))
           (pad false false false) Hr eq_refl eq_refl eq_refl).
Defined.

(** C6, against the claim as stated: with the physics module loaded, a frame
    in which no right controller is present returns before anything is
    applied to the world: no torque impulse, no step. *)
Lemma frame_without_controller_does_not_step :
  rapier (on_rapier_loaded (init None)) = true /\
  calls (pworld (on_rapier_loaded (init None))) = [] /\
  calls (pworld (state_of (update' (on_rapier_loaded (init None)) no_controller clock)))
  = [].
Proof. split; [|split]; vm_compute; reflexivity. Qed.

(** C7, against the claim as stated: the carrying body, turned half a turn
    when finalize is called, is put back at the spawn position still turned,
    while it was spawned unturned. *)
Lemma finalize_keeps_rotation :
  furnitureModel turned = Some 0 /\
  rotation (pworld (on_rapier_loaded (init None)))
           (rigidBody (on_rapier_loaded (init None))) = quat_id /\
  translation (pworld (finalizeFurniturePosition turned)) (rigidBody turned) = spawn /\
  rotation (pworld (finalizeFurniturePosition turned)) (rigidBody turned) = half_turn /\
  half_turn <> quat_id.
Proof.
  split; [vm_compute; reflexivity|]. split; [vm_compute; reflexivity|].
  split; [vm_compute; reflexivity|]. split; [vm_compute; reflexivity|].
  discriminate.
Qed.

Lemma finalize_outcomes_witness :
  let b := Body 1 false spawn half_turn vzero vzero in
  let s' := finalizeFurniturePosition turned in
  let h := next_handle (pworld turned) in
  furnitureModel turned = Some 0 /\
  find_body (pworld turned) (rigidBody turned) = Some b /\
  scene s' = scene turned ++ [PlacedModel 0] /\
  furnitureModel s' = None /\
  bodies (pworld s')
  = map (fun x => if Nat.eqb (bhandle x) (rigidBody turned) then recycled x else x)
        (bodies (pworld turned) ++ [Body h true (btrans b) (brot b) vzero vzero]) /\
  List.length (bodies (pworld s')) = S (List.length (bodies (pworld turned))) /\
  colliders (pworld s')
  = colliders (pworld turned)
    ++ [Collider (S h) BodyBox box vzero quat_id (Some (Fin (1 # 2)%Q)) (Some h)] /\
  find_body (pworld s') (rigidBody turned) = Some (recycled b).
Proof.
  cbv zeta.
  assert (furnitureModel turned = Some 0) as Hm by (vm_compute; reflexivity).
  assert (find_body (pworld turned) (rigidBody turned)
          = Some (Body 1 false spawn half_turn vzero vzero)) as Hb
    by (vm_compute; reflexivity).
  split; [exact Hm|]. split; [exact Hb|].
  exact (proj2 (finalize_outcomes turned) 0 _ Hm Hb).
Defined.

Lemma primary_button_witness :
  let g := pad false true false in
  let c := Controller true (Some g) in
  let f := aim 1016 g None false in
  rapier first_frame = true /\
  right f = Some c /\ targetRaySpace c = true /\ gamepadWrapper c = Some g /\
  button2_click g = true /\
  trigger_down g = false /\ button1_click g = false /\ squeeze_click g = false /\
  (let s0 := ensure_scene std first_frame clock in
   let s' := state_of (update' first_frame f clock) in
   (forall r, hover_target s0 f = Some r ->
      _hoveredNote s' = Some r /\
      map core (_notes s') = map core (_notes s0) /\
      _activeConfirm3D s' = Some (next_ref s0) /\
      _confirmLoop s' = Some (ConfirmLoop r (next_ref s0)) /\
      In (ConfirmAnchor (next_ref s0)) (scene s') /\
      _activeNoteInput s' = _activeNoteInput s0) /\
   (hover_target s0 f = None -> _activeConfirm3D s0 = None ->
      map core (_notes s')
      = map core (_notes s0)
        ++ [(next_ref s0,
             VStr (show_number (fst (stamp f)) ++ 45%N
                     :: show_number (snd (stamp f))),
             str "", placement_of s0 (floor_hit f))] /\
      _notePickables s' = _notePickables s0 ++ note_pickables (next_ref s0) /\
      scene s' = scene s0 ++ [NoteGroup (next_ref s0)] /\
      _activeNoteInput s' = Some (next_ref s0) /\
      _activeConfirm3D s' = None /\ _hoveredNote s' = None) /\
   (forall a, hover_target s0 f = None -> _activeConfirm3D s0 = Some a ->
      map core (_notes s') = map core (_notes s0) /\
      _notePickables s' = _notePickables s0 /\ scene s' = scene s0 /\
      storage s' = storage s0 /\ _activeNoteInput s' = _activeNoteInput s0 /\
      _activeConfirm3D s' = Some a /\ _confirmLoop s' = _confirmLoop s0 /\
      next_ref s' = next_ref s0)).
Proof.
  cbv zeta.
  assert (rapier first_frame = true) as Hr by (vm_compute; reflexivity).
  split; [exact Hr|]. do 7 (split; [reflexivity|]).
  exact (proj2 (proj2 (primary_button_outcomes std first_frame
                         (aim 1016 (pad false true false) None false) clock))
           (Controller true (Some (pad false true false))) (pad false true false)
           Hr eq_refl eq_refl eq_refl eq_refl eq_refl eq_refl eq_refl).
Defined.

(** C8, against the claim as stated: a press of the primary button with no
    note hovered and no dialog active creates no note in a frame that comes
    before the physics module has loaded, nor in a frame in which the right
    controller has no target ray space; the same press in a frame that
    reaches the handler makes one. *)
Lemma primary_button_press_without_effect :
  let g := pad false true false in
  let f := aim 1016 g None false in
  let blind := Frame (Fin (16 # 1000)%Q) (Some (Controller false (Some g))) false
                     None None false false (num_of_Z 1016, num_of_Z 7) in
  button2_click g = true /\
  (_hoveredNote (init None) = None /\ _activeConfirm3D (init None) = None /\
   update' (init None) f clock = Returned (init None)) /\
  (_hoveredNote first_frame = None /\ _activeConfirm3D first_frame = None /\
   _notes (state_of (update' first_frame blind clock)) = [] /\
   _activeNoteInput (state_of (update' first_frame blind clock)) = None) /\
  List.length (_notes (state_of (update' first_frame f clock))) = 1.
Proof.
  cbv zeta. split; [reflexivity|]. split; [|split].
  - repeat split.
  - repeat split; vm_compute; reflexivity.
  - vm_compute. reflexivity.
Qed.

Lemma confirm_loop_witness :
  let g := pad true false false in
  let c := Controller true (Some g) in
  let f := aim 1032 g None true in
  let cl := ConfirmLoop 0 1 in
  right f = Some c /\ targetRaySpace c = true /\ gamepadWrapper c = Some g /\
  let s' := confirm_onFrame std confirming cl f in
  (button1_click g = true -> over_confirm f = true ->
     s' = cleanup (_removeNote std confirming (Some (cl_note cl))) cl /\
     ~ In (cl_note cl) (refs (_notes s')) /\
     _activeConfirm3D s' = None /\ _confirmLoop s' = None /\
     ~ In (ConfirmAnchor (cl_anchor cl)) (scene s')) /\
  (button1_click g = true -> over_confirm f = false -> over_cancel f = true ->
     _notes s' = _notes confirming /\ _notePickables s' = _notePickables confirming /\
     _hoveredNote s' = _hoveredNote confirming /\ storage s' = storage confirming /\
     _activeConfirm3D s' = None /\ _confirmLoop s' = None /\
     ~ In (ConfirmAnchor (cl_anchor cl)) (scene s')) /\
  (button1_click g = true -> over_confirm f = false -> over_cancel f = false ->
     s' = confirming) /\
  (button1_click g = false -> s' = confirming).
Proof.
  cbv zeta. split; [reflexivity|]. split; [reflexivity|]. split; [reflexivity|].
  exact (confirm_loop_outcomes std confirming (ConfirmLoop 0 1)
           (aim 1032 (pad true false false) None true)
           (Controller true (Some (pad true false false)))
           (pad true false false) eq_refl eq_refl eq_refl).
Defined.

(** C9, against the claim as stated: the dialog is open on note 0 and the ray
    is over the confirm target; a press of the primary action button (B)
    leaves the note in the collection and the dialog open. *)
Lemma primary_button_does_not_confirm :
  let f := aim 1032 (pad false true false) None true in
  _confirmLoop confirming = Some (ConfirmLoop 0 1) /\
  button2_click (pad false true false) = true /\ over_confirm f = true /\
  confirm_onFrame std confirming (ConfirmLoop 0 1) f = confirming /\
  In 0 (refs (_notes (state_of (update' confirming f clock)))) /\
  _activeConfirm3D (state_of (update' confirming f clock)) = Some 1.
Proof.
  cbv zeta. split; [vm_compute; reflexivity|]. split; [reflexivity|].
  split; [reflexivity|]. split; [reflexivity|].
  split; [vm_compute; left; reflexivity|vm_compute; reflexivity].
Qed.

Lemma drive_body_branches_witness :
  let b := Body 1 false spawn quat_id vzero vzero in
  let t := Vec3 (num_of_Z 0) (num_of_Z 0) (num_of_Z 5) in
  let dir := vec_sub t (btrans b) in
  let s' := drive_body std first_frame (Some t) in
  find_body (pworld first_frame) (rigidBody first_frame) = Some b /\
  (jlt (taxi_length dir) arrival_epsilon = true ->
     calls (pworld s') = calls (pworld first_frame) /\
     find_body (pworld s') (rigidBody first_frame)
     = Some (Body (bhandle b) (bfixed b) (btrans b) (brot b) vzero (bangvel b))) /\
  (jlt (taxi_length dir) arrival_epsilon = false ->
     calls (pworld s')
     = ApplyImpulse (vec_scale (vec_scale (keep_direction dir) speed)
                       (unit_mass (pworld first_frame) (rigidBody first_frame)))
       :: calls (pworld first_frame) /\
     bodies (pworld s') = bodies (pworld first_frame)).
Proof.
  cbv zeta.
  assert (find_body (pworld first_frame) (rigidBody first_frame)
          = Some (Body 1 false spawn quat_id vzero vzero)) as Hb
    by (vm_compute; reflexivity).
  split; [exact Hb|].
  exact (drive_body_branches std first_frame
           (Vec3 (num_of_Z 0) (num_of_Z 0) (num_of_Z 5)) _ Hb).
Defined.

Lemma confirming_reachable : reachable' confirming.
Proof.
  exists None,
    [RapierLoaded;
     Tick (aim 1000 (pad false true false) None false) clock;
     Tick (aim 1016 (pad false true false) (Some 0) false) clock].
  reflexivity.
Qed.

Lemma pickables_follow_notes_witness :
  reachable' hovering /\
  (_notePickables hovering = pickables_of (_notes hovering) /\
   List.length (_notePickables hovering) = 4 * List.length (_notes hovering)).
Proof.
  split; [exact hovering_reachable|].
  exact (pickables_follow_notes std hovering hovering_reachable).
Defined.

Lemma every_note_has_an_id_witness :
  reachable' hovering /\
  Forall (fun n => truthy (nid n) = true) (_notes hovering).
Proof.
  split; [exact hovering_reachable|].
  exact (every_note_has_an_id std hovering hovering_reachable).
Defined.

Lemma scene_follows_notes_witness :
  reachable' hovering /\
  (note_groups (scene hovering) = refs (_notes hovering) /\
   forall r, In (NoteGroup r) (scene hovering) <-> In r (refs (_notes hovering))).
Proof.
  split; [exact hovering_reachable|].
  exact (scene_follows_notes std hovering hovering_reachable).
Defined.

Lemma one_dialog_at_a_time_witness :
  reachable' confirming /\
  (anchors (scene confirming) = dialog_anchor confirming /\
   List.length (anchors (scene confirming)) <= 1 /\
   loop_agrees confirming).
Proof.
  split; [exact confirming_reachable|].
  exact (one_dialog_at_a_time std confirming confirming_reachable).
Defined.

Lemma id_and_position_are_kept_witness :
  let es := [Tick (aim 1032 (pad false false false) None false) clock] in
  let n := Note 0 (VStr (str "1000-7")) (str "") vzero true scale_hover in
  let n' := Note 0 (VStr (str "1000-7")) (str "") vzero true scale_normal in
  reachable' confirming /\
  In n (_notes confirming) /\
  In n' (_notes (run std confirming es)) /\
  nref n' = nref n /\
  (nid n' = nid n /\ npos n' = npos n).
Proof.
  cbv zeta.
  assert (In (Note 0 (VStr (str "1000-7")) (str "") vzero true scale_hover)
             (_notes confirming))
    as H1 by (vm_compute; left; reflexivity).
  assert (In (Note 0 (VStr (str "1000-7")) (str "") vzero true scale_normal)
             (_notes (run std confirming
                          [Tick (aim 1032 (pad false false false) None false) clock])))
    as H2 by (vm_compute; left; reflexivity).
  split; [exact confirming_reachable|]. split; [exact H1|]. split; [exact H2|].
  split; [reflexivity|].
  exact (id_and_position_are_kept std confirming _ _ _ confirming_reachable H1 H2
           eq_refl).
Defined.

Lemma one_box_per_placed_model_witness :
  reachable' first_frame /\
  (NoDup (handles (pworld first_frame)) /\
   (rapier first_frame = true ->
    List.length (boxes (pworld first_frame))
    = S (List.length (placed (scene first_frame))))).
Proof.
  split; [exact first_frame_reachable|].
  exact (one_box_per_placed_model std first_frame first_frame_reachable).
Defined.

Lemma plane_keeps_colliders_witness :
  reachable' first_frame /\ cube first_frame = true /\
  (let s' := plane_added first_frame raised_floor in
   List.length (colliders (pworld s'))
   = List.length (colliders (pworld first_frame))
     + (if String.eqb (orientation raised_floor) "vertical" then 1 else 0) /\
   boxes (pworld s') = boxes (pworld first_frame)).
Proof.
  assert (cube first_frame = true) as Hc by (vm_compute; reflexivity).
  split; [exact first_frame_reachable|]. split; [exact Hc|].
  exact (plane_keeps_colliders std first_frame raised_floor
           first_frame_reachable Hc).
Defined.

Lemma delete_leaves_surfaces_open_witness :
  let g := pad true false false in
  let c := Controller true (Some g) in
  let f := aim 1032 g (Some 0) true in
  rapier confirming = true /\
  right f = Some c /\ targetRaySpace c = true /\ gamepadWrapper c = Some g /\
  trigger_down g = false /\ button2_click g = false /\
  hover_target (ensure_scene std confirming clock) f = Some 0 /\
  (let s0 := ensure_scene std confirming clock in
   let s' := state_of (update' confirming f clock) in
   (squeeze_click g = true -> button1_click g = false ->
      ~ In 0 (refs (_notes s')) /\ _hoveredNote s' = None /\
      _activeNoteInput s' = _activeNoteInput s0 /\
      _activeConfirm3D s' = _activeConfirm3D s0 /\
      _confirmLoop s' = _confirmLoop s0) /\
   (forall a, button1_click g = true -> squeeze_click g = false ->
      over_confirm f = true -> _confirmLoop s0 = Some (ConfirmLoop 0 a) ->
      ~ In 0 (refs (_notes s')) /\ _hoveredNote s' = None /\
      _activeConfirm3D s' = None /\ _confirmLoop s' = None /\
      ~ In (ConfirmAnchor a) (scene s') /\
      _activeNoteInput s' = Some 0)).
Proof.
  cbv zeta.
  assert (rapier confirming = true) as Hr by (vm_compute; reflexivity).
  assert (hover_target (ensure_scene std confirming clock)
            (aim 1032 (pad true false false) (Some 0) true)
          = Some 0) as Hh by (vm_compute; reflexivity).
  split; [exact Hr|]. do 5 (split; [reflexivity|]).
  split; [exact Hh|].
  exact (delete_leaves_surfaces_open std confirming
           (aim 1032 (pad true false false) (Some 0) true) clock
           (Controller true (Some (pad true false false))) (pad true false false) 0
           Hr eq_refl eq_refl eq_refl eq_refl eq_refl Hh).
Defined.

(** The two cases at work: from the state in which the editor and the
    dialog are open on the hovered note, the grip leaves both open on the
    note it removes, and button A over the confirm target leaves the editor
    open on it. *)
Example dangling_editor_and_dialog :
  let grip := state_of (update' confirming
                          (aim 1032 (pad false false true) (Some 0) true) clock) in
  let confirmed := state_of (update' confirming
                               (aim 1032 (pad true false false) (Some 0) true)
                               clock) in
  (_notes grip = [] /\ _activeNoteInput grip = Some 0 /\
   _confirmLoop grip = Some (ConfirmLoop 0 1)) /\
  (_notes confirmed = [] /\ _activeNoteInput confirmed = Some 0 /\
   _confirmLoop confirmed = None).
Proof. cbv zeta. repeat split; vm_compute; reflexivity. Qed.

Lemma carried_body_is_out_of_the_pit_witness :
  let g := pad false false false in
  let c := Controller true (Some g) in
  let f := aim 1016 g None false in
  rapier first_frame = true /\ right f = Some c /\
  targetRaySpace c = true /\ gamepadWrapper c = Some g /\
  (let s' := state_of (update' first_frame f clock) in
   jlt (vy (translation (pworld s') (rigidBody s'))) (num_of_Z (-5)) = false).
Proof.
  cbv zeta.
  assert (rapier first_frame = true) as Hr by (vm_compute; reflexivity).
  split; [exact Hr|]. do 3 (split; [reflexivity|]).
  exact (carried_body_is_out_of_the_pit std first_frame
           (aim 1016 (pad false false false) None false) clock
           (Controller true (Some (pad false false false))) (pad false false false)
           Hr eq_refl eq_refl eq_refl).
Defined.

Lemma frame_without_gamepad_throws_witness :
  let c := Controller true None in
  let f := Frame (Fin (16 # 1000)%Q) (Some c) false None None false false
                 (num_of_Z 1016, num_of_Z 7) in
  rapier first_frame = true /\ right f = Some c /\
  targetRaySpace c = true /\ gamepadWrapper c = None /\
  exists s' tc,
    update' first_frame f clock = Thrown s' /\
    calls (pworld s') = tc ++ calls (pworld first_frame) /\
    timestep (pworld s') = timestep (pworld first_frame) /\
    (floor_hit f = None -> tc = []) /\
    (forall x, In x tc -> exists i, x = ApplyImpulse i) /\
    List.length tc <= 1 /\
    _hoveredNote s'
    = hover_target
        (spawn_request (ensure_scene std first_frame clock) f) f.
Proof.
  cbv zeta.
  assert (rapier first_frame = true) as Hr by (vm_compute; reflexivity).
  split; [exact Hr|]. do 3 (split; [reflexivity|]).
  exact (frame_without_gamepad_throws std first_frame
           (Frame (Fin (16 # 1000)%Q) (Some (Controller true None)) false None None
                  false false (num_of_Z 1016, num_of_Z 7))
           clock (Controller true None) Hr eq_refl eq_refl eq_refl).
Defined.

Lemma editor_and_dialog_coexist_witness :
  let g := pad true true false in
  let st := (num_of_Z 1032, num_of_Z 7) in
  _hoveredNote confirming = Some 0 /\
  _activeNoteInput confirming = Some 0 /\
  _activeConfirm3D confirming = Some 1 /\
  _confirmLoop confirming = Some (ConfirmLoop 0 1) /\
  (forall e, _activeNoteInput confirming = Some e -> button2_click g = true ->
     let s' := primary_button std confirming (Some g) None st in
     _activeNoteInput s' = Some e /\
     exists a, _activeConfirm3D s' = Some a /\
               _confirmLoop s' = Some (ConfirmLoop 0 a)) /\
  (forall a cl, _activeConfirm3D confirming = Some a ->
     _confirmLoop confirming = Some cl -> button1_click g = true ->
     let s' := edit_button confirming (Some g) in
     _activeNoteInput s' = Some 0 /\
     _activeConfirm3D s' = Some a /\ _confirmLoop s' = Some cl).
Proof.
  cbv zeta.
  assert (_hoveredNote confirming = Some 0) as Hh by (vm_compute; reflexivity).
  split; [exact Hh|]. do 3 (split; [vm_compute; reflexivity|]).
  exact (editor_and_dialog_coexist std confirming 0 (pad true true false)
           None (num_of_Z 1032, num_of_Z 7) Hh).
Defined.


Lemma stored_array_is_well_formed_witness :
  (reachable' hovering /\ synced hovering) /\
  exists items,
    storage hovering = Some (RawJson (VArr items)) /\
    List.length items = List.length (_notes hovering) /\
    Forall stored_item items.
Proof.
  assert (synced hovering) as Hs by (vm_compute; reflexivity).
  split; [split; [exact hovering_reachable|exact Hs]|].
  exact (stored_array_is_well_formed std hovering hovering_reachable Hs).
Defined.

Lemma create_then_remove_witness :
  reachable' hovering /\
  (let s1 := createNoteMarker std hovering
               (Vec3 (num_of_Z 1) (num_of_Z 0) (num_of_Z 2)) (str "lamp") true VUndef
               (clock 0) in
   let s' := _removeNote std s1 (Some (next_ref hovering)) in
   _notes s' = _notes hovering /\ _notePickables s' = _notePickables hovering /\
   scene s' = scene hovering /\ _hoveredNote s' = None /\
   _activeNoteInput s' = (if true then Some (next_ref hovering)
                          else _activeNoteInput hovering) /\
   (never_throws (storage s1) (to_json (notes_data (_notes hovering))) = false ->
    synced s')).
Proof.
  split; [exact hovering_reachable|].
  exact (create_then_remove std hovering
           (Vec3 (num_of_Z 1) (num_of_Z 0) (num_of_Z 2)) (str "lamp") true VUndef
           (clock 0) hovering_reachable).
Defined.

(** When the store refuses every write, a note made with the primary button
    is in the collection and not in the store. *)
Example note_not_saved :
  let s := run full_store (init None)
             [RapierLoaded; Tick (aim 1000 (pad false true false) None false) clock] in
  List.length (_notes s) = 1 /\ storage s = None /\ ~ synced s.
Proof.
  cbv zeta. split; [vm_compute; reflexivity|]. split; [vm_compute; reflexivity|].
  intros H. vm_compute in H. discriminate.
Qed.
